(** * Meshtastic BLE/serial to TCP bridge: frame codec, config cache,
      duplicate suppression and reconnection.

    A shallow embedding of [src/ble_tcp_bridge.py] and of the frame reader of
    [src/serial_tcp_bridge.py].  Python [bytes] are lists of [byte]; Python
    integers are [Z]; the wall clock ([time.time()], float seconds) and the
    backoff delays are rationals; exceptions are an explicit [result] type;
    what a coroutine does to the outside world is a list of [event]s.

    The protobuf library ([mesh_pb2], [telemetry_pb2]) and Python's [hash]
    are external: they are taken as interfaces ([Protobuf], [PyHash]), and
    the properties hold for every implementation in which a serialised
    message parses back to itself ([ProtobufLaws]).  A small reference
    codec implements the interface and is used for the concrete runs.

    Each method is modelled as one uninterrupted step: coroutines that
    would run between two [await]s of a method are not interleaved, and a
    write to a TCP client or to the connected device succeeds. *)

From Stdlib Require Import ZArith QArith Qminmax Qround Strings.Byte Lia.
From stdpp Require Import base list option.
From Equations Require Import Equations.
From Equations.Prop Require Import Logic.

Open Scope Z_scope.

(** ** Python values *)

Definition bytes := list byte.

Definition Z_of_byte (b : byte) : Z := Z.of_N (Byte.to_N b).

Definition byte_of_Z (z : Z) : byte :=
  default x00 (Byte.of_N (Z.to_N (z mod 256))).

(** [len(x)] *)
Definition len {A} (l : list A) : Z := Z.of_nat (length l).

(** The exceptions the bridge raises or catches. *)
Inductive exn :=
| ValueError          (* create_tcp_frame: "Packet too large" *)
| StructError         (* struct.pack out of range *)
| DecodeError         (* protobuf ParseFromString *)
| RuntimeError        (* send_to_ble: "BLE client not connected" *)
| IncompleteReadError (* StreamReader.readexactly at end of stream *).

Inductive result (A : Type) :=
| Ok (a : A)
| Raise (e : exn).
Arguments Ok {A} a.
Arguments Raise {A} e.

(** Sequencing: an exception aborts the rest of the block.  With these two
    instances stdpp's [x ← r; k] notation reads as Python's statement
    sequence inside a [try]. *)
#[global] Instance result_ret : MRet result := fun A a => Ok a.
#[global] Instance result_bind : MBind result := fun A B k r =>
  match r with
  | Ok a => k a
  | Raise e => Raise e
  end.

(** [try: r except Exception: h] *)
Definition try_except {A} (r : result A) (h : A) : A :=
  match r with
  | Ok a => a
  | Raise _ => h
  end.

(** ** Frame codec *)

Module Frame.

(** TCP protocol constants. *)
Definition START1 : Z := 0x94.
Definition START2 : Z := 0xC3.
Definition MAX_PACKET_SIZE : Z := 512.
Definition HEADER_SIZE : Z := 4.

(** [struct.pack('>BBH', a, b, h)]: two unsigned bytes and a big-endian
    unsigned 16-bit integer; out-of-range arguments raise [struct.error]. *)
Definition pack_BBH (a b h : Z) : result bytes :=
  if (0 <=? a) && (a <? 256) && (0 <=? b) && (b <? 256)
     && (0 <=? h) && (h <? 65536)
  then Ok [byte_of_Z a; byte_of_Z b;
           byte_of_Z (Z.shiftr h 8); byte_of_Z (Z.land h 255)]
  else Raise StructError.

(** [struct.unpack('>H', b)[0]] on a two-byte slice. *)
Definition unpack_H (b : bytes) : result Z :=
  match b with
  | [hi; lo] => Ok (Z.lor (Z.shiftl (Z_of_byte hi) 8) (Z_of_byte lo))
  | _ => Raise StructError
  end.

(** [create_tcp_frame]: [START1][START2][LENGTH_MSB][LENGTH_LSB][PAYLOAD]. *)
Definition create_tcp_frame (protobuf_bytes : bytes) : result bytes :=
  let length := len protobuf_bytes in
  if length >? MAX_PACKET_SIZE then Raise ValueError
  else
    header ← pack_BBH START1 START2 length;
    Ok (header ++ protobuf_bytes).

(** [StreamReader.readexactly(n)] on the bytes still to come on the socket. *)
Definition readexactly (n : Z) (stream : bytes) : result (bytes * bytes) :=
  if n <=? len stream
  then Ok (take (Z.to_nat n) stream, drop (Z.to_nat n) stream)
  else Raise IncompleteReadError.

(** [serial.Serial.read(n)]: up to [n] bytes, fewer when the timeout hits. *)
Definition serial_read (n : Z) (stream : bytes) : bytes * bytes :=
  (take (Z.to_nat n) stream, drop (Z.to_nat n) stream).

(** Python [b[i]] on a header already known to have four bytes. *)
Definition byte_at (b : bytes) (i : nat) : Z :=
  Z_of_byte (default x00 (b !! i)).

(** The frame-reading part of one iteration of [handle_tcp_client] (BLE
    bridge): header, marker check, length, payload.  [None] is the
    "Invalid frame start" [continue]. *)
Definition read_tcp_frame (stream : bytes) : result (option bytes * bytes) :=
  '(header, stream) ← readexactly 4 stream;
  if negb (byte_at header 0 =? START1) || negb (byte_at header 1 =? START2)
  then Ok (None, stream)
  else
    length ← unpack_H (take 2 (drop 2 header));
    '(protobuf_bytes, stream) ← readexactly length stream;
    Ok (Some protobuf_bytes, stream).

(** [_read_one_frame_blocking] (serial bridge) on an open port: returns the
    complete frame, header included, or [None]. *)
Definition _read_one_frame_blocking (stream : bytes) : option bytes * bytes :=
  let '(header, stream) := serial_read HEADER_SIZE stream in
  if negb (len header =? HEADER_SIZE) then (None, stream)
  else if negb (byte_at header 0 =? START1) || negb (byte_at header 1 =? START2)
  then (None, stream)
  else
    match unpack_H (take 2 (drop 2 header)) with
    | Raise _ => (None, stream)
    | Ok length =>
        if length >? MAX_PACKET_SIZE then (None, stream)
        else
          let '(payload, stream) := serial_read length stream in
          if negb (len payload =? length) then (None, stream)
          else (Some (header ++ payload), stream)
    end.

(** The payload carried by a complete frame. *)
Definition frame_payload (frame : bytes) : bytes := drop 4 frame.

End Frame.

(** ** Protobuf messages

    The bridge looks at a handful of fields of the Meshtastic messages and
    passes everything else through.  The records below keep exactly the
    fields the bridge reads or writes; the remaining content of a message is
    carried as an uninterpreted block. *)

Module mesh_pb2.

(** Sub-messages that are copied into a node record without being read. *)
Record User := mkUser { user_fields : bytes }.
Record Position := mkPosition { position_fields : bytes }.
Record DeviceMetrics := mkDeviceMetrics { metrics_fields : bytes }.

(** [telemetry_pb2.Telemetry]: [HasField('device_metrics')] is [Some]. *)
Record Telemetry := mkTelemetry {
  telemetry_device_metrics : option DeviceMetrics;
  telemetry_rest : bytes
}.

Record NodeInfo := mkNodeInfo {
  num : Z;
  user : option User;
  position : option Position;
  device_metrics : option DeviceMetrics;
  last_heard : Z;
  node_rest : bytes
}.

(** [MeshPacket.decoded] *)
Record Data := mkData {
  portnum : Z;
  payload : bytes;
  data_rest : bytes
}.

Record MeshPacket := mkMeshPacket {
  from_ : Z;                (* getattr(packet, 'from') *)
  decoded : option Data;    (* HasField('decoded') *)
  packet_rest : bytes
}.

(** The [payload_variant] oneof of [FromRadio]. *)
Inductive FromRadioVariant :=
| no_variant
| packet (p : MeshPacket)
| node_info (n : NodeInfo)
| config_complete_id (id : Z)
| other_variant (field : Z) (raw : bytes)  (* my_info, config, channel, ... *).

Record FromRadio := mkFromRadio {
  id : Z;
  payload_variant : FromRadioVariant
}.

(** The [payload_variant] oneof of [ToRadio]. *)
Inductive ToRadio :=
| to_no_variant
| want_config_id (id : Z)
| to_other_variant (field : Z) (raw : bytes).

(** [m.HasField('want_config_id')] together with the value read next. *)
Definition get_want_config_id (m : ToRadio) : option Z :=
  match m with
  | want_config_id i => Some i
  | _ => None
  end.

(** [m.HasField('node_info')] *)
Definition HasField_node_info (m : FromRadio) : bool :=
  match payload_variant m with
  | node_info _ => true
  | _ => false
  end.

(** [m.HasField('config_complete_id')] *)
Definition HasField_config_complete_id (m : FromRadio) : bool :=
  match payload_variant m with
  | config_complete_id _ => true
  | _ => false
  end.

(** [m.config_complete_id = v]: assigning a member of a oneof clears the
    member that was set before. *)
Definition set_config_complete_id (m : FromRadio) (v : Z) : FromRadio :=
  {| id := id m; payload_variant := config_complete_id v |}.

(** [m.node_info....] assignments write through to the node record. *)
Definition set_node_info (m : FromRadio) (n : NodeInfo) : FromRadio :=
  {| id := id m; payload_variant := node_info n |}.

Definition set_position (n : NodeInfo) (p : Position) : NodeInfo :=
  {| num := num n; user := user n; position := Some p;
     device_metrics := device_metrics n; last_heard := last_heard n;
     node_rest := node_rest n |}.

Definition set_device_metrics (n : NodeInfo) (d : DeviceMetrics) : NodeInfo :=
  {| num := num n; user := user n; position := position n;
     device_metrics := Some d; last_heard := last_heard n;
     node_rest := node_rest n |}.

Definition set_user (n : NodeInfo) (u : User) : NodeInfo :=
  {| num := num n; user := Some u; position := position n;
     device_metrics := device_metrics n; last_heard := last_heard n;
     node_rest := node_rest n |}.

Definition set_last_heard (n : NodeInfo) (t : Z) : NodeInfo :=
  {| num := num n; user := user n; position := position n;
     device_metrics := device_metrics n; last_heard := t;
     node_rest := node_rest n |}.

(** [n.last_heard = t]: the field is a [fixed32], and assigning a value
    outside its range raises [ValueError]. *)
Definition assign_last_heard (n : NodeInfo) (t : Z) : result NodeInfo :=
  if (0 <=? t) && (t <? 2 ^ 32) then Ok (set_last_heard n t)
  else Raise ValueError.

(** The serialiser and parsers of the generated protobuf classes.  A parser
    raises [DecodeError] on malformed input. *)
Class Protobuf := {
  FromRadio_ParseFromString : bytes -> result FromRadio;
  FromRadio_SerializeToString : FromRadio -> bytes;
  ToRadio_ParseFromString : bytes -> result ToRadio;
  ToRadio_SerializeToString : ToRadio -> bytes;
  Position_ParseFromString : bytes -> result Position;
  Telemetry_ParseFromString : bytes -> result Telemetry;
  User_ParseFromString : bytes -> result User
}.

(** What the bridge relies on: a serialised message parses back to
    itself. *)
Class ProtobufLaws (pb : Protobuf) : Prop := {
  FromRadio_parse_serialize :
    forall m, FromRadio_ParseFromString (FromRadio_SerializeToString m) = Ok m;
  ToRadio_parse_serialize :
    forall m, ToRadio_ParseFromString (ToRadio_SerializeToString m) = Ok m
}.

End mesh_pb2.
Import mesh_pb2.

(** Python's built-in [hash] on [bytes]. *)
Class PyHash := { hash : bytes -> Z }.

(** ** Bridge state *)

(** One cache entry: [(protobuf_bytes, tcp_frame)]. *)
Definition entry : Type := bytes * bytes.

(** What the bridge does to the outside world, in order. *)
Inductive event :=
| TcpWrite (writer : nat) (data : bytes)  (* writer.write(data) *)
| BleWrite (data : bytes)                 (* write_gatt_char(TORADIO_UUID, data) *)
| Sleep (seconds : Q)                     (* asyncio.sleep(seconds) *)
| ConnectBle (ok : bool)                  (* connect_ble() returned / raised *)
| PollTaskStarted                         (* asyncio.create_task(poll_from_radio()) *)
| SysExit (status : Z)                    (* sys.exit(status) *).

(** The attributes of [MeshtasticBLEBridge] the modelled methods use.
    [ble_connected] stands for [self.ble_client and
    self.ble_client.is_connected]; TCP writers are numbered. *)
Record Bridge := mkBridge {
  cache_nodes : bool;
  max_cache_nodes : Z;
  tcp_clients : list nat;
  config_cache : option (list entry);
  config_cache_complete : bool;
  recording_config : bool;
  current_config_id : option Z;
  last_packet_hash : option Z;
  last_packet_time : Q;
  reconnect_attempts : Z;
  is_reconnecting : bool;
  running : bool;
  ble_connected : bool
}.

(** Reconnection behaviour constants. *)
Definition MAX_RECONNECT_ATTEMPTS : Z := 5.
Definition INITIAL_RECONNECT_DELAY : Q := 2.
Definition MAX_RECONNECT_DELAY : Q := 60.
Definition RECONNECT_BACKOFF_FACTOR : Q := 2.

(** [__init__] *)
Definition init (cache_nodes : bool) (max_cache_nodes : Z) : Bridge :=
  {| cache_nodes := cache_nodes;
     max_cache_nodes := max_cache_nodes;
     tcp_clients := [];
     config_cache := if cache_nodes then Some [] else None;
     config_cache_complete := false;
     recording_config := false;
     current_config_id := None;
     last_packet_hash := None;
     last_packet_time := 0;
     reconnect_attempts := 0;
     is_reconnecting := false;
     running := false;
     ble_connected := false |}.

(** Attribute assignments. *)
Definition set_config_cache (self : Bridge) (v : option (list entry)) : Bridge :=
  mkBridge (cache_nodes self) (max_cache_nodes self) (tcp_clients self)
    v (config_cache_complete self) (recording_config self)
    (current_config_id self) (last_packet_hash self) (last_packet_time self)
    (reconnect_attempts self) (is_reconnecting self) (running self)
    (ble_connected self).

Definition set_config_cache_complete (self : Bridge) (v : bool) : Bridge :=
  mkBridge (cache_nodes self) (max_cache_nodes self) (tcp_clients self)
    (config_cache self) v (recording_config self)
    (current_config_id self) (last_packet_hash self) (last_packet_time self)
    (reconnect_attempts self) (is_reconnecting self) (running self)
    (ble_connected self).

Definition set_recording_config (self : Bridge) (v : bool) : Bridge :=
  mkBridge (cache_nodes self) (max_cache_nodes self) (tcp_clients self)
    (config_cache self) (config_cache_complete self) v
    (current_config_id self) (last_packet_hash self) (last_packet_time self)
    (reconnect_attempts self) (is_reconnecting self) (running self)
    (ble_connected self).

Definition set_current_config_id (self : Bridge) (v : option Z) : Bridge :=
  mkBridge (cache_nodes self) (max_cache_nodes self) (tcp_clients self)
    (config_cache self) (config_cache_complete self) (recording_config self)
    v (last_packet_hash self) (last_packet_time self)
    (reconnect_attempts self) (is_reconnecting self) (running self)
    (ble_connected self).

Definition set_last_packet (self : Bridge) (h : option Z) (t : Q) : Bridge :=
  mkBridge (cache_nodes self) (max_cache_nodes self) (tcp_clients self)
    (config_cache self) (config_cache_complete self) (recording_config self)
    (current_config_id self) h t
    (reconnect_attempts self) (is_reconnecting self) (running self)
    (ble_connected self).

Definition set_reconnect_attempts (self : Bridge) (v : Z) : Bridge :=
  mkBridge (cache_nodes self) (max_cache_nodes self) (tcp_clients self)
    (config_cache self) (config_cache_complete self) (recording_config self)
    (current_config_id self) (last_packet_hash self) (last_packet_time self)
    v (is_reconnecting self) (running self) (ble_connected self).

Definition set_is_reconnecting (self : Bridge) (v : bool) : Bridge :=
  mkBridge (cache_nodes self) (max_cache_nodes self) (tcp_clients self)
    (config_cache self) (config_cache_complete self) (recording_config self)
    (current_config_id self) (last_packet_hash self) (last_packet_time self)
    (reconnect_attempts self) v (running self) (ble_connected self).

Definition set_running (self : Bridge) (v : bool) : Bridge :=
  mkBridge (cache_nodes self) (max_cache_nodes self) (tcp_clients self)
    (config_cache self) (config_cache_complete self) (recording_config self)
    (current_config_id self) (last_packet_hash self) (last_packet_time self)
    (reconnect_attempts self) (is_reconnecting self) v (ble_connected self).

Definition set_ble_connected (self : Bridge) (v : bool) : Bridge :=
  mkBridge (cache_nodes self) (max_cache_nodes self) (tcp_clients self)
    (config_cache self) (config_cache_complete self) (recording_config self)
    (current_config_id self) (last_packet_hash self) (last_packet_time self)
    (reconnect_attempts self) (is_reconnecting self) (running self) v.

(** Python list operations used on the cache. *)

(** [l[:-1]] *)
Definition but_last {A} (l : list A) : list A := take (length l - 1) l.

(** [l.insert(-1, x)]: before the last element; appends to an empty list. *)
Definition insert_before_last {A} (x : A) (l : list A) : list A :=
  take (length l - 1) l ++ x :: drop (length l - 1) l.

(** [a < b] on clock values. *)
Definition Qltb (a b : Q) : bool :=
  match (a ?= b)%Q with
  | Lt => true
  | _ => false
  end.

(** Reading a member of a oneof that is not set gives the default value. *)
Definition default_NodeInfo : NodeInfo := mkNodeInfo 0 None None None 0 [].
Definition default_MeshPacket : MeshPacket := mkMeshPacket 0 None [].

Definition get_node_info (m : FromRadio) : NodeInfo :=
  match payload_variant m with
  | node_info n => n
  | _ => default_NodeInfo
  end.

Definition get_packet (m : FromRadio) : MeshPacket :=
  match payload_variant m with
  | packet p => p
  | _ => default_MeshPacket
  end.

Definition get_config_complete_id (m : FromRadio) : Z :=
  match payload_variant m with
  | config_complete_id i => i
  | _ => 0
  end.

Definition HasField_packet (m : FromRadio) : bool :=
  match payload_variant m with
  | packet _ => true
  | _ => false
  end.

(** [update_type] in [on_ble_packet]. *)
Inductive update_type := position_update | telemetry_update | user_update.

(** ** The bridge's methods *)

Section BridgeMethods.

Context {pb : Protobuf} {py : PyHash}.

(** *** [on_ble_packet]: the config cache *)

(** Line 494: the node-counting loop.  An entry that does not parse is
    passed over. *)
Fixpoint count_node_info (cache : list entry) (node_count : Z) : Z :=
  match cache with
  | [] => node_count
  | (proto, _) :: rest =>
      count_node_info rest
        (try_except
           (temp_radio ← FromRadio_ParseFromString proto;
            Ok (if HasField_node_info temp_radio
                then node_count + 1 else node_count))
           node_count)
  end.

(** Line 510: the eviction loop, with its accumulators [new_cache] and
    [nodes_removed]. *)
Fixpoint evict_loop (cache : list entry) (nodes_to_remove : Z)
    (new_cache : list entry) (nodes_removed : Z) : list entry * Z :=
  match cache with
  | [] => (new_cache, nodes_removed)
  | (proto, frame) :: rest =>
      let skip :=
        try_except
          (temp_radio ← FromRadio_ParseFromString proto;
           Ok (HasField_node_info temp_radio
               && (nodes_removed <? nodes_to_remove)))
          false in
      if skip
      then evict_loop rest nodes_to_remove new_cache (nodes_removed + 1)
      else evict_loop rest nodes_to_remove
             (new_cache ++ [(proto, frame)]) nodes_removed
  end.

(** Lines 487-524: the completion marker. *)
Definition on_config_complete (self : Bridge) (cache : list entry)
    (from_radio : FromRadio) (protobuf_bytes tcp_frame : bytes) : Bridge :=
  if recording_config self
     && match current_config_id self with
        | Some c => get_config_complete_id from_radio =? c
        | None => false
        end
  then
    let cache := cache ++ [(protobuf_bytes, tcp_frame)] in
    let self := set_config_cache self (Some cache) in
    let self := set_config_cache_complete self true in
    let self := set_recording_config self false in
    let node_count := count_node_info cache 0 in
    if node_count >? max_cache_nodes self then
      let nodes_to_remove := node_count - max_cache_nodes self in
      let '(new_cache, _) := evict_loop cache nodes_to_remove [] 0 in
      set_config_cache self (Some new_cache)
    else self
  else self.

(** Lines 549-561: find the cached NodeInfo of [node_num] among all entries
    but the last and replace it; the flag is [node_found].  The index [i]
    runs over [cache[:-1]], so the assignment [cache[i] = ...] is always in
    range. *)
Fixpoint node_update_loop (node_num : Z) (new : entry) (i : nat)
    (slice cache : list entry) : list entry * bool :=
  match slice with
  | [] => (cache, false)
  | (cached_proto, _) :: rest =>
      match FromRadio_ParseFromString cached_proto with
      | Ok cached_from_radio =>
          if HasField_node_info cached_from_radio
             && (num (get_node_info cached_from_radio) =? node_num)
          then (<[i := new]> cache, true)
          else node_update_loop node_num new (S i) rest cache
      | Raise _ => node_update_loop node_num new (S i) rest cache
      end
  end.

(** Lines 545-567: a NodeInfo message while the cache is complete. *)
Definition update_node_info (cache : list entry) (from_radio : FromRadio)
    (protobuf_bytes tcp_frame : bytes) : list entry :=
  let node_num := num (get_node_info from_radio) in
  let '(cache, node_found) :=
    node_update_loop node_num (protobuf_bytes, tcp_frame) 0
      (but_last cache) cache in
  if negb node_found
  then insert_before_last (protobuf_bytes, tcp_frame) cache
  else cache.

(** Lines 597-617: copy the parsed sub-message into the cached node. *)
Definition apply_update (ut : update_type) (payload : bytes) (n : NodeInfo)
    : result NodeInfo :=
  match ut with
  | position_update =>
      position ← Position_ParseFromString payload;
      Ok (set_position n position)
  | telemetry_update =>
      telemetry ← Telemetry_ParseFromString payload;
      Ok (match telemetry_device_metrics telemetry with
          | Some d => set_device_metrics n d
          | None => n
          end)
  | user_update =>
      user ← User_ParseFromString payload;
      Ok (set_user n user)
  end.

(** Lines 591-626: the body of the loop for one cached entry.  [Ok None]
    is "not this node", [Ok (Some e)] the rewritten entry; an exception is
    caught by the loop, which goes on to the next entry. *)
Definition refresh_entry (ut : update_type) (node_num : Z) (payload : bytes)
    (now : Z) (cached_proto : bytes) : result (option entry) :=
  cached_from_radio ← FromRadio_ParseFromString cached_proto;
  if HasField_node_info cached_from_radio
     && (num (get_node_info cached_from_radio) =? node_num)
  then
    n ← apply_update ut payload (get_node_info cached_from_radio);
    n ← assign_last_heard n now;
    let updated_bytes :=
      FromRadio_SerializeToString (set_node_info cached_from_radio n) in
    updated_frame ← Frame.create_tcp_frame updated_bytes;
    Ok (Some (updated_bytes, updated_frame))
  else Ok None.

(** Lines 590-630. *)
Fixpoint packet_update_loop (ut : update_type) (node_num : Z)
    (payload : bytes) (now : Z) (i : nat) (slice cache : list entry)
    : list entry :=
  match slice with
  | [] => cache
  | (cached_proto, _) :: rest =>
      match refresh_entry ut node_num payload now cached_proto with
      | Ok (Some e) => <[i := e]> cache
      | _ => packet_update_loop ut node_num payload now (S i) rest cache
      end
  end.

(** Lines 578-586: which update a decoded packet carries, by port number
    (POSITION_APP, TELEMETRY_APP, NODEINFO_APP). *)
Definition update_type_of (portnum : Z) : option update_type :=
  if portnum =? 3 then Some position_update
  else if portnum =? 67 then Some telemetry_update
  else if portnum =? 4 then Some user_update
  else None.

(** Lines 572-630: a mesh packet while the cache is complete. *)
Definition update_from_packet (cache : list entry) (from_radio : FromRadio)
    (now : Z) : list entry :=
  let packet := get_packet from_radio in
  let node_num := from_ packet in
  match decoded packet with
  | Some decoded =>
      let update_type := update_type_of (portnum decoded) in
      match update_type with
      | Some ut =>
          if negb (node_num =? 0)
          then packet_update_loop ut node_num (payload decoded) now 0
                 (but_last cache) cache
          else cache
      | None => cache
      end
  | None => cache
  end.

(** Lines 480-634: the cache bookkeeping of [on_ble_packet].  [now] is
    [int(time.time())]. *)
Definition cache_packet (self : Bridge) (protobuf_bytes tcp_frame : bytes)
    (now : Z) : Bridge :=
  match config_cache self with
  | None => self
  | Some cache =>
      try_except
        (from_radio ← FromRadio_ParseFromString protobuf_bytes;
         Ok (if HasField_config_complete_id from_radio then
               on_config_complete self cache from_radio protobuf_bytes tcp_frame
             else if recording_config self then
               set_config_cache self (Some (cache ++ [(protobuf_bytes, tcp_frame)]))
             else if config_cache_complete self
                     && HasField_node_info from_radio then
               set_config_cache self
                 (Some (update_node_info cache from_radio protobuf_bytes tcp_frame))
             else if config_cache_complete self
                     && HasField_packet from_radio then
               set_config_cache self (Some (update_from_packet cache from_radio now))
             else self))
        self
  end.

(** *** [on_ble_packet]: duplicate suppression and broadcast *)

(** Lines 466-467. *)
Definition is_duplicate (self : Bridge) (packet_hash : Z) (current_time : Q)
    : bool :=
  match last_packet_hash self with
  | Some h => packet_hash =? h
  | None => false
  end
  && Qltb (current_time - last_packet_time self) (1 # 10).

Definition broadcast_to_tcp (self : Bridge) (frame : bytes) : list event :=
  map (fun writer => TcpWrite writer frame) (tcp_clients self).

(** [on_ble_packet]; [current_time] is the [time.time()] of line 463. *)
Definition on_ble_packet (self : Bridge) (protobuf_bytes : bytes)
    (current_time : Q) (now : Z) : Bridge * list event :=
  let packet_hash := hash protobuf_bytes in
  if is_duplicate self packet_hash current_time then (self, [])
  else
    let self := set_last_packet self (Some packet_hash) current_time in
    match Frame.create_tcp_frame protobuf_bytes with
    | Raise _ => (self, [])
    | Ok tcp_frame =>
        let self := cache_packet self protobuf_bytes tcp_frame now in
        (self, broadcast_to_tcp self tcp_frame)
    end.

(** *** [handle_tcp_client] and [send_to_ble] *)

(** [send_to_ble]: raises when the BLE client is not connected; otherwise
    writes the serialised packet to the ToRadio characteristic. *)
Definition send_to_ble (self : Bridge) (packet : ToRadio) : result (list event) :=
  if negb (ble_connected self) then Raise RuntimeError
  else
    let packet_bytes := ToRadio_SerializeToString packet in
    Ok [BleWrite packet_bytes].

(** Lines 744-758: what is written for the entry at index [i]. *)
Definition replay_entry (n : Z) (requested_id : Z) (i : Z) (e : entry)
    : result bytes :=
  let '(cached_protobuf, cached_frame) := e in
  if i =? n - 1 then
    from_radio ← FromRadio_ParseFromString cached_protobuf;
    let from_radio := set_config_complete_id from_radio requested_id in
    let updated_bytes := FromRadio_SerializeToString from_radio in
    updated_frame ← Frame.create_tcp_frame updated_bytes;
    Ok updated_frame
  else Ok cached_frame.

(** Lines 743-763: the replay loop over [enumerate(self.config_cache)]; an
    exception ends the loop ([break]).  [n] is [len(self.config_cache)]. *)
Fixpoint replay_loop (n : Z) (requested_id : Z) (i : Z) (rest : list entry)
    : list bytes :=
  match rest with
  | [] => []
  | e :: rest =>
      match replay_entry n requested_id i e with
      | Ok frame => frame :: replay_loop n requested_id (i + 1) rest
      | Raise _ => []
      end
  end.

Definition replay (cache : list entry) (requested_id : Z) : list bytes :=
  replay_loop (len cache) requested_id 0 cache.

(** Lines 729-772: one decoded client frame.  No attribute of the bridge
    is assigned on this path, so the bridge is returned as it came; the
    events are what is written, to the client and to the device. *)
Definition on_client_frame (self : Bridge) (writer : nat)
    (protobuf_bytes : bytes) : Bridge * list event :=
  (self,
   try_except
     (to_radio ← ToRadio_ParseFromString protobuf_bytes;
      match config_cache self, config_cache_complete self,
            get_want_config_id to_radio with
      | Some cache, true, Some requested_id =>
          Ok (map (TcpWrite writer) (replay cache requested_id))
      | _, _, _ => send_to_ble self to_radio
      end)
     []).

(** Lines 711-772: one turn of the loop of [handle_tcp_client] on the bytes
    still to come from the client.  [IncompleteReadError] ends the
    connection. *)
Definition handle_tcp_client_step (self : Bridge) (writer : nat)
    (stream : bytes) : result (Bridge * list event * bytes) :=
  '(frame, stream) ← Frame.read_tcp_frame stream;
  match frame with
  | None => Ok (self, [], stream)
  | Some protobuf_bytes =>
      let '(self, evs) := on_client_frame self writer protobuf_bytes in
      Ok (self, evs, stream)
  end.

(** *** Reconnection *)

(** Lines 300-303. *)
Definition backoff_delay (reconnect_attempts : Z) : Q :=
  Qmin
    (INITIAL_RECONNECT_DELAY
     * RECONNECT_BACKOFF_FACTOR ^ (reconnect_attempts - 1))
    MAX_RECONNECT_DELAY.

(** What the outside world does during one reconnection attempt: whether
    [connect_ble] succeeds, the id [prewarm_cache] draws, and the packets
    [on_ble_packet] handles (with their two clock readings) during each
    0.5 s wait of [prewarm_cache], one list a wait. *)
Record attempt_env := mkAttemptEnv {
  connect_ok : bool;
  drawn_config_id : Z;
  arrivals : list (list (bytes * Q * Z))
}.

(** Lines 152-155 of [prewarm_cache]: start recording. *)
Definition begin_recording (self : Bridge) (config_id : Z) : Bridge :=
  let self := set_recording_config self true in
  let self := set_current_config_id self (Some config_id) in
  let self := set_config_cache self (fmap (fun _ => []) (config_cache self)) in
  set_config_cache_complete self false.

(** The packets handled by [on_ble_packet] while another coroutine waits. *)
Fixpoint deliver (self : Bridge) (packets : list (bytes * Q * Z))
    : Bridge * list event :=
  match packets with
  | [] => (self, [])
  | (protobuf_bytes, current_time, now) :: rest =>
      let '(self, ev) := on_ble_packet self protobuf_bytes current_time now in
      let '(self, evs) := deliver self rest in
      (self, ev ++ evs)
  end.

(** Lines 166-179 of [prewarm_cache]: the wait loop.  [waits] counts the
    turns left of the 60 that [waited < max_wait] allows ([max_wait = 30],
    [check_interval = 0.5]); each turn sleeps, and the completion flag is
    looked at after the sleep. *)
Fixpoint prewarm_wait (self : Bridge) (arrivals : list (list (bytes * Q * Z)))
    (waits : nat) : Bridge * list event :=
  match waits with
  | O => (self, [])
  | S waits =>
      let '(self, evs) := deliver self (default [] (head arrivals)) in
      if config_cache_complete self then (self, Sleep (1 # 2) :: evs)
      else
        let '(self, evs') := prewarm_wait self (tail arrivals) waits in
        (self, Sleep (1 # 2) :: evs ++ evs')
  end.

(** [prewarm_cache]: request the configuration and wait for the completion
    marker (or the timeout); every way out clears [recording_config].
    Without a cache, [self.config_cache.clear()] raises on [None] and the
    handler is the way out. *)
Definition prewarm_cache (self : Bridge) (env : attempt_env)
    : Bridge * list event :=
  let config_id := drawn_config_id env in
  match config_cache self with
  | None =>
      let self := set_recording_config self true in
      let self := set_current_config_id self (Some config_id) in
      (set_recording_config self false, [])
  | Some _ =>
      let self := begin_recording self config_id in
      match send_to_ble self (want_config_id config_id) with
      | Raise _ => (set_recording_config self false, [])
      | Ok sent =>
          let '(self, evs) := prewarm_wait self (arrivals env) 60 in
          (set_recording_config self false, sent ++ evs)
      end
  end.

(** [connect_ble], as a whole call (its scans and waits included): on
    success it resets the reconnection state and starts a new
    [poll_from_radio] task (line 277); the task that was polling before,
    if any, is not cancelled. *)
Definition connect_ble (self : Bridge) (ok : bool)
    : result (Bridge * list event) :=
  if ok then
    let self := set_ble_connected self true in
    let self := set_reconnect_attempts self 0 in
    let self := set_is_reconnecting self false in
    Ok (self, [PollTaskStarted])
  else Raise RuntimeError.

(** Lines 296-306 of [attempt_reconnection]: count the attempt and sleep
    its backoff delay. *)
Definition begin_attempt (self : Bridge) : Bridge * list event :=
  let self := set_reconnect_attempts self (reconnect_attempts self + 1) in
  (self, [Sleep (backoff_delay (reconnect_attempts self))]).

(** Lines 308-335: the attempt that follows the sleep.  [Some r] is
    [return r]; [None] is a failed attempt that leaves the loop
    running.  [env k] is the outside world during attempt number [k]. *)
Definition make_attempt (env : Z -> attempt_env) (self : Bridge)
    : option bool * Bridge * list event :=
  let e := env (reconnect_attempts self) in
  (* the old client is dropped before connecting again *)
  let self := set_ble_connected self false in
  match connect_ble self (connect_ok e) with
  | Ok (self, started) =>
      let '(self, evs) :=
        if cache_nodes self then prewarm_cache self e else (self, []) in
      (Some true, set_is_reconnecting self false,
       ConnectBle true :: started ++ evs)
  | Raise _ =>
      if reconnect_attempts self >=? MAX_RECONNECT_ATTEMPTS
      then (Some false, set_is_reconnecting self false, [ConnectBle false])
      else (None, self, [ConnectBle false])
  end.

(** Lines 295-338: the loop of [attempt_reconnection]. *)
Equations? reconnect_loop (env : Z -> attempt_env) (self : Bridge)
    : bool * Bridge * list event
    by wf (Z.to_nat (MAX_RECONNECT_ATTEMPTS - reconnect_attempts self)) lt :=
  reconnect_loop env self
    with inspect ((reconnect_attempts self <? MAX_RECONNECT_ATTEMPTS)
                  && running self) := {
    | exist _ false _ => (false, set_is_reconnecting self false, []);
    | exist _ true Hloop
        with inspect (make_attempt env (begin_attempt self).1) := {
        | exist _ (Some r, self', evs) _ =>
            (r, self', (begin_attempt self).2 ++ evs);
        | exist _ (None, self', evs) Hnext =>
            let '(r, self'', evs') := reconnect_loop env self' in
            (r, self'', (begin_attempt self).2 ++ evs ++ evs') } }.
Proof.
  apply andb_prop in Hloop as [Hlt _]. apply Z.ltb_lt in Hlt.
  unfold make_attempt, begin_attempt in Hnext. cbn [fst] in Hnext.
  destruct (connect_ble _ _) as [[self3 started]|].
  - destruct (if cache_nodes self3 then _ else _). discriminate.
  - destruct (_ >=? _); [discriminate|]. injection Hnext as <- _.
    cbn. unfold MAX_RECONNECT_ATTEMPTS in *. lia.
Qed.

(** [attempt_reconnection] *)
Definition attempt_reconnection (env : Z -> attempt_env) (self : Bridge)
    : bool * Bridge * list event :=
  if is_reconnecting self then (true, self, [])
  else reconnect_loop env (set_is_reconnecting self true).

(** Lines 402-428: one turn of the loop of [poll_from_radio].  [data] is
    what [read_gatt_char] returns when the device is connected.  The result
    carries the exit status when the process exits. *)
Definition poll_from_radio_step (env : Z -> attempt_env) (self : Bridge)
    (data : bytes * Q * Z) : Bridge * list event * option Z :=
  if negb (ble_connected self) then
    let '(reconnected, self, evs) := attempt_reconnection env self in
    if negb reconnected then
      let self := set_running self false in
      (self, evs ++ [SysExit 1], Some 1)
    else (self, evs, None)
  else
    let '(protobuf_bytes, current_time, now) := data in
    if 0 <? len protobuf_bytes then
      let '(self, evs) := on_ble_packet self protobuf_bytes current_time now in
      (self, evs ++ [Sleep (1 # 10)], None)
    else (self, [Sleep (1 # 10)], None).

(** *** The poll tasks under the event loop

    Every successful [connect_ble] starts a [poll_from_radio] task, also
    when it is called by a poll task that is reconnecting, so a program
    can hold several of them.  A task runs, alone, from the point where
    it is suspended to its next [await] that suspends. *)

(** Where a [poll_from_radio] task is suspended. *)
Inductive poll_point :=
| at_loop_head  (* not started yet, or in [read_gatt_char] or in
                   [asyncio.sleep(0.1)]: it goes on to the loop head *)
| in_backoff    (* in [asyncio.sleep(delay)] of [attempt_reconnection] *)
| ended.

(** A poll task resumed towards the loop head, lines 402-428, up to its
    next suspension.  With the device gone and a reconnection in
    progress, [attempt_reconnection] returns [True] having awaited
    nothing, and the loop is at its head again: the task has not been
    suspended, and one unit of [fuel] is spent.  [None] is a run that is
    not suspended within [fuel] turns of the loop. *)
Fixpoint poll_from_loop_head (fuel : nat) (self : Bridge)
    (data : bytes * Q * Z) : option (Bridge * list event * poll_point) :=
  match fuel with
  | O => None
  | S fuel =>
      if negb (running self) then Some (self, [], ended)
      else if negb (ble_connected self) then
        if is_reconnecting self then poll_from_loop_head fuel self data
        else
          let self := set_is_reconnecting self true in
          if (reconnect_attempts self <? MAX_RECONNECT_ATTEMPTS)
             && running self
          then
            let '(self, slept) := begin_attempt self in
            Some (self, slept, in_backoff)
          else
            let self := set_is_reconnecting self false in
            Some (set_running self false, [SysExit 1], ended)
      else
        let '(protobuf_bytes, current_time, now) := data in
        let '(self, evs) :=
          if 0 <? len protobuf_bytes
          then on_ble_packet self protobuf_bytes current_time now
          else (self, []) in
        Some (self, evs ++ [Sleep (1 # 10)], at_loop_head)
  end.

(** A poll task resumed when its backoff sleep is over, lines 308-338 and
    then 410-418. *)
Definition poll_after_backoff (fuel : nat) (env : Z -> attempt_env)
    (self : Bridge) (data : bytes * Q * Z)
    : option (Bridge * list event * poll_point) :=
  match make_attempt env self with
  | (Some true, self, evs) =>
      '(self, evs', point) ← poll_from_loop_head fuel self data;
      Some (self, evs ++ evs', point)
  | (Some false, self, evs) =>
      Some (set_running self false, evs ++ [SysExit 1], ended)
  | (None, self, evs) =>
      if (reconnect_attempts self <? MAX_RECONNECT_ATTEMPTS) && running self
      then
        let '(self, slept) := begin_attempt self in
        Some (self, evs ++ slept, in_backoff)
      else
        let self := set_is_reconnecting self false in
        Some (set_running self false, evs ++ [SysExit 1], ended)
  end.

(** The bridge, its poll tasks, and the exit status once [sys.exit] was
    called. *)
Record Program := mkProgram {
  bridge : Bridge;
  polls : list poll_point;
  exit_status : option Z
}.

(** What happens to the program: the event loop runs poll task number
    [i], which reads [data] if it gets to read, or the device goes
    away. *)
Inductive happening :=
| Resume (i : nat) (data : bytes * Q * Z)
| LinkLost.

Definition started_tasks (evs : list event) : list poll_point :=
  omap (fun e => match e with PollTaskStarted => Some at_loop_head | _ => None end)
    evs.

Definition exit_of (evs : list event) : option Z :=
  head (omap (fun e => match e with SysExit s => Some s | _ => None end) evs).

Definition resume (fuel : nat) (env : Z -> attempt_env) (prog : Program)
    (i : nat) (data : bytes * Q * Z) : option (Program * list event) :=
  let turn :=
    match polls prog !! i with
    | Some at_loop_head => poll_from_loop_head fuel (bridge prog) data
    | Some in_backoff => poll_after_backoff fuel env (bridge prog) data
    | Some ended | None => Some (bridge prog, [], ended)
    end in
  '(self, evs, point) ← turn;
  Some (mkProgram self (<[i := point]> (polls prog) ++ started_tasks evs)
          (exit_of evs),
        evs).

(** The program through a run of happenings; nothing runs once the
    process has exited. *)
Fixpoint run (fuel : nat) (env : Z -> attempt_env) (prog : Program)
    (happenings : list happening) : option (Program * list event) :=
  match happenings with
  | [] => Some (prog, [])
  | h :: happenings =>
      match exit_status prog with
      | Some _ => Some (prog, [])
      | None =>
          '(prog, evs) ←
            match h with
            | Resume i data => resume fuel env prog i data
            | LinkLost =>
                Some (mkProgram (set_ble_connected (bridge prog) false)
                        (polls prog) None, [])
            end;
          '(prog, evs') ← run fuel env prog happenings;
          Some (prog, evs ++ evs')
      end
  end.

End BridgeMethods.

(** ** Vocabulary of the properties

    What the statements below say about a cache and about a run of events,
    in terms of the codec. *)

Section Vocabulary.

Context {pb : Protobuf} {py : PyHash}.

(** The cached payload decodes to a NodeInfo message. *)
Definition is_node_entry (e : entry) : bool :=
  match FromRadio_ParseFromString e.1 with
  | Ok m => HasField_node_info m
  | Raise _ => false
  end.

(** The cached payload decodes to the NodeInfo of node [n]. *)
Definition is_node_for (n : Z) (e : entry) : bool :=
  match FromRadio_ParseFromString e.1 with
  | Ok m => HasField_node_info m && (num (get_node_info m) =? n)
  | Raise _ => false
  end.

(** The cached payload decodes to the completion marker of request [a]. *)
Definition is_completion_of (a : Z) (e : entry) : bool :=
  match FromRadio_ParseFromString e.1 with
  | Ok m => HasField_config_complete_id m && (get_config_complete_id m =? a)
  | Raise _ => false
  end.

(** The cached payload decodes to something that is not a completion
    marker: what the device sends while it answers a request. *)
Definition is_config_item (e : entry) : bool :=
  match FromRadio_ParseFromString e.1 with
  | Ok m => negb (HasField_config_complete_id m)
  | Raise _ => false
  end.

Definition node_entries (cache : list entry) : list entry :=
  List.filter is_node_entry cache.

Definition other_entries (cache : list entry) : list entry :=
  List.filter (fun e => negb (is_node_entry e)) cache.

(** [cache] without its [k] oldest node entries. *)
Fixpoint drop_oldest_nodes (k : nat) (cache : list entry) : list entry :=
  match cache with
  | [] => []
  | e :: rest =>
      match k with
      | O => e :: rest
      | S k' =>
          if is_node_entry e then drop_oldest_nodes k' rest
          else e :: drop_oldest_nodes k rest
      end
  end.

(** Feeding a list of (payload, frame) pairs to the cache bookkeeping. *)
Definition record_all (self : Bridge) (entries : list entry) (now : Z) : Bridge :=
  fold_left (fun self e => cache_packet self e.1 e.2 now) entries self.

(** No entry of [l] is the NodeInfo of node [n]. *)
Definition no_entry_for (n : Z) (l : list entry) : bool :=
  forallb (fun e => negb (is_node_for n e)) l.


(** The node a cached entry describes, if it is a node entry. *)
Definition entry_node (e : entry) : option Z :=
  match FromRadio_ParseFromString e.1 with
  | Ok m => if HasField_node_info m then Some (num (get_node_info m)) else None
  | Raise _ => None
  end.

(** The shape of a complete cache: not being recorded, and ending with the
    completion marker of some request. *)
Definition cache_well_formed (self : Bridge) : Prop :=
  config_cache_complete self = true ->
  recording_config self = false
  /\ exists body t a,
       config_cache self = Some (body ++ [t])
       /\ is_completion_of a t = true.

(** The attributes the cache bookkeeping never assigns. *)
Definition session_of (self : Bridge) :=
  (cache_nodes self, max_cache_nodes self, tcp_clients self,
   last_packet_hash self, last_packet_time self,
   reconnect_attempts self, is_reconnecting self, running self,
   ble_connected self).

(** The connection outcomes, the delays slept and the exit statuses in a
    run of events. *)
Definition connects (evs : list event) : list bool :=
  omap (fun e => match e with ConnectBle ok => Some ok | _ => None end) evs.

Definition sleeps (evs : list event) : list Q :=
  omap (fun e => match e with Sleep d => Some d | _ => None end) evs.

Definition exits (evs : list event) : list Z :=
  omap (fun e => match e with SysExit s => Some s | _ => None end) evs.


(** The events of the [k] failed attempts that follow attempt number [a]:
    for each, the backoff sleep and the connection that is refused. *)
Definition failed_attempts (a : Z) (k : nat) : list event :=
  flat_map (fun j => [Sleep (backoff_delay j); ConnectBle false])
    (seqZ (a + 1) (Z.of_nat k)).

(** The bridge as a successful [connect_ble] leaves it. *)
Definition connected_again (self : Bridge) : Bridge :=
  set_is_reconnecting
    (set_reconnect_attempts (set_ble_connected self true) 0) false.

(** The bridge after attempt number [k] was refused. *)
Definition refused_at (self : Bridge) (k : Z) : Bridge :=
  set_ble_connected (set_reconnect_attempts self k) false.

End Vocabulary.

(** ** A reference implementation of the protobuf interface

    A small self-delimiting wire format for the messages above.  It shows
    that the interface can be implemented, and it is the codec on which the
    concrete examples below are evaluated. *)

Module RefCodec.

Definition parser (A : Type) : Type := bytes -> option (A * bytes).

Fixpoint enc_positive (p : positive) : bytes :=
  match p with
  | xH => [x02]
  | xO q => x00 :: enc_positive q
  | xI q => x01 :: enc_positive q
  end.

Fixpoint dec_positive (l : bytes) : option (positive * bytes) :=
  match l with
  | x02 :: r => Some (xH, r)
  | x00 :: r => '(q, r') ← dec_positive r; Some (xO q, r')
  | x01 :: r => '(q, r') ← dec_positive r; Some (xI q, r')
  | _ => None
  end.

Definition enc_Z (z : Z) : bytes :=
  match z with
  | Z0 => [x00]
  | Zpos p => x01 :: enc_positive p
  | Zneg p => x02 :: enc_positive p
  end.

Definition dec_Z : parser Z := fun l =>
  match l with
  | x00 :: r => Some (Z0, r)
  | x01 :: r => '(p, r') ← dec_positive r; Some (Zpos p, r')
  | x02 :: r => '(p, r') ← dec_positive r; Some (Zneg p, r')
  | _ => None
  end.

Fixpoint enc_bytes (b : bytes) : bytes :=
  match b with
  | [] => [x00]
  | c :: b => x01 :: c :: enc_bytes b
  end.

Fixpoint dec_bytes (l : bytes) : option (bytes * bytes) :=
  match l with
  | x00 :: r => Some ([], r)
  | x01 :: c :: r => '(b, r') ← dec_bytes r; Some (c :: b, r')
  | _ => None
  end.

Definition enc_option {A} (enc : A -> bytes) (o : option A) : bytes :=
  match o with
  | None => [x00]
  | Some a => x01 :: enc a
  end.

Definition dec_option {A} (dec : parser A) : parser (option A) := fun l =>
  match l with
  | x00 :: r => Some (None, r)
  | x01 :: r => '(a, r') ← dec r; Some (Some a, r')
  | _ => None
  end.

Definition enc_NodeInfo (n : NodeInfo) : bytes :=
  enc_Z (num n)
  ++ enc_option (fun u => enc_bytes (user_fields u)) (user n)
  ++ enc_option (fun p => enc_bytes (position_fields p)) (position n)
  ++ enc_option (fun d => enc_bytes (metrics_fields d)) (device_metrics n)
  ++ enc_Z (last_heard n)
  ++ enc_bytes (node_rest n).

Definition dec_blob {A} (mk : bytes -> A) : parser A := fun l =>
  '(b, r) ← dec_bytes l; Some (mk b, r).

Definition dec_NodeInfo : parser NodeInfo := fun l =>
  '(n, l) ← dec_Z l;
  '(u, l) ← dec_option (dec_blob mkUser) l;
  '(p, l) ← dec_option (dec_blob mkPosition) l;
  '(d, l) ← dec_option (dec_blob mkDeviceMetrics) l;
  '(h, l) ← dec_Z l;
  '(r, l) ← dec_bytes l;
  Some (mkNodeInfo n u p d h r, l).

Definition enc_Data (d : Data) : bytes :=
  enc_Z (portnum d) ++ enc_bytes (payload d) ++ enc_bytes (data_rest d).

Definition dec_Data : parser Data := fun l =>
  '(p, l) ← dec_Z l;
  '(b, l) ← dec_bytes l;
  '(r, l) ← dec_bytes l;
  Some (mkData p b r, l).

Definition enc_MeshPacket (p : MeshPacket) : bytes :=
  enc_Z (from_ p) ++ enc_option enc_Data (decoded p)
  ++ enc_bytes (packet_rest p).

Definition dec_MeshPacket : parser MeshPacket := fun l =>
  '(f, l) ← dec_Z l;
  '(d, l) ← dec_option dec_Data l;
  '(r, l) ← dec_bytes l;
  Some (mkMeshPacket f d r, l).

Definition enc_FromRadio (m : FromRadio) : bytes :=
  enc_Z (id m)
  ++ match payload_variant m with
     | no_variant => [x00]
     | packet p => x02 :: enc_MeshPacket p
     | node_info n => x04 :: enc_NodeInfo n
     | config_complete_id i => x07 :: enc_Z i
     | other_variant f raw => x01 :: enc_Z f ++ enc_bytes raw
     end.

Definition dec_FromRadio : parser FromRadio := fun l =>
  '(i, l) ← dec_Z l;
  match l with
  | x00 :: l => Some (mkFromRadio i no_variant, l)
  | x02 :: l => '(p, l) ← dec_MeshPacket l; Some (mkFromRadio i (packet p), l)
  | x04 :: l => '(n, l) ← dec_NodeInfo l; Some (mkFromRadio i (node_info n), l)
  | x07 :: l => '(c, l) ← dec_Z l; Some (mkFromRadio i (config_complete_id c), l)
  | x01 :: l =>
      '(f, l) ← dec_Z l;
      '(raw, l) ← dec_bytes l;
      Some (mkFromRadio i (other_variant f raw), l)
  | _ => None
  end.

Definition enc_ToRadio (m : ToRadio) : bytes :=
  match m with
  | to_no_variant => [x00]
  | want_config_id i => x03 :: enc_Z i
  | to_other_variant f raw => x01 :: enc_Z f ++ enc_bytes raw
  end.

Definition dec_ToRadio : parser ToRadio := fun l =>
  match l with
  | x00 :: l => Some (to_no_variant, l)
  | x03 :: l => '(i, l) ← dec_Z l; Some (want_config_id i, l)
  | x01 :: l =>
      '(f, l) ← dec_Z l;
      '(raw, l) ← dec_bytes l;
      Some (to_other_variant f raw, l)
  | _ => None
  end.

Definition dec_Telemetry : parser Telemetry := fun l =>
  '(d, l) ← dec_option (dec_blob mkDeviceMetrics) l;
  '(r, l) ← dec_bytes l;
  Some (mkTelemetry d r, l).

Definition enc_Telemetry (t : Telemetry) : bytes :=
  enc_option (fun d => enc_bytes (metrics_fields d)) (telemetry_device_metrics t)
  ++ enc_bytes (telemetry_rest t).

(** A message must use up its input. *)
Definition parse_all {A} (dec : parser A) (l : bytes) : result A :=
  match dec l with
  | Some (a, []) => Ok a
  | _ => Raise DecodeError
  end.

(** A polynomial hash standing in for Python's [hash]. *)
Definition poly_hash (b : bytes) : Z :=
  fold_left (fun h c => (h * 31 + Z_of_byte c) mod 2305843009213693951) b 7.

End RefCodec.

#[global] Instance ref_protobuf : Protobuf := {|
  FromRadio_ParseFromString := RefCodec.parse_all RefCodec.dec_FromRadio;
  FromRadio_SerializeToString := RefCodec.enc_FromRadio;
  ToRadio_ParseFromString := RefCodec.parse_all RefCodec.dec_ToRadio;
  ToRadio_SerializeToString := RefCodec.enc_ToRadio;
  Position_ParseFromString := fun b => Ok (mkPosition b);
  Telemetry_ParseFromString := RefCodec.parse_all RefCodec.dec_Telemetry;
  User_ParseFromString := fun b => Ok (mkUser b)
|}.

#[global] Instance ref_hash : PyHash := {| hash := RefCodec.poly_hash |}.

(** ** Concrete bridges and messages on the reference codec *)

Module Examples.

Definition frame_of (p : bytes) : bytes :=
  match Frame.create_tcp_frame p with
  | Ok frame => frame
  | Raise _ => []
  end.

(** The (payload, frame) pair [on_ble_packet] hands to the cache. *)
Definition entry_of (m : FromRadio) : entry :=
  (FromRadio_SerializeToString m,
   frame_of (FromRadio_SerializeToString m)).

Definition node_msg (n : Z) (name : bytes) (heard : Z) : FromRadio :=
  mkFromRadio 0 (node_info (mkNodeInfo n (Some (mkUser name)) None None heard [])).

Definition complete_msg (a : Z) : FromRadio :=
  mkFromRadio 0 (config_complete_id a).

Definition my_info_msg : FromRadio := mkFromRadio 0 (other_variant 3 [x2a]).

Definition position_msg (sender : Z) : FromRadio :=
  mkFromRadio 0 (packet (mkMeshPacket sender (Some (mkData 3 [x0a; x0b] [])) [])).

(** A bridge with caching enabled, right after [prewarm_cache] started
    recording request [a]. *)
Definition recording (cap a : Z) : Bridge :=
  begin_recording (set_running (set_ble_connected (init true cap) true) true) a.

(** The bridge after the device answered request 7 with the given
    messages and the completion marker. *)
Definition completed (cap : Z) (msgs : list FromRadio) : Bridge :=
  record_all (recording cap 7) (entry_of <$> (msgs ++ [complete_msg 7])) 0.

Definition six_hundred_nodes : list entry :=
  (fun k => entry_of (node_msg k [] 0)) <$> seqZ 1 600.

End Examples.
Import Examples.

Module Scenario.

(** A complete cache: one configuration item, node 1, the completion
    marker of request 7. *)
Definition bridge : Bridge := completed 500 [my_info_msg; node_msg 1 [x41] 100].

Definition body : list entry :=
  [entry_of my_info_msg; entry_of (node_msg 1 [x41] 100)].

Definition terminal : entry := entry_of (complete_msg 7).

(** The request of a client, with id 9. *)
Definition request : bytes := ToRadio_SerializeToString (want_config_id 9).

(** The same bridge before any configuration was recorded. *)
Definition cold_bridge : Bridge :=
  set_running (set_ble_connected (init true 500) true) true.

(** A device that never answers a connection attempt, and one that
    answers the third. *)
Definition never (k : Z) : attempt_env := mkAttemptEnv false 0 [].
Definition third (k : Z) : attempt_env := mkAttemptEnv (k =? 3) 11 [].

(** The bridge when the poll loop finds the device gone. *)
Definition lost_bridge : Bridge := set_ble_connected bridge false.

End Scenario.

(** ** More of the BLE bridge *)

Definition set_tcp_clients (self : Bridge) (v : list nat) : Bridge :=
  mkBridge (cache_nodes self) (max_cache_nodes self) v
    (config_cache self) (config_cache_complete self) (recording_config self)
    (current_config_id self) (last_packet_hash self) (last_packet_time self)
    (reconnect_attempts self) (is_reconnecting self) (running self)
    (ble_connected self).

(** [l.remove(x)]: the first occurrence goes. *)
Fixpoint list_remove (x : nat) (l : list nat) : list nat :=
  match l with
  | [] => []
  | y :: l => if (x =? y)%nat then l else y :: list_remove x l
  end.

(** [x in l] *)
Definition list_in (x : nat) (l : list nat) : bool :=
  existsb (fun y => (x =? y)%nat) l.

Section Connections.

Context {pb : Protobuf} {py : PyHash}.

(** Lines 669-675 of [broadcast_to_tcp]: [fails writer] tells whether
    writing to, or draining, that writer raises; such a writer goes to
    [disconnected].  A [TcpWrite] event is a write that went through. *)
Fixpoint broadcast_loop (fails : nat -> bool) (frame : bytes)
    (clients disconnected : list nat) : list event * list nat :=
  match clients with
  | [] => ([], disconnected)
  | writer :: rest =>
      if fails writer
      then broadcast_loop fails frame rest (disconnected ++ [writer])
      else
        let '(evs, disconnected) :=
          broadcast_loop fails frame rest disconnected in
        (TcpWrite writer frame :: evs, disconnected)
  end.

(** [broadcast_to_tcp] with writers that can fail (lines 660-680). *)
Definition broadcast_to_tcp_failing (self : Bridge) (fails : nat -> bool)
    (frame : bytes) : Bridge * list event :=
  match tcp_clients self with
  | [] => (self, [])
  | _ =>
      let '(evs, disconnected) :=
        broadcast_loop fails frame (tcp_clients self) [] in
      (set_tcp_clients self
         (fold_left (fun clients writer => list_remove writer clients)
            disconnected (tcp_clients self)),
       evs)
  end.

(** Line 704: a new connection joins the broadcast list. *)
Definition accept_client (self : Bridge) (writer : nat) : Bridge :=
  set_tcp_clients self (tcp_clients self ++ [writer]).

(** Lines 780-782, the [finally] of [handle_tcp_client]. *)
Definition close_client (self : Bridge) (writer : nat) : Bridge :=
  if list_in writer (tcp_clients self)
  then set_tcp_clients self (list_remove writer (tcp_clients self))
  else self.

(** Lines 711-779: the loop of [handle_tcp_client] on all the bytes the
    client sends before it goes away; the read that finds the stream
    exhausted raises [IncompleteReadError] and ends the loop. *)
Equations? handle_tcp_client_loop (self : Bridge) (writer : nat)
    (stream : bytes) : list event by wf (length stream) lt :=
  handle_tcp_client_loop self writer stream
    with inspect (running self) := {
    | exist _ false _ => [];
    | exist _ true _
        with inspect (handle_tcp_client_step self writer stream) := {
        | exist _ (Raise _) _ => [];
        | exist _ (Ok (self', evs, rest)) Hstep =>
            evs ++ handle_tcp_client_loop self' writer rest } }.
Proof.
  unfold handle_tcp_client_step, Frame.read_tcp_frame, Frame.readexactly in Hstep.
  destruct (4 <=? len stream) eqn:H4; [|discriminate].
  apply Z.leb_le in H4. unfold len in H4.
  cbn [mbind result_bind] in Hstep.
  assert (Hdrop : forall n, (4 <= length stream)%nat ->
            (length (drop n (drop 4 stream)) < length stream)%nat).
  { intros n Hle. rewrite !length_drop. lia. }
  destruct (negb _ || negb _).
  - injection Hstep as _ _ <-. rewrite length_drop. lia.
  - destruct (Frame.unpack_H _) as [length|]; [|discriminate].
    cbn [mbind result_bind] in Hstep.
    destruct (length <=? _); [|discriminate].
    cbn [mbind result_bind] in Hstep.
    destruct (on_client_frame _ _ _). injection Hstep as _ _ <-.
    apply Hdrop. lia.
Qed.

(** [handle_tcp_client]: join, serve until the client goes away, leave. *)
Definition handle_tcp_client (self : Bridge) (writer : nat) (stream : bytes)
    : Bridge * list event :=
  let self := accept_client self writer in
  let evs := handle_tcp_client_loop self writer stream in
  (close_client self writer, evs).

End Connections.

(** ** The serial bridge *)

Module Serial.

Import Frame.

(** [bytes(l)] on a list of integers: each must be in [range(256)]. *)
Fixpoint py_bytes (l : list Z) : result bytes :=
  match l with
  | [] => Ok []
  | x :: l =>
      if (0 <=? x) && (x <? 256)
      then bs ← py_bytes l; Ok (byte_of_Z x :: bs)
      else Raise ValueError
  end.

(** Lines 56-59 of [encode_varint]: the loop and the final append. *)
Equations? encode_varint_loop (value : Z) (result : list Z) : list Z
    by wf (Z.to_nat value) lt :=
  encode_varint_loop value result with inspect (value >? 0x7f) := {
    | exist _ true Hgt =>
        encode_varint_loop (Z.shiftr value 7)
          (result ++ [Z.lor (Z.land value 0x7f) 0x80]);
    | exist _ false _ => result ++ [Z.land value 0x7f] }.
Proof.
  apply Z.gtb_lt in Hgt. rewrite Z.shiftr_div_pow2 by lia.
  change (2 ^ 7) with 128.
  assert (0 <= value / 128 < value); [|lia].
  split; [apply Z.div_pos; lia | apply Z.div_lt; lia].
Qed.

Definition encode_varint (value : Z) : result bytes :=
  py_bytes (encode_varint_loop value []).

(** [build_want_config_packet]; [config_id] is the value drawn by
    [random.randint(0, 0xFFFFFFFF)]. *)
Definition build_want_config_packet (config_id : Z) : result bytes :=
  field_tag ← encode_varint (Z.lor (Z.shiftl 100 3) 0);
  value_bytes ← encode_varint config_id;
  let protobuf_payload := field_tag ++ value_bytes in
  header ← pack_BBH START1 START2 (len protobuf_payload);
  Ok (header ++ protobuf_payload).

(** The attributes of [MeshtasticSerialBridge] the methods below use;
    [serial_open] is [self.serial_conn and self.serial_conn.is_open]. *)
Record SerialBridge := mkSerialBridge {
  tcp_clients : list nat;
  running : bool;
  config_cache : list bytes;
  config_complete : bool;
  config_requested : bool;
  config_start_time : option Q;
  serial_open : bool;
  frame_queue : list bytes
}.

Definition CONFIG_CACHE_DURATION : Q := 10.
Definition FRAME_QUEUE_MAXSIZE : Z := 200.

(** [__init__] *)
Definition init : SerialBridge :=
  mkSerialBridge [] false [] false false None false [].

Definition set_tcp_clients (self : SerialBridge) (v : list nat) :=
  mkSerialBridge v (running self) (config_cache self) (config_complete self)
    (config_requested self) (config_start_time self) (serial_open self)
    (frame_queue self).

Definition set_config_cache (self : SerialBridge) (v : list bytes) :=
  mkSerialBridge (tcp_clients self) (running self) v (config_complete self)
    (config_requested self) (config_start_time self) (serial_open self)
    (frame_queue self).

Definition set_config_complete (self : SerialBridge) (v : bool) :=
  mkSerialBridge (tcp_clients self) (running self) (config_cache self) v
    (config_requested self) (config_start_time self) (serial_open self)
    (frame_queue self).

Definition set_config_requested (self : SerialBridge) (v : bool) :=
  mkSerialBridge (tcp_clients self) (running self) (config_cache self)
    (config_complete self) v (config_start_time self) (serial_open self)
    (frame_queue self).

Definition set_config_start_time (self : SerialBridge) (v : option Q) :=
  mkSerialBridge (tcp_clients self) (running self) (config_cache self)
    (config_complete self) (config_requested self) v (serial_open self)
    (frame_queue self).

Definition set_frame_queue (self : SerialBridge) (v : list bytes) :=
  mkSerialBridge (tcp_clients self) (running self) (config_cache self)
    (config_complete self) (config_requested self) (config_start_time self)
    (serial_open self) v.

(** Lines 350-367 of [broadcast_to_tcp]: the time-window cache.  [clock1]
    and [clock2] are the two readings of [time.time()]. *)
Definition cache_config_packet (self : SerialBridge) (frame : bytes)
    (clock1 clock2 : Q) : SerialBridge :=
  if negb (config_complete self) then
    let self :=
      match config_start_time self with
      | None =>
          let self := set_config_start_time self (Some clock1) in
          set_config_requested self true
      | Some _ => self
      end in
    let elapsed := (clock2 - default 0 (config_start_time self))%Q in
    if Qltb elapsed CONFIG_CACHE_DURATION
    then set_config_cache self (config_cache self ++ [frame])
    else set_config_complete self true
  else self.

(** [broadcast_to_tcp]: cache, then write to every client; a client whose
    write raises is removed. *)
Definition broadcast_to_tcp (self : SerialBridge) (fails : nat -> bool)
    (frame : bytes) (clock1 clock2 : Q) : SerialBridge * list event :=
  let self := cache_config_packet self frame clock1 clock2 in
  match tcp_clients self with
  | [] => (self, [])
  | _ =>
      let '(evs, disconnected) :=
        broadcast_loop fails frame (tcp_clients self) [] in
      (set_tcp_clients self
         (fold_left (fun clients writer => list_remove writer clients)
            disconnected (tcp_clients self)),
       evs)
  end.

(** Lines 253-261 of [_serial_reader_thread]: one frame read from the
    port is put on the queue; [queue.Full] after the timeout drops it. *)
Definition queue_put (self : SerialBridge) (frame : bytes) : SerialBridge :=
  if len (frame_queue self) <? FRAME_QUEUE_MAXSIZE
  then set_frame_queue self (frame_queue self ++ [frame])
  else self.

Definition _serial_reader_step (self : SerialBridge) (stream : bytes)
    : SerialBridge * bytes :=
  let '(frame, stream) := _read_one_frame_blocking stream in
  match frame with
  | Some frame =>
      if 0 <? len frame then (queue_put self frame, stream)
      else (self, stream)
  | None => (self, stream)
  end.

(** Lines 283-290 of [_process_frame_queue]: [get_nowait]. *)
Definition queue_get (self : SerialBridge) : SerialBridge * option bytes :=
  match frame_queue self with
  | [] => (self, None)
  | frame :: rest => (set_frame_queue self rest, Some frame)
  end.

(** What the two threads around the queue do, in the order they do it:
    the reader thread has read [frame] and puts it, or the processor
    takes one frame off the queue for [broadcast_to_tcp]. *)
Inductive queue_action :=
| Put (frame : bytes)
| Get.

Fixpoint run_queue (self : SerialBridge) (schedule : list queue_action)
    : SerialBridge * list bytes :=
  match schedule with
  | [] => (self, [])
  | Put frame :: schedule => run_queue (queue_put self frame) schedule
  | Get :: schedule =>
      let '(self, frame) := queue_get self in
      let '(self, frames) := run_queue self schedule in
      (self, match frame with Some f => f :: frames | None => frames end)
  end.

(** Lines 421-429 of [handle_tcp_client]: replay to a new client. *)
Definition replay_cached (self : SerialBridge) (writer : nat) : list event :=
  if config_complete self && negb (0 =? len (config_cache self))
  then map (TcpWrite writer) (config_cache self)
  else [].

(** Where the loop of [handle_tcp_client] goes next. *)
Inductive client_next :=
| Stop (writes : list bytes)
| Continue (writes : list bytes) (outer : bool) (wake_buffer stream : bytes).

(** Lines 433-484: the loop of [handle_tcp_client] from a loop head to the
    next one.  [outer] tells whether the head is that of [while
    self.running] or that of the inner [while True]; [writes] are the
    writes to the serial port; [Stop] is the exception that ends the
    connection: [IncompleteReadError] from [readexactly], or the
    [RuntimeError] of [send_to_serial]. *)
Definition client_step (self : SerialBridge) (outer : bool)
    (wake_buffer stream : bytes) : client_next :=
  if outer && negb (running self) then Stop []
  else
    match readexactly 1 stream with
    | Raise _ => Stop []
    | Ok (b, stream) =>
        if byte_at b 0 =? START1 then
          let flush := negb (0 =? len wake_buffer) && serial_open self in
          let writes := if flush then [wake_buffer] else [] in
          let wake_buffer := if flush then [] else wake_buffer in
          match readexactly 1 stream with
          | Raise _ => Stop writes
          | Ok (b, stream) =>
              if negb (byte_at b 0 =? START2)
              then Continue writes true wake_buffer stream
              else
                match readexactly 2 stream with
                | Raise _ => Stop writes
                | Ok (length_bytes, stream) =>
                    match unpack_H length_bytes with
                    | Raise _ => Stop writes
                    | Ok length =>
                        if length >? MAX_PACKET_SIZE
                        then Continue writes true wake_buffer stream
                        else
                          match readexactly length stream with
                          | Raise _ => Stop writes
                          | Ok (payload, stream) =>
                              let frame :=
                                [byte_of_Z START1; byte_of_Z START2]
                                ++ length_bytes ++ payload in
                              if serial_open self
                              then Continue (writes ++ [frame]) true
                                     wake_buffer stream
                              else Stop writes
                          end
                    end
                end
          end
        else
          let wake_buffer := wake_buffer ++ b in
          if (32 <=? len wake_buffer) && serial_open self
          then Continue [wake_buffer] false [] stream
          else Continue [] false wake_buffer stream
    end.

Equations? client_loop (self : SerialBridge) (outer : bool)
    (wake_buffer stream : bytes) : list bytes by wf (length stream) lt :=
  client_loop self outer wake_buffer stream
    with inspect (client_step self outer wake_buffer stream) := {
    | exist _ (Stop writes) _ => writes;
    | exist _ (Continue writes outer' wake_buffer' stream') Hstep =>
        writes ++ client_loop self outer' wake_buffer' stream' }.
Proof.
  unfold client_step, readexactly in Hstep.
  destruct (outer && negb (running self)); [discriminate|].
  destruct (1 <=? len stream) eqn:H1; [|discriminate].
  apply Z.leb_le in H1. unfold len in *.
  assert (Hdrop : forall n (l : bytes),
            (length (drop n l) <= length l)%nat).
  { intros n l. rewrite length_drop. lia. }
  assert (H0 : (length (drop (Z.to_nat 1) stream) < length stream)%nat).
  { rewrite length_drop. lia. }
  set (s1 := drop (Z.to_nat 1) stream) in *.
  destruct (byte_at _ 0 =? START1).
  2:{ destruct (_ && _); injection Hstep as _ _ _ <-; exact H0. }
  destruct (1 <=? _); [|discriminate].
  pose proof (Hdrop (Z.to_nat 1) s1) as H2.
  set (s2 := drop (Z.to_nat 1) s1) in *.
  destruct (negb _). { injection Hstep as _ _ _ <-. lia. }
  destruct (2 <=? _); [|discriminate].
  pose proof (Hdrop (Z.to_nat 2) s2) as H3.
  set (s3 := drop (Z.to_nat 2) s2) in *.
  destruct (unpack_H _) as [length|]; [|discriminate].
  destruct (length >? _). { injection Hstep as _ _ _ <-. lia. }
  destruct (length <=? _); [|discriminate].
  pose proof (Hdrop (Z.to_nat length) s3) as H4.
  destruct (serial_open self); [|discriminate].
  injection Hstep as _ _ _ <-. lia.
Qed.

(** [handle_tcp_client]: join, replay, forward until the client goes
    away, leave.  The result is the bridge, what was written to the
    client and what was written to the serial port. *)
Definition handle_tcp_client (self : SerialBridge) (writer : nat)
    (stream : bytes) : SerialBridge * list event * list bytes :=
  let self := set_tcp_clients self (tcp_clients self ++ [writer]) in
  let replayed := replay_cached self writer in
  let writes := client_loop self true [] stream in
  let self :=
    if list_in writer (tcp_clients self)
    then set_tcp_clients self (list_remove writer (tcp_clients self))
    else self in
  (self, replayed, writes).

End Serial.

(** ** Vocabulary of the further properties *)

Section Reachable.

Context {pb : Protobuf} {py : PyHash}.

(** The frame stored with a cached payload is the frame of that payload,
    and the payload decodes. *)
Definition entry_consistent (e : entry) : Prop :=
  Frame.create_tcp_frame e.1 = Ok e.2
  /\ exists m, FromRadio_ParseFromString e.1 = Ok m.

(** The states the BLE bridge goes through: the methods that assign
    attributes, applied in any order to the state [__init__] builds. *)
Inductive reachable : Bridge -> Prop :=
| reachable_init cache_nodes cap :
    reachable (init cache_nodes cap)
| reachable_start self :
    reachable self -> reachable (set_running self true)
| reachable_connect_ble self self' started :
    reachable self -> connect_ble self true = Ok (self', started) ->
    reachable self'
| reachable_disconnected self :
    reachable self -> reachable (set_ble_connected self false)
| reachable_prewarm_cache self env :
    reachable self -> cache_nodes self = true ->
    reachable (prewarm_cache self env).1
| reachable_on_ble_packet self p t now :
    reachable self -> reachable (on_ble_packet self p t now).1
| reachable_poll_from_radio env self data :
    reachable self -> reachable (poll_from_radio_step env self data).1.1
| reachable_broadcast self fails frame :
    reachable self -> reachable (broadcast_to_tcp_failing self fails frame).1
| reachable_accept_client self writer :
    reachable self -> reachable (accept_client self writer)
| reachable_close_client self writer :
    reachable self -> reachable (close_client self writer).

(** The attributes of the config cache. *)
Definition cache_of (self : Bridge) :=
  (config_cache self, config_cache_complete self, recording_config self,
   current_config_id self).

(** What holds of the cache in every state the bridge goes through. *)
Definition cache_invariant (self : Bridge) : Prop :=
  cache_well_formed self
  /\ (config_cache self = None <-> cache_nodes self = false)
  /\ forall cache, config_cache self = Some cache ->
       Forall entry_consistent cache.

End Reachable.

(** The value a protobuf varint stands for: seven bits a byte, least
    significant group first. *)
Fixpoint varint_value (bs : bytes) : Z :=
  match bs with
  | [] => 0
  | b :: bs => Z.land (Z_of_byte b) 0x7f + 128 * varint_value bs
  end.

(** Every byte but the last has its continuation bit set, the last has
    not. *)
Fixpoint varint_terminated (bs : bytes) : bool :=
  match bs with
  | [] => false
  | [b] => Z_of_byte b <? 128
  | b :: bs => (128 <=? Z_of_byte b) && varint_terminated bs
  end.

(** The longest prefix whose elements satisfy [f]. *)
Fixpoint take_while {A} (f : A -> bool) (l : list A) : list A :=
  match l with
  | [] => []
  | x :: l => if f x then x :: take_while f l else []
  end.

(** The serial bridge broadcasting a run of frames, each with its two
    clock readings. *)
Fixpoint broadcast_all (self : Serial.SerialBridge) (fails : nat -> bool)
    (arrivals : list (bytes * Q * Q)) : Serial.SerialBridge * list event :=
  match arrivals with
  | [] => (self, [])
  | (frame, clock1, clock2) :: rest =>
      let '(self, evs) := Serial.broadcast_to_tcp self fails frame clock1 clock2 in
      let '(self, evs') := broadcast_all self fails rest in
      (self, evs ++ evs')
  end.

(** Concrete bridges, frames and runs for the further properties, on the
    reference codec. *)
(** ** The wire format of a configuration request

    [ToRadio.want_config_id] is field 3 of the message, a varint: on the
    wire it is the tag [0x18] and the value, seven bits a byte, least
    significant first, every byte but the last with its top bit set.  The
    parser reads any varint that ends, also one padded with zero digits;
    the serialiser writes the shortest, as [encode_varint] of the serial
    bridge does.  The other messages are kept in the encoding of the
    reference codec, which uses no tag [0x18]. *)

Module WireCodec.

Fixpoint dec_varint (l : bytes) : option (Z * bytes) :=
  match l with
  | [] => None
  | c :: r =>
      if Z_of_byte c <? 128 then Some (Z_of_byte c, r)
      else '(v, r') ← dec_varint r; Some (Z_of_byte c - 128 + 128 * v, r')
  end.

Definition enc_varint (value : Z) : bytes :=
  byte_of_Z <$> Serial.encode_varint_loop value [].

Definition dec_ToRadio (l : bytes) : result ToRadio :=
  match l with
  | x18 :: r =>
      match dec_varint r with
      | Some (v, []) => Ok (want_config_id v)
      | _ => Raise DecodeError
      end
  | _ => RefCodec.parse_all RefCodec.dec_ToRadio l
  end.

Definition enc_ToRadio (m : ToRadio) : bytes :=
  match m with
  | want_config_id i =>
      if 0 <=? i then x18 :: enc_varint i else RefCodec.enc_ToRadio m
  | _ => RefCodec.enc_ToRadio m
  end.

End WireCodec.

Definition wire_protobuf : Protobuf := {|
  FromRadio_ParseFromString := RefCodec.parse_all RefCodec.dec_FromRadio;
  FromRadio_SerializeToString := RefCodec.enc_FromRadio;
  ToRadio_ParseFromString := WireCodec.dec_ToRadio;
  ToRadio_SerializeToString := WireCodec.enc_ToRadio;
  Position_ParseFromString := fun b => Ok (mkPosition b);
  Telemetry_ParseFromString := RefCodec.parse_all RefCodec.dec_Telemetry;
  User_ParseFromString := fun b => Ok (mkUser b)
|}.

Module MoreScenarios.

(** The bridge of [Scenario] with two clients connected. *)
Definition two_clients : Bridge :=
  accept_client (accept_client Scenario.bridge 1%nat) 2%nat.

(** A bridge with caching switched off. *)
Definition uncached : Bridge :=
  set_running (set_ble_connected (init false 500) true) true.

(** The device's own description, one node and the completion marker of
    request 7. *)
Definition three_packets : list (bytes * Q * Z) :=
  [(FromRadio_SerializeToString my_info_msg, 1%Q, 0);
   (FromRadio_SerializeToString (node_msg 1 [x41] 100), 2%Q, 0);
   (FromRadio_SerializeToString (complete_msg 7), 3%Q, 0)].

(** A device that answers request 7 with them during the first wait. *)
Definition answering : attempt_env := mkAttemptEnv true 7 [three_packets].

(** The state [connect_ble] leaves behind on a fresh bridge. *)
Definition connected : Bridge :=
  set_is_reconnecting
    (set_reconnect_attempts (set_ble_connected (init true 500) true) 0) false.

(** A device that comes back at the first attempt and answers nothing,
    and the bridge of [Scenario] with one poll task, as [start] leaves
    it. *)
Definition first (k : Z) : attempt_env := mkAttemptEnv (k =? 1) 11 [].

Definition started : Program := mkProgram Scenario.bridge [at_loop_head] None.





Definition three_entries : list entry :=
  [entry_of my_info_msg; entry_of (node_msg 1 [] 0); entry_of (node_msg 2 [] 0)].

(** A serial bridge that is running, with its port open or closed. *)
Definition serial_open_bridge : Serial.SerialBridge :=
  Serial.mkSerialBridge [] true [] false false None true [].

Definition serial_closed_bridge : Serial.SerialBridge :=
  Serial.mkSerialBridge [] true [] false false None false [].

(** Four frames from the device, at 0 s, 5 s, 11 s and 12 s after the
    first. *)
Definition four_arrivals : list (bytes * Q * Q) :=
  [(frame_of [x02], 105%Q, 105%Q);
   (frame_of [x03], 111%Q, 111%Q);
   (frame_of [x04], 112%Q, 112%Q)].

End MoreScenarios.

(** * Properties *)

(** ** The reference codec implements the interface *)

Module RefCodecLaws.
Import RefCodec.

Lemma dec_enc_positive p r : dec_positive (enc_positive p ++ r) = Some (p, r).
Proof. induction p as [q IH|q IH|]; cbn; rewrite ?IH; reflexivity. Qed.

Lemma dec_enc_Z z r : dec_Z (enc_Z z ++ r) = Some (z, r).
Proof. destruct z; cbn; rewrite ?dec_enc_positive; reflexivity. Qed.

Lemma dec_enc_bytes b r : dec_bytes (enc_bytes b ++ r) = Some (b, r).
Proof. induction b as [|c b IH]; cbn; rewrite ?IH; reflexivity. Qed.

Lemma dec_enc_option {A} (enc : A -> bytes) (dec : parser A) o r :
  (forall a r, dec (enc a ++ r) = Some (a, r)) ->
  dec_option dec (enc_option enc o ++ r) = Some (o, r).
Proof. intros Hrt. destruct o as [a|]; cbn; rewrite ?Hrt; reflexivity. Qed.

Lemma dec_enc_blob {A} (mk : bytes -> A) (get : A -> bytes) a r :
  mk (get a) = a -> dec_blob mk (enc_bytes (get a) ++ r) = Some (a, r).
Proof. intros Hmk. unfold dec_blob. rewrite dec_enc_bytes. cbn. by rewrite Hmk. Qed.

Lemma dec_enc_NodeInfo n r : dec_NodeInfo (enc_NodeInfo n ++ r) = Some (n, r).
Proof.
  destruct n as [n u p d h rest]. unfold dec_NodeInfo, enc_NodeInfo. cbn.
  rewrite <- !app_assoc, dec_enc_Z. cbn.
  rewrite (dec_enc_option _ (dec_blob mkUser));
    [| by intros [?] ?; apply (dec_enc_blob mkUser user_fields)]. cbn.
  rewrite (dec_enc_option _ (dec_blob mkPosition));
    [| by intros [?] ?; apply (dec_enc_blob mkPosition position_fields)]. cbn.
  rewrite (dec_enc_option _ (dec_blob mkDeviceMetrics));
    [| by intros [?] ?; apply (dec_enc_blob mkDeviceMetrics metrics_fields)]. cbn.
  rewrite dec_enc_Z. cbn. rewrite dec_enc_bytes. reflexivity.
Qed.

Lemma dec_enc_Data d r : dec_Data (enc_Data d ++ r) = Some (d, r).
Proof.
  destruct d as [p b rest]. unfold dec_Data, enc_Data. cbn.
  rewrite <- !app_assoc, dec_enc_Z. cbn.
  rewrite dec_enc_bytes. cbn. rewrite dec_enc_bytes. reflexivity.
Qed.

Lemma dec_enc_MeshPacket p r :
  dec_MeshPacket (enc_MeshPacket p ++ r) = Some (p, r).
Proof.
  destruct p as [f d rest]. unfold dec_MeshPacket, enc_MeshPacket. cbn.
  rewrite <- !app_assoc, dec_enc_Z. cbn.
  rewrite (dec_enc_option _ dec_Data); [| apply dec_enc_Data]. cbn.
  rewrite dec_enc_bytes. reflexivity.
Qed.

Lemma dec_enc_FromRadio m r :
  dec_FromRadio (enc_FromRadio m ++ r) = Some (m, r).
Proof.
  destruct m as [i v]. unfold dec_FromRadio, enc_FromRadio. cbn.
  rewrite <- app_assoc, dec_enc_Z. cbn.
  destruct v as [|p|n|c|f raw]; cbn.
  - reflexivity.
  - by rewrite dec_enc_MeshPacket.
  - by rewrite dec_enc_NodeInfo.
  - by rewrite dec_enc_Z.
  - rewrite <- app_assoc, dec_enc_Z. cbn. by rewrite dec_enc_bytes.
Qed.

Lemma dec_enc_ToRadio m r : dec_ToRadio (enc_ToRadio m ++ r) = Some (m, r).
Proof.
  destruct m as [|i|f raw]; cbn.
  - reflexivity.
  - by rewrite dec_enc_Z.
  - rewrite <- app_assoc, dec_enc_Z. cbn. by rewrite dec_enc_bytes.
Qed.

Lemma parse_all_enc {A} (enc : A -> bytes) (dec : parser A) a :
  (forall a r, dec (enc a ++ r) = Some (a, r)) ->
  parse_all dec (enc a) = Ok a.
Proof.
  intros Hrt. unfold parse_all.
  rewrite <- (app_nil_r (enc a)), Hrt. reflexivity.
Qed.

End RefCodecLaws.

#[global] Instance ref_protobuf_laws : ProtobufLaws ref_protobuf.
Proof.
  split; intros m.
  - apply (RefCodecLaws.parse_all_enc _ _ m RefCodecLaws.dec_enc_FromRadio).
  - apply (RefCodecLaws.parse_all_enc _ _ m RefCodecLaws.dec_enc_ToRadio).
Qed.

(** ** Frame codec *)

Section FrameCodec.

Import Frame.

Lemma Z_of_byte_of_Z z : Z_of_byte (byte_of_Z z) = z mod 256.
Proof.
  unfold Z_of_byte, byte_of_Z.
  assert (Hr : 0 <= z mod 256 < 256) by (apply Z.mod_pos_bound; lia).
  destruct (Byte.of_N (Z.to_N (z mod 256))) as [b|] eqn:Hb; cbn.
  - apply Byte.to_of_N in Hb. rewrite Hb. lia.
  - apply Byte.of_N_None_iff in Hb. lia.
Qed.

(** The two length bytes written by [struct.pack('>H')] are read back by
    [struct.unpack('>H')]. *)
Lemma length_bytes_roundtrip n :
  0 <= n < 65536 ->
  unpack_H [byte_of_Z (Z.shiftr n 8); byte_of_Z (Z.land n 255)] = Ok n.
Proof.
  intros Hn. unfold unpack_H. f_equal. rewrite !Z_of_byte_of_Z.
  assert (Hhi : Z.shiftr n 8 mod 256 = Z.shiftr n 8).
  { apply Z.mod_small. rewrite Z.shiftr_div_pow2 by lia.
    split; [apply Z.div_pos; lia | apply Z.div_lt_upper_bound; lia]. }
  assert (Hlo : Z.land n 255 mod 256 = Z.land n 255).
  { apply Z.mod_small. change 255 with (Z.ones 8).
    rewrite Z.land_ones by lia. apply Z.mod_pos_bound. lia. }
  rewrite Hhi, Hlo. change 255 with (Z.ones 8).
  apply Z.bits_inj'. intros i Hi.
  rewrite Z.lor_spec, Z.land_spec, Z.testbit_ones by lia.
  destruct (Z.ltb_spec i 8) as [Hlt|Hge].
  - rewrite Z.shiftl_spec_low by lia.
    replace (0 <=? i) with true by (symmetry; apply Z.leb_le; lia).
    by destruct (Z.testbit n i).
  - rewrite Z.shiftl_spec by lia. rewrite Z.shiftr_spec by lia.
    replace (i - 8 + 8) with i by lia.
    by destruct (Z.testbit n i), (0 <=? i).
Qed.

Lemma create_tcp_frame_fits p :
  len p <= MAX_PACKET_SIZE ->
  create_tcp_frame p =
    Ok ([x94; xc3; byte_of_Z (Z.shiftr (len p) 8);
         byte_of_Z (Z.land (len p) 255)] ++ p).
Proof.
  intros Hlen. unfold create_tcp_frame, MAX_PACKET_SIZE in *.
  destruct (Z.gtb_spec (len p) 512) as [Hgt|_]; [lia|].
  unfold pack_BBH.
  assert (Hnn : 0 <= len p) by (unfold len; lia).
  replace ((0 <=? START1) && (START1 <? 256) && (0 <=? START2)
           && (START2 <? 256) && (0 <=? len p) && (len p <? 65536))
    with true; [reflexivity|].
  symmetry. rewrite !andb_true_iff. repeat split; try reflexivity.
  - apply Z.leb_le; lia.
  - apply Z.ltb_lt; lia.
Qed.

Lemma create_tcp_frame_too_large p :
  MAX_PACKET_SIZE < len p -> create_tcp_frame p = Raise ValueError.
Proof.
  intros Hlen. unfold create_tcp_frame.
  destruct (Z.gtb_spec (len p) MAX_PACKET_SIZE); [reflexivity | lia].
Qed.

Lemma create_tcp_frame_inv p f :
  create_tcp_frame p = Ok f ->
  len p <= MAX_PACKET_SIZE /\ frame_payload f = p /\ len f = 4 + len p.
Proof.
  intros Hf.
  destruct (Z.le_gt_cases (len p) MAX_PACKET_SIZE) as [Hle|Hgt].
  - rewrite create_tcp_frame_fits in Hf by done. inversion Hf; subst.
    split; [done|]. split; [reflexivity|].
    unfold len. cbn [length app]. lia.
  - rewrite create_tcp_frame_too_large in Hf by lia. discriminate.
Qed.

Lemma take_len_app {A} (p rest : list A) : take (Z.to_nat (len p)) (p ++ rest) = p.
Proof. unfold len. rewrite Nat2Z.id. by rewrite take_app_length. Qed.

Lemma drop_len_app {A} (p rest : list A) : drop (Z.to_nat (len p)) (p ++ rest) = rest.
Proof. unfold len. rewrite Nat2Z.id. by rewrite drop_app_length. Qed.

Lemma read_tcp_frame_frame p frame rest :
  create_tcp_frame p = Ok frame ->
  read_tcp_frame (frame ++ rest) = Ok (Some p, rest).
Proof.
  intros Hf. destruct (create_tcp_frame_inv p frame Hf) as (Hle & _ & _).
  rewrite create_tcp_frame_fits in Hf by done. injection Hf as <-.
  assert (Hnn : 0 <= len p) by (unfold len; lia).
  unfold MAX_PACKET_SIZE in Hle.
  assert (Hunpack := length_bytes_roundtrip (len p) ltac:(lia)).
  unfold read_tcp_frame, readexactly.
  replace (4 <=? len (_ ++ rest)) with true.
  2:{ symmetry. apply Z.leb_le. unfold len. cbn [length app]. lia. }
  change (Z.to_nat 4) with 4%nat.
  cbn -[unpack_H Z.shiftr Z.land]. rewrite !take_0, drop_0, Hunpack.
  cbn -[Z.shiftr Z.land Z.to_nat].
  replace (len p <=? len (p ++ rest)) with true.
  2:{ symmetry. apply Z.leb_le. unfold len. rewrite length_app. lia. }
  cbn -[Z.to_nat]. by rewrite take_len_app, drop_len_app.
Qed.

Lemma read_one_frame_blocking_frame p frame rest :
  create_tcp_frame p = Ok frame ->
  _read_one_frame_blocking (frame ++ rest) = (Some frame, rest).
Proof.
  intros Hf. destruct (create_tcp_frame_inv p frame Hf) as (Hle & _ & _).
  rewrite create_tcp_frame_fits in Hf by done. injection Hf as <-.
  assert (Hnn : 0 <= len p) by (unfold len; lia).
  assert (Hunpack := length_bytes_roundtrip (len p)
                       ltac:(unfold MAX_PACKET_SIZE in Hle; lia)).
  unfold _read_one_frame_blocking, serial_read, HEADER_SIZE.
  change (Z.to_nat 4) with 4%nat.
  cbn -[unpack_H Z.shiftr Z.land Z.gtb Z.to_nat].
  rewrite !take_0, drop_0, Hunpack.
  destruct (Z.gtb_spec (len p) MAX_PACKET_SIZE) as [Hgt|_]; [lia|].
  rewrite take_len_app, drop_len_app.
  rewrite (Z.eqb_refl (len p)). reflexivity.
Qed.

(** C9: a payload of at most 512 bytes is framed, and both frame readers
    (the TCP reader of the BLE bridge, which returns the payload, and the
    serial reader, which returns the whole frame) give the payload back;
    a longer payload is refused with [ValueError] (PayloadTooLarge). *)
Theorem frame_roundtrip (p rest : bytes) :
  (0 <= len p <= 512 ->
   exists frame,
     create_tcp_frame p = Ok frame
     /\ read_tcp_frame (frame ++ rest) = Ok (Some p, rest)
     /\ _read_one_frame_blocking (frame ++ rest) = (Some frame, rest)
     /\ frame_payload frame = p)
  /\ (512 < len p -> create_tcp_frame p = Raise ValueError).
Proof.
  split.
  - intros [Hnn Hle].
    pose proof (create_tcp_frame_fits p Hle) as Hf.
    eexists. split; [exact Hf|].
    split; [by apply read_tcp_frame_frame|].
    split; [by apply (read_one_frame_blocking_frame p)|reflexivity].
  - apply create_tcp_frame_too_large.
Qed.

Lemma frame_roundtrip_witness :
  (exists frame,
     create_tcp_frame (replicate 512 x2a) = Ok frame
     /\ read_tcp_frame (frame ++ [x94]) = Ok (Some (replicate 512 x2a), [x94])
     /\ _read_one_frame_blocking (frame ++ [x94]) = (Some frame, [x94])
     /\ frame_payload frame = replicate 512 x2a)
  /\ create_tcp_frame (replicate 513 x2a) = Raise ValueError.
Proof.
  split.
  - apply (proj1 (frame_roundtrip (replicate 512 x2a) [x94])).
    vm_compute. split; discriminate.
  - apply (proj2 (frame_roundtrip (replicate 513 x2a) [])).
    vm_compute. reflexivity.
Defined.

End FrameCodec.

(** ** Config cache *)

Section ConfigCache.

Context {pb : Protobuf} {laws : ProtobufLaws pb} {py : PyHash}.

Lemma count_node_info_spec cache node_count :
  count_node_info cache node_count
  = node_count + Z.of_nat (length (node_entries cache)).
Proof.
  revert node_count. induction cache as [|[proto frame] rest IH]; intros c.
  - cbn. lia.
  - cbn [count_node_info]. rewrite IH. unfold node_entries.
    cbn [List.filter]. unfold is_node_entry at 2. cbn [fst].
    destruct (FromRadio_ParseFromString proto) as [m|]; cbn; [|lia].
    destruct (HasField_node_info m); cbn [length]; lia.
Qed.

Lemma drop_oldest_nodes_0 cache : drop_oldest_nodes 0 cache = cache.
Proof. by destruct cache. Qed.

Lemma evict_loop_spec cache nodes_to_remove new_cache nodes_removed :
  (evict_loop cache nodes_to_remove new_cache nodes_removed).1
  = new_cache
    ++ drop_oldest_nodes (Z.to_nat (nodes_to_remove - nodes_removed)) cache.
Proof.
  revert new_cache nodes_removed.
  induction cache as [|[proto frame] rest IH]; intros acc r.
  - cbn. by rewrite app_nil_r.
  - cbn [evict_loop drop_oldest_nodes]. unfold is_node_entry. cbn [fst].
    destruct (FromRadio_ParseFromString proto) as [m|]; cbn [mbind result_bind try_except].
    + destruct (HasField_node_info m); cbn [andb].
      * destruct (Z.ltb_spec r nodes_to_remove) as [Hlt|Hge].
        -- rewrite IH.
           replace (Z.to_nat (nodes_to_remove - r))
             with (S (Z.to_nat (nodes_to_remove - (r + 1)))) by lia.
           reflexivity.
        -- rewrite IH. replace (Z.to_nat (nodes_to_remove - r)) with O by lia.
           rewrite drop_oldest_nodes_0. by rewrite <- app_assoc.
      * rewrite IH, <- app_assoc.
        destruct (Z.to_nat (nodes_to_remove - r));
          by rewrite ?drop_oldest_nodes_0.
    + rewrite IH, <- app_assoc.
      destruct (Z.to_nat (nodes_to_remove - r));
        by rewrite ?drop_oldest_nodes_0.
Qed.

Lemma node_entries_drop_oldest k cache :
  node_entries (drop_oldest_nodes k cache) = drop k (node_entries cache).
Proof.
  revert k. induction cache as [|e rest IH]; intros k.
  - by destruct k.
  - destruct k as [|k]; [by rewrite drop_oldest_nodes_0|].
    cbn [drop_oldest_nodes]. unfold node_entries in *. cbn [List.filter].
    destruct (is_node_entry e) eqn:He.
    + by rewrite IH.
    + cbn [List.filter]. rewrite He. apply IH.
Qed.

Lemma other_entries_drop_oldest k cache :
  other_entries (drop_oldest_nodes k cache) = other_entries cache.
Proof.
  revert k. induction cache as [|e rest IH]; intros k.
  - by destruct k.
  - destruct k as [|k]; [by rewrite drop_oldest_nodes_0|].
    cbn [drop_oldest_nodes]. unfold other_entries in *. cbn [List.filter].
    destruct (is_node_entry e) eqn:He; cbn [negb].
    + apply IH.
    + cbn [List.filter]. rewrite He. cbn [negb]. by rewrite IH.
Qed.

Lemma drop_oldest_nodes_snoc k body t :
  is_node_entry t = false ->
  drop_oldest_nodes k (body ++ [t]) = drop_oldest_nodes k body ++ [t].
Proof.
  intros Ht. revert k. induction body as [|e rest IH]; intros k.
  - cbn. destruct k; [done|]. by rewrite Ht.
  - destruct k as [|k]; [by rewrite !drop_oldest_nodes_0|].
    cbn [app drop_oldest_nodes]. destruct (is_node_entry e); by rewrite IH.
Qed.

Lemma is_completion_of_inv a e :
  is_completion_of a e = true ->
  exists m, FromRadio_ParseFromString e.1 = Ok m
            /\ payload_variant m = config_complete_id a.
Proof.
  unfold is_completion_of, HasField_config_complete_id, get_config_complete_id.
  destruct (FromRadio_ParseFromString e.1) as [m|]; [|done].
  destruct (payload_variant m) eqn:Hv; try done. cbn.
  intros ->%Z.eqb_eq. eauto.
Qed.

Lemma is_config_item_inv e :
  is_config_item e = true ->
  exists m, FromRadio_ParseFromString e.1 = Ok m
            /\ HasField_config_complete_id m = false.
Proof.
  unfold is_config_item.
  destruct (FromRadio_ParseFromString e.1) as [m|]; [|done].
  intros Hv%negb_true_iff. eauto.
Qed.

Lemma is_completion_not_node a e :
  is_completion_of a e = true -> is_node_entry e = false.
Proof.
  intros (m & Hm & Hv)%is_completion_of_inv.
  unfold is_node_entry, HasField_node_info. by rewrite Hm, Hv.
Qed.

Lemma record_all_app self l1 l2 now :
  record_all self (l1 ++ l2) now = record_all (record_all self l1 now) l2 now.
Proof. unfold record_all. apply fold_left_app. Qed.

Lemma record_all_cons self e l now :
  record_all self (e :: l) now = record_all (cache_packet self e.1 e.2 now) l now.
Proof. reflexivity. Qed.

(** While recording, anything that is not a completion marker is appended. *)
Lemma cache_packet_recording self cache e now :
  config_cache self = Some cache ->
  recording_config self = true ->
  is_config_item e = true ->
  cache_packet self e.1 e.2 now = set_config_cache self (Some (cache ++ [e])).
Proof.
  intros Hc Hr (m & Hm & Hv)%is_config_item_inv. unfold cache_packet.
  rewrite Hc, Hm. cbn. rewrite Hv, Hr. by destruct e.
Qed.

Lemma record_all_recording self cache entries now :
  config_cache self = Some cache ->
  recording_config self = true ->
  forallb is_config_item entries = true ->
  record_all self entries now = set_config_cache self (Some (cache ++ entries)).
Proof.
  intros Hc Hr Hall. revert self cache Hc Hr.
  induction entries as [|e entries IH]; intros self cache Hc Hr.
  - cbn. rewrite app_nil_r. destruct self; cbn in *; by subst.
  - cbn [forallb] in Hall. apply andb_true_iff in Hall as [He Hall].
    cbn [record_all fold_left].
    rewrite (cache_packet_recording self cache e now Hc Hr He).
    fold (record_all (set_config_cache self (Some (cache ++ [e]))) entries now).
    rewrite (IH Hall _ (cache ++ [e])); [|done|done].
    by rewrite <- app_assoc.
Qed.

(** The completion marker of the request being recorded ends the recording
    and evicts the oldest node entries above the cap. *)
Lemma cache_packet_completion self cache t a now :
  config_cache self = Some cache ->
  recording_config self = true ->
  current_config_id self = Some a ->
  is_completion_of a t = true ->
  let n := len (node_entries cache) in
  let self' := cache_packet self t.1 t.2 now in
  config_cache self'
  = Some (drop_oldest_nodes (Z.to_nat (n - max_cache_nodes self)) cache ++ [t])
  /\ config_cache_complete self' = true
  /\ recording_config self' = false.
Proof.
  intros Hc Hr Ha Ht. pose proof (is_completion_not_node a t Ht) as Hnn.
  apply is_completion_of_inv in Ht as (m & Hm & Hv). cbn zeta.
  unfold cache_packet. rewrite Hc, Hm. cbn [mbind result_bind try_except].
  unfold HasField_config_complete_id. rewrite Hv.
  unfold on_config_complete, get_config_complete_id.
  rewrite Hr, Ha, Hv, Z.eqb_refl. cbn [andb].
  rewrite count_node_info_spec. cbn [max_cache_nodes set_recording_config
    set_config_cache_complete set_config_cache].
  assert (Hcount : 0 + Z.of_nat (length (node_entries (cache ++ [(t.1, t.2)])))
                   = len (node_entries cache)).
  { unfold node_entries, len. rewrite List.filter_app, length_app. cbn.
    replace (t.1, t.2) with t by (by destruct t). rewrite Hnn. cbn. lia. }
  rewrite Hcount.
  destruct (Z.gtb_spec (len (node_entries cache)) (max_cache_nodes self))
    as [Hgt|Hle].
  - destruct (evict_loop _ _ _ _) as [new_cache removed] eqn:Hev.
    pose proof (evict_loop_spec (cache ++ [(t.1, t.2)])
      (len (node_entries cache) - max_cache_nodes self) [] 0) as Hspec.
    rewrite Hev in Hspec. cbn [fst app] in Hspec. cbn.
    rewrite Hspec, Z.sub_0_r.
    replace (t.1, t.2) with t by (by destruct t).
    by rewrite drop_oldest_nodes_snoc.
  - cbn. replace (Z.to_nat _) with O by lia.
    rewrite drop_oldest_nodes_0. by destruct t.
Qed.

(** C3 (as amended): with a cap of 500, recording 600 node entries (among
    any other configuration items) and then the completion marker of the
    request leaves a complete cache with exactly 500 node entries, namely
    the 500 recorded last; the other entries and the completion marker are
    kept, and the marker is the last entry. *)
Theorem eviction_bound (self : Bridge) (recorded : list entry)
    (terminal : entry) (a now : Z) :
  config_cache self = Some [] ->
  recording_config self = true ->
  current_config_id self = Some a ->
  max_cache_nodes self = 500 ->
  forallb is_config_item recorded = true ->
  length (node_entries recorded) = 600%nat ->
  is_completion_of a terminal = true ->
  exists cache',
    config_cache (record_all self (recorded ++ [terminal]) now) = Some cache'
    /\ config_cache_complete (record_all self (recorded ++ [terminal]) now) = true
    /\ length (node_entries cache') = 500%nat
    /\ node_entries cache' = drop 100 (node_entries recorded)
    /\ other_entries cache' = other_entries recorded ++ [terminal]
    /\ list.last cache' = Some terminal.
Proof.
  intros Hc Hr Ha Hcap Hitems Hcount Hterm.
  rewrite record_all_app, record_all_cons.
  change (record_all ?s [] now) with s.
  rewrite (record_all_recording self [] recorded now Hc Hr Hitems).
  cbn [app].
  destruct (cache_packet_completion (set_config_cache self (Some recorded))
              recorded terminal a now eq_refl Hr Ha Hterm) as (Hc' & Hdone & _).
  cbn [max_cache_nodes set_config_cache] in Hc'.
  unfold len in Hc'. rewrite Hcount, Hcap in Hc'.
  change (Z.to_nat (Z.of_nat 600 - 500)) with 100%nat in Hc'.
  eexists. split; [exact Hc'|]. split; [exact Hdone|].
  pose proof (is_completion_not_node a terminal Hterm) as Hnn.
  assert (Hnodes : node_entries (drop_oldest_nodes 100 recorded ++ [terminal])
                   = drop 100 (node_entries recorded)).
  { unfold node_entries at 1. rewrite List.filter_app. cbn [List.filter].
    rewrite Hnn, app_nil_r. apply node_entries_drop_oldest. }
  split; [|split; [exact Hnodes|split]].
  - rewrite Hnodes, length_drop, Hcount. reflexivity.
  - unfold other_entries at 1. rewrite List.filter_app. cbn [List.filter].
    rewrite Hnn. cbn [negb]. f_equal. apply other_entries_drop_oldest.
  - apply last_snoc.
Qed.

(** *** Updates after completion *)

Lemma but_last_snoc {A} (body : list A) t : but_last (body ++ [t]) = body.
Proof.
  unfold but_last. rewrite length_app. cbn [length].
  replace (length body + 1 - 1)%nat with (length body) by lia.
  by rewrite take_app_length.
Qed.

Lemma insert_before_last_snoc {A} (x : A) body t :
  insert_before_last x (body ++ [t]) = body ++ [x; t].
Proof.
  unfold insert_before_last. rewrite length_app. cbn [length].
  replace (length body + 1 - 1)%nat with (length body) by lia.
  by rewrite take_app_length, drop_app_length.
Qed.

Lemma insert_middle_snoc {A} (pre post : list A) e new t :
  <[length pre := new]> ((pre ++ e :: post) ++ [t]) = (pre ++ new :: post) ++ [t].
Proof.
  rewrite <- !app_assoc. cbn [app].
  rewrite insert_app_r_alt by lia.
  by replace (length pre - length pre)%nat with O by lia.
Qed.

Lemma set_config_cache_same self cache :
  config_cache self = Some cache -> set_config_cache self (Some cache) = self.
Proof. intros Hc. destruct self; cbn in *; by subst. Qed.

Lemma node_update_loop_absent n new i slice cache :
  no_entry_for n slice = true ->
  node_update_loop n new i slice cache = (cache, false).
Proof.
  revert i. induction slice as [|[proto frame] rest IH]; intros i Hno.
  - reflexivity.
  - cbn [no_entry_for forallb] in Hno.
    apply andb_true_iff in Hno as [He Hrest].
    apply negb_true_iff in He. unfold is_node_for in He. cbn [fst] in He.
    cbn [node_update_loop].
    destruct (FromRadio_ParseFromString proto) as [m|]; [rewrite He|];
      by apply IH.
Qed.

Lemma node_update_loop_found n new i pre e post cache :
  no_entry_for n pre = true ->
  is_node_for n e = true ->
  node_update_loop n new i (pre ++ e :: post) cache
  = (<[(i + length pre)%nat := new]> cache, true).
Proof.
  intros Hpre He. revert i.
  induction pre as [|[proto frame] rest IH]; intros i.
  - cbn [app length node_update_loop]. destruct e as [proto frame].
    unfold is_node_for in He. cbn [fst] in He.
    destruct (FromRadio_ParseFromString proto) as [m|]; [|done].
    rewrite He. by rewrite Nat.add_0_r.
  - cbn [no_entry_for forallb] in Hpre.
    apply andb_true_iff in Hpre as [Hhd Hrest].
    apply negb_true_iff in Hhd. unfold is_node_for in Hhd. cbn [fst] in Hhd.
    cbn [app length node_update_loop].
    replace (i + S (length rest))%nat with (S i + length rest)%nat by lia.
    destruct (FromRadio_ParseFromString proto) as [m|]; [rewrite Hhd|];
      by apply IH.
Qed.

(** An entry of another node, or one that does not parse, is left alone
    by the sub-field update. *)
Lemma refresh_entry_other ut n payload now e :
  is_node_for n e = false ->
  refresh_entry ut n payload now e.1 = Ok None
  \/ exists x, refresh_entry ut n payload now e.1 = Raise x.
Proof.
  unfold is_node_for, refresh_entry.
  destruct (FromRadio_ParseFromString e.1) as [m|x]; cbn; [|eauto].
  intros ->. by left.
Qed.

Lemma packet_update_loop_absent ut n payload now i slice cache :
  no_entry_for n slice = true ->
  packet_update_loop ut n payload now i slice cache = cache.
Proof.
  revert i. induction slice as [|e rest IH]; intros i Hno.
  - reflexivity.
  - cbn [no_entry_for forallb] in Hno.
    apply andb_true_iff in Hno as [He Hrest]. apply negb_true_iff in He.
    destruct e as [proto frame]. cbn [packet_update_loop].
    destruct (refresh_entry_other ut n payload now (proto, frame) He)
      as [Hr|[x Hr]]; cbn [fst] in Hr; rewrite Hr; by apply IH.
Qed.

Lemma packet_update_loop_found ut n payload now i pre e e' post cache :
  no_entry_for n pre = true ->
  refresh_entry ut n payload now e.1 = Ok (Some e') ->
  packet_update_loop ut n payload now i (pre ++ e :: post) cache
  = <[(i + length pre)%nat := e']> cache.
Proof.
  intros Hpre He. revert i.
  induction pre as [|[proto frame] rest IH]; intros i.
  - cbn [app length packet_update_loop]. destruct e as [proto frame].
    cbn [fst] in He. rewrite He. by rewrite Nat.add_0_r.
  - cbn [no_entry_for forallb] in Hpre.
    apply andb_true_iff in Hpre as [Hhd Hrest]. apply negb_true_iff in Hhd.
    cbn [app length packet_update_loop].
    replace (i + S (length rest))%nat with (S i + length rest)%nat by lia.
    destruct (refresh_entry_other ut n payload now (proto, frame) Hhd)
      as [Hr|[x Hr]]; cbn [fst] in Hr; rewrite Hr; by apply IH.
Qed.






(** The branch of [cache_packet] taken by a NodeInfo message once the
    cache is complete. *)
Lemma cache_packet_node_info self cache p f m now :
  config_cache self = Some cache ->
  config_cache_complete self = true ->
  recording_config self = false ->
  FromRadio_ParseFromString p = Ok m ->
  HasField_node_info m = true ->
  cache_packet self p f now
  = set_config_cache self (Some (update_node_info cache m p f)).
Proof.
  intros Hc Hdone Hrec Hm Hn. unfold cache_packet.
  rewrite Hc, Hm. cbn [mbind result_bind try_except].
  rewrite Hrec, Hdone, Hn.
  unfold HasField_node_info in Hn. unfold HasField_config_complete_id.
  by destruct (payload_variant m).
Qed.

(** The branch taken by a mesh packet once the cache is complete. *)
Lemma cache_packet_mesh_packet self cache p f m now :
  config_cache self = Some cache ->
  config_cache_complete self = true ->
  recording_config self = false ->
  FromRadio_ParseFromString p = Ok m ->
  HasField_packet m = true ->
  cache_packet self p f now
  = set_config_cache self (Some (update_from_packet cache m now)).
Proof.
  intros Hc Hdone Hrec Hm Hp. unfold cache_packet.
  rewrite Hc, Hm. cbn [mbind result_bind try_except].
  rewrite Hrec, Hdone, Hp.
  unfold HasField_packet in Hp.
  unfold HasField_config_complete_id, HasField_node_info.
  by destruct (payload_variant m).
Qed.

(** Neither recording nor complete: the cache is not touched. *)
Lemma cache_packet_idle self p f now :
  config_cache_complete self = false ->
  recording_config self = false ->
  cache_packet self p f now = self.
Proof.
  intros Hdone Hrec. unfold cache_packet.
  destruct (config_cache self) as [cache|]; [|done].
  destruct (FromRadio_ParseFromString p) as [m|]; [|done].
  cbn [mbind result_bind try_except].
  unfold on_config_complete. rewrite Hrec, Hdone. cbn [andb].
  by destruct (HasField_config_complete_id m).
Qed.

Lemma update_node_info_found pre e post t m p f :
  no_entry_for (num (get_node_info m)) pre = true ->
  is_node_for (num (get_node_info m)) e = true ->
  update_node_info ((pre ++ e :: post) ++ [t]) m p f
  = (pre ++ (p, f) :: post) ++ [t].
Proof.
  intros Hpre He. unfold update_node_info. rewrite but_last_snoc.
  rewrite (node_update_loop_found _ _ _ pre e post _ Hpre He).
  cbn [negb Nat.add]. apply insert_middle_snoc.
Qed.

Lemma update_node_info_absent body t m p f :
  no_entry_for (num (get_node_info m)) body = true ->
  update_node_info (body ++ [t]) m p f = body ++ [(p, f); t].
Proof.
  intros Hno. unfold update_node_info. rewrite but_last_snoc.
  rewrite (node_update_loop_absent _ _ _ body _ Hno).
  cbn [negb]. apply insert_before_last_snoc.
Qed.

Lemma update_from_packet_found pre e e' post t m pkt d ut now :
  payload_variant m = packet pkt ->
  decoded pkt = Some d ->
  update_type_of (portnum d) = Some ut ->
  from_ pkt <> 0 ->
  no_entry_for (from_ pkt) pre = true ->
  refresh_entry ut (from_ pkt) (payload d) now e.1 = Ok (Some e') ->
  update_from_packet ((pre ++ e :: post) ++ [t]) m now
  = (pre ++ e' :: post) ++ [t].
Proof.
  intros Hv Hd Hut Hfrom Hpre He. unfold update_from_packet, get_packet.
  rewrite Hv, Hd, Hut.
  destruct (Z.eqb_spec (from_ pkt) 0) as [|_]; [done|]. cbn [negb].
  rewrite but_last_snoc.
  rewrite (packet_update_loop_found _ _ _ _ _ pre e e' post _ Hpre He).
  cbn [Nat.add]. apply insert_middle_snoc.
Qed.

(** A mesh packet from node number 0, or from a node without an entry
    among all entries but the last, changes nothing. *)
Lemma update_from_packet_absent cache m now :
  from_ (get_packet m) = 0
  \/ no_entry_for (from_ (get_packet m)) (but_last cache) = true ->
  update_from_packet cache m now = cache.
Proof.
  intros Hcase. unfold update_from_packet.
  destruct (decoded (get_packet m)) as [d|]; [|done].
  destruct (update_type_of (portnum d)) as [ut|]; [|done].
  destruct (Z.eqb_spec (from_ (get_packet m)) 0) as [|Hne]; [done|].
  cbn [negb]. destruct Hcase as [|Hno]; [done|].
  by apply packet_update_loop_absent.
Qed.

Lemma no_entry_for_app n l1 l2 :
  no_entry_for n (l1 ++ l2) = no_entry_for n l1 && no_entry_for n l2.
Proof. unfold no_entry_for. apply forallb_app. Qed.

Lemma no_entry_for_but_last n cache :
  no_entry_for n cache = true -> no_entry_for n (but_last cache) = true.
Proof.
  unfold but_last. intros Hno.
  rewrite <- (take_drop (length cache - 1) cache), no_entry_for_app in Hno.
  by apply andb_true_iff in Hno as [? _].
Qed.





Lemma apply_update_num ut payload n n' :
  apply_update ut payload n = Ok n' -> num n' = num n.
Proof.
  destruct ut; cbn.
  - destruct (Position_ParseFromString payload); cbn; [|done].
    by intros [= <-].
  - destruct (Telemetry_ParseFromString payload) as [tm|]; cbn; [|done].
    intros [= <-]. by destruct (telemetry_device_metrics tm).
  - destruct (User_ParseFromString payload); cbn; [|done].
    by intros [= <-].
Qed.

(** A successful sub-field update rewrites an entry of node [n] into an
    entry of node [n]. *)
Lemma refresh_entry_node ut n payload now e e' :
  refresh_entry ut n payload now e.1 = Ok (Some e') ->
  entry_node e = Some n /\ entry_node e' = Some n.
Proof.
  unfold refresh_entry, entry_node.
  destruct (FromRadio_ParseFromString e.1) as [m|]; cbn [mbind result_bind];
    [|done].
  destruct (HasField_node_info m) eqn:Hn; cbn [andb]; [|done].
  destruct (Z.eqb_spec (num (get_node_info m)) n) as [Hnum|]; [|done].
  destruct (apply_update ut payload (get_node_info m)) as [node|] eqn:Hup;
    cbn [mbind result_bind]; [|done].
  unfold assign_last_heard. destruct (_ && _); cbn [mbind result_bind];
    [|done].
  destruct (Frame.create_tcp_frame _) as [frame|]; cbn [mbind result_bind];
    [|done].
  intros [= <-]. cbn [fst]. rewrite FromRadio_parse_serialize.
  split; [by rewrite Hnum|]. cbn.
  apply apply_update_num in Hup. by rewrite Hup, Hnum.
Qed.

Lemma packet_update_loop_cases ut n payload now i slice cache :
  packet_update_loop ut n payload now i slice cache = cache
  \/ exists k e e',
       slice !! k = Some e
       /\ refresh_entry ut n payload now e.1 = Ok (Some e')
       /\ packet_update_loop ut n payload now i slice cache
          = <[(i + k)%nat := e']> cache.
Proof.
  revert i. induction slice as [|[proto frame] rest IH]; intros i.
  - by left.
  - cbn [packet_update_loop].
    destruct (refresh_entry ut n payload now proto) as [[e'|]|x] eqn:Hr.
    + right. exists O, (proto, frame), e'. by rewrite Nat.add_0_r.
    + destruct (IH (S i)) as [->|(k & e & e' & Hk & He & ->)]; [by left|].
      right. exists (S k), e, e'.
      by replace (i + S k)%nat with (S i + k)%nat by lia.
    + destruct (IH (S i)) as [->|(k & e & e' & Hk & He & ->)]; [by left|].
      right. exists (S k), e, e'.
      by replace (i + S k)%nat with (S i + k)%nat by lia.
Qed.

(** A mesh packet rewrites at most one entry before the last, and that
    entry stays an entry of the same node. *)
Lemma update_from_packet_shape body t m now :
  exists body',
    update_from_packet (body ++ [t]) m now = body' ++ [t]
    /\ entry_node <$> body' = entry_node <$> body.
Proof.
  unfold update_from_packet.
  destruct (decoded (get_packet m)) as [d|]; [|by exists body].
  destruct (update_type_of (portnum d)) as [ut|]; [|by exists body].
  destruct (negb (from_ (get_packet m) =? 0)); [|by exists body].
  rewrite but_last_snoc.
  destruct (packet_update_loop_cases ut (from_ (get_packet m)) (payload d)
              now 0 body (body ++ [t])) as [->|(k & e & e' & Hk & He & ->)];
    [by exists body|].
  exists (<[k := e']> body). cbn [Nat.add].
  pose proof (lookup_lt_Some _ _ _ Hk) as Hlt.
  split; [by rewrite insert_app_l|].
  apply refresh_entry_node in He as [He He'].
  rewrite list_fmap_insert. apply list_insert_id.
  apply list_lookup_fmap_Some. exists e. split; [by rewrite He, He'|done].
Qed.

Lemma first_entry_split n body :
  no_entry_for n body = true
  \/ exists pre e post,
       body = pre ++ e :: post
       /\ no_entry_for n pre = true /\ is_node_for n e = true.
Proof.
  induction body as [|e rest IH]; [by left|].
  destruct (is_node_for n e) eqn:He.
  - right. by exists [], e, rest.
  - destruct IH as [Hno|(pre & e' & post & -> & Hpre & He')].
    + left. cbn. by rewrite He.
    + right. exists (e :: pre), e', post. cbn. by rewrite He.
Qed.

Lemma no_entry_for_filter n l :
  no_entry_for n l = true -> List.filter (is_node_for n) l = [].
Proof.
  induction l as [|e rest IH]; [done|]. cbn.
  intros [He Hrest]%andb_true_iff. apply negb_true_iff in He.
  rewrite He. by apply IH.
Qed.

(** Once the cache is complete, no message moves or replaces its last
    entry: whatever arrives, the cache is again some body followed by the
    same last entry, still complete and not recording. *)
Lemma complete_cache_keeps_terminal self body t p f now :
  config_cache self = Some (body ++ [t]) ->
  config_cache_complete self = true ->
  recording_config self = false ->
  exists body',
    config_cache (cache_packet self p f now) = Some (body' ++ [t])
    /\ config_cache_complete (cache_packet self p f now) = true
    /\ recording_config (cache_packet self p f now) = false.
Proof.
  intros Hc Hdone Hrec.
  destruct (FromRadio_ParseFromString p) as [m|x] eqn:Hm.
  2:{ exists body. unfold cache_packet. by rewrite Hc, Hm. }
  destruct (HasField_node_info m) eqn:Hn.
  - rewrite (cache_packet_node_info self _ p f m now Hc Hdone Hrec Hm Hn).
    cbn [config_cache config_cache_complete recording_config set_config_cache].
    destruct (first_entry_split (num (get_node_info m)) body)
      as [Hno|(pre & e & post & -> & Hpre & He)].
    + exists (body ++ [(p, f)]). rewrite update_node_info_absent by done.
      by rewrite <- app_assoc.
    + exists (pre ++ (p, f) :: post).
      by rewrite update_node_info_found.
  - destruct (HasField_packet m) eqn:Hp.
    + rewrite (cache_packet_mesh_packet self _ p f m now Hc Hdone Hrec Hm Hp).
      cbn [config_cache config_cache_complete recording_config set_config_cache].
      destruct (update_from_packet_shape body t m now) as (body' & -> & Hnodes).
      by exists body'.
    + exists body. unfold cache_packet. rewrite Hc, Hm.
      cbn [mbind result_bind try_except].
      unfold on_config_complete. rewrite Hrec, Hdone, Hn, Hp. cbn [andb].
      by destruct (HasField_config_complete_id m).
Qed.

(** How a message that is not a NodeInfo leaves a complete cache. *)
Lemma cache_packet_other self cache p f m now :
  config_cache self = Some cache ->
  config_cache_complete self = true ->
  recording_config self = false ->
  FromRadio_ParseFromString p = Ok m ->
  HasField_node_info m = false ->
  cache_packet self p f now
  = if HasField_packet m
    then set_config_cache self (Some (update_from_packet cache m now))
    else self.
Proof.
  intros Hc Hdone Hrec Hm Hn.
  destruct (HasField_packet m) eqn:Hp.
  - by apply cache_packet_mesh_packet.
  - unfold cache_packet. rewrite Hc, Hm.
    cbn [mbind result_bind try_except].
    unfold on_config_complete. rewrite Hrec, Hdone, Hn, Hp. cbn [andb].
    by destruct (HasField_config_complete_id m).
Qed.

Lemma update_from_packet_nodes cache m now :
  length (update_from_packet cache m now) = length cache
  /\ entry_node <$> update_from_packet cache m now = entry_node <$> cache.
Proof.
  destruct cache as [|t body _] using rev_ind.
  - unfold update_from_packet.
    destruct (decoded (get_packet m)) as [d|]; [|done].
    destruct (update_type_of (portnum d)) as [ut|]; [|done].
    by destruct (negb (from_ (get_packet m) =? 0)).
  - destruct (update_from_packet_shape body t m now) as (body' & -> & Hnodes).
    rewrite !fmap_app, Hnodes. split; [|done].
    rewrite !length_app.
    by rewrite <- (length_fmap entry_node body'), Hnodes, length_fmap.
Qed.

(** C10: once the cache is complete, a mesh packet whose sender is node
    number 0, or whose sender has no node entry in the cache, leaves the
    bridge state (so the cache) exactly as it was; and any message that is
    not a NodeInfo leaves the cache with as many entries as before, each
    describing the node it described before, so only a NodeInfo message can
    add a node entry. *)
Theorem packet_without_entry_ignored (self : Bridge) (cache : list entry)
    (p f : bytes) (m : FromRadio) (now : Z) :
  config_cache self = Some cache ->
  config_cache_complete self = true ->
  recording_config self = false ->
  FromRadio_ParseFromString p = Ok m ->
  (HasField_packet m = true ->
   from_ (get_packet m) = 0
   \/ no_entry_for (from_ (get_packet m)) cache = true ->
   cache_packet self p f now = self)
  /\ (HasField_node_info m = false ->
      exists cache',
        config_cache (cache_packet self p f now) = Some cache'
        /\ length cache' = length cache
        /\ entry_node <$> cache' = entry_node <$> cache).
Proof.
  intros Hc Hdone Hrec Hm. split.
  - intros Hp Hcase.
    rewrite (cache_packet_mesh_packet self _ p f m now Hc Hdone Hrec Hm Hp).
    rewrite update_from_packet_absent; [by apply set_config_cache_same|].
    destruct Hcase as [?|Hno]; [by left|right].
    by apply no_entry_for_but_last.
  - intros Hn.
    rewrite (cache_packet_other self cache p f m now Hc Hdone Hrec Hm Hn).
    destruct (HasField_packet m).
    + eexists. split; [reflexivity|]. apply update_from_packet_nodes.
    + by exists cache.
Qed.

(** A cache that is not complete becomes complete only through the
    completion marker of the request being recorded. *)
Lemma cache_packet_stays_incomplete self p f now :
  config_cache_complete self = false ->
  config_cache_complete (cache_packet self p f now) = true ->
  exists cache a,
    config_cache self = Some cache
    /\ recording_config self = true
    /\ current_config_id self = Some a
    /\ is_completion_of a (p, f) = true.
Proof.
  intros Hdone. unfold cache_packet, is_completion_of. cbn [fst].
  destruct (config_cache self) as [cache|]; [|by rewrite Hdone].
  destruct (FromRadio_ParseFromString p) as [m|];
    cbn [mbind result_bind try_except]; [|by rewrite Hdone].
  unfold on_config_complete.
  destruct (HasField_config_complete_id m).
  - destruct (recording_config self); cbn [andb]; [|by rewrite Hdone].
    destruct (current_config_id self) as [a|]; [|by rewrite Hdone].
    destruct (get_config_complete_id m =? a) eqn:Ha; [|by rewrite Hdone].
    intros _. by exists cache, a.
  - rewrite Hdone. cbn [andb].
    destruct (recording_config self); cbn; by rewrite Hdone.
Qed.

(** Every way the cache is written keeps a complete cache well formed, so
    the hypotheses of the statements about complete caches hold whenever the
    cache is complete. *)
Lemma cache_packet_well_formed self p f now :
  cache_well_formed self -> cache_well_formed (cache_packet self p f now).
Proof.
  intros Hwf Hdone'.
  destruct (config_cache_complete self) eqn:Hdone.
  - destruct (Hwf Hdone) as (Hrec & body & t & a & Hc & Ht).
    destruct (complete_cache_keeps_terminal self body t p f now Hc Hdone Hrec)
      as (body' & Hc' & _ & Hrec').
    split; [done|]. by exists body', t, a.
  - destruct (cache_packet_stays_incomplete self p f now Hdone Hdone')
      as (cache & a & Hc & Hrec & Ha & Ht).
    destruct (cache_packet_completion self cache (p, f) a now Hc Hrec Ha Ht)
      as (Hc' & _ & Hrec').
    cbn [fst snd] in Hc', Hrec'. split; [done|]. by eexists _, (p, f), a.
Qed.

Lemma init_well_formed cache_nodes cap : cache_well_formed (init cache_nodes cap).
Proof. intros Hdone. discriminate. Qed.

Lemma begin_recording_well_formed self a :
  cache_well_formed (begin_recording self a).
Proof. intros Hdone. discriminate. Qed.

(** C5 (as amended): applying the same NodeInfo update a second time to a
    complete cache changes nothing.  After the update the cache is some body
    followed by the same last entry; the body holds the update, and when the
    body held at most one entry of that node before, it now holds exactly
    one, equal to the update.  The last entry stays last under every message
    handled after completion. *)
Theorem node_merge_idempotent (self : Bridge) (body : list entry) (t : entry)
    (p f : bytes) (m : FromRadio) (now now' : Z) :
  config_cache self = Some (body ++ [t]) ->
  config_cache_complete self = true ->
  recording_config self = false ->
  FromRadio_ParseFromString p = Ok m ->
  HasField_node_info m = true ->
  let n := num (get_node_info m) in
  let once := cache_packet self p f now in
  cache_packet once p f now' = once
  /\ (exists body',
        config_cache once = Some (body' ++ [t])
        /\ In (p, f) body'
        /\ ((length (List.filter (is_node_for n) body) <= 1)%nat ->
            List.filter (is_node_for n) body' = [(p, f)]))
  /\ (forall p' f' now'',
        exists body'',
          config_cache (cache_packet once p' f' now'') = Some (body'' ++ [t])).
Proof.
  intros Hc Hdone Hrec Hm Hn n once.
  assert (Hself : is_node_for n (p, f) = true).
  { unfold is_node_for. cbn [fst]. by rewrite Hm, Hn, Z.eqb_refl. }
  assert (Honce : once = set_config_cache self
                    (Some (update_node_info (body ++ [t]) m p f)))
    by apply (cache_packet_node_info self _ p f m now Hc Hdone Hrec Hm Hn).
  assert (Hshape : exists body',
             update_node_info (body ++ [t]) m p f = body' ++ [t]
             /\ update_node_info (body' ++ [t]) m p f = body' ++ [t]
             /\ In (p, f) body'
             /\ ((length (List.filter (is_node_for n) body) <= 1)%nat ->
                 List.filter (is_node_for n) body' = [(p, f)])).
  { destruct (first_entry_split n body)
      as [Hno|(pre & e & post & -> & Hpre & He)].
    - exists (body ++ [(p, f)]).
      rewrite update_node_info_absent by done.
      split; [by rewrite <- app_assoc|]. split; [|split].
      + replace (body ++ [(p, f)]) with (body ++ (p, f) :: []) by done.
        by rewrite update_node_info_found.
      + apply in_or_app. right. by left.
      + intros _. rewrite List.filter_app, (no_entry_for_filter n body Hno).
        cbn. by rewrite Hself.
    - exists (pre ++ (p, f) :: post).
      rewrite !update_node_info_found by done.
      split; [done|]. split; [done|]. split.
      + apply in_or_app. right. by left.
      + rewrite !List.filter_app, !(no_entry_for_filter n pre Hpre).
        cbn [app List.filter]. rewrite He, Hself. cbn [length].
        intros Hle. destruct (List.filter (is_node_for n) post); [done|].
        cbn in Hle. lia. }
  destruct Hshape as (body' & Hupd & Hagain & Hin & Hone).
  assert (Hc1 : config_cache once = Some (body' ++ [t]))
    by (rewrite Honce; cbn; by rewrite Hupd).
  assert (Hdone1 : config_cache_complete once = true) by by rewrite Honce.
  assert (Hrec1 : recording_config once = false) by by rewrite Honce.
  split; [|split].
  - rewrite (cache_packet_node_info once _ p f m now' Hc1 Hdone1 Hrec1 Hm Hn).
    rewrite Hagain. by apply set_config_cache_same.
  - by exists body'.
  - intros p' f' now''.
    destruct (complete_cache_keeps_terminal once body' t p' f' now''
                Hc1 Hdone1 Hrec1) as (body'' & Hc'' & _).
    by exists body''.
Qed.

End ConfigCache.

(** ** Serving a configuration request from the cache *)

Section Replay.

Context {pb : Protobuf} {laws : ProtobufLaws pb} {py : PyHash}.

(** All entries but the last are written as cached; the last is written
    re-encoded, or, when that fails, not at all. *)
Lemma replay_loop_spec n requested_id i body t :
  i + len body = n - 1 ->
  replay_loop n requested_id i (body ++ [t])
  = body.*2
    ++ match replay_entry n requested_id (n - 1) t with
       | Ok frame => [frame]
       | Raise _ => []
       end.
Proof.
  revert i. induction body as [|[proto frame] rest IH]; intros i Hi.
  - unfold len in Hi. cbn in Hi. replace i with (n - 1) by lia. cbn.
    by destruct (replay_entry n requested_id (n - 1) t).
  - cbn [app replay_loop]. unfold replay_entry at 1.
    unfold len in Hi. cbn [length] in Hi.
    destruct (Z.eqb_spec i (n - 1)) as [|_]; [lia|].
    cbn [fmap list_fmap snd app]. f_equal.
    apply IH. unfold len. lia.
Qed.

Lemma replay_snoc body t requested_id :
  replay (body ++ [t]) requested_id
  = body.*2
    ++ match replay_entry (len (body ++ [t])) requested_id
               (len (body ++ [t]) - 1) t with
       | Ok frame => [frame]
       | Raise _ => []
       end.
Proof.
  unfold replay. apply replay_loop_spec.
  unfold len. rewrite length_app. cbn [length]. lia.
Qed.

(** The replay when the rewritten completion marker fits a frame. *)
Lemma replay_complete body tp tf m requested_id frame :
  FromRadio_ParseFromString tp = Ok m ->
  Frame.create_tcp_frame
    (FromRadio_SerializeToString (set_config_complete_id m requested_id))
  = Ok frame ->
  replay (body ++ [(tp, tf)]) requested_id = body.*2 ++ [frame].
Proof.
  intros Hm Hf. rewrite replay_snoc. unfold replay_entry.
  rewrite Z.eqb_refl, Hm. cbn [mbind result_bind]. by rewrite Hf.
Qed.


Lemma set_config_complete_id_same m a :
  payload_variant m = config_complete_id a -> set_config_complete_id m a = m.
Proof. destruct m as [i v]. cbn. by intros ->. Qed.

Lemma on_client_frame_served self cache writer request b :
  ToRadio_ParseFromString request = Ok (want_config_id b) ->
  config_cache self = Some cache ->
  config_cache_complete self = true ->
  on_client_frame self writer request
  = (self, TcpWrite writer <$> replay cache b).
Proof.
  intros Hreq Hc Hdone. unfold on_client_frame.
  by rewrite Hreq, Hc, Hdone.
Qed.


Lemma handle_tcp_client_step_frame self writer request frame rest :
  Frame.create_tcp_frame request = Ok frame ->
  handle_tcp_client_step self writer (frame ++ rest)
  = Ok (on_client_frame self writer request, rest).
Proof.
  intros Hf. unfold handle_tcp_client_step.
  rewrite (read_tcp_frame_frame request frame rest Hf).
  cbn [mbind result_bind]. by destruct (on_client_frame self writer request).
Qed.

(** C1: a complete cache recorded under request id [a] is served, for a
    request with id [b], as the cached frames of all entries but the last in
    cache order, followed by the last entry decoded, given the completion id
    [b], serialised and framed again.  Serving leaves the bridge, and so the
    cache, as it was; serving for [a] gives the same frames except the last,
    whose payload decodes to the recorded marker, while the last frame for
    [b] decodes to that marker with completion id [b]. *)
Theorem replay_substitution (self : Bridge) (body : list entry)
    (tp tf : bytes) (m : FromRadio) (a b : Z) (writer : nat)
    (request frame_a frame_b : bytes) :
  config_cache self = Some (body ++ [(tp, tf)]) ->
  config_cache_complete self = true ->
  FromRadio_ParseFromString tp = Ok m ->
  payload_variant m = config_complete_id a ->
  ToRadio_ParseFromString request = Ok (want_config_id b) ->
  Frame.create_tcp_frame
    (FromRadio_SerializeToString (set_config_complete_id m b)) = Ok frame_b ->
  Frame.create_tcp_frame
    (FromRadio_SerializeToString (set_config_complete_id m a)) = Ok frame_a ->
  on_client_frame self writer request
  = (self, TcpWrite writer <$> (body.*2 ++ [frame_b]))
  /\ replay (body ++ [(tp, tf)]) b = body.*2 ++ [frame_b]
  /\ replay (body ++ [(tp, tf)]) a = body.*2 ++ [frame_a]
  /\ FromRadio_ParseFromString (Frame.frame_payload frame_b)
     = Ok (set_config_complete_id m b)
  /\ get_config_complete_id (set_config_complete_id m b) = b
  /\ FromRadio_ParseFromString (Frame.frame_payload frame_a) = Ok m.
Proof.
  intros Hc Hdone Hm Hv Hreq Hfb Hfa.
  pose proof (replay_complete body tp tf m b frame_b Hm Hfb) as Hb.
  pose proof (replay_complete body tp tf m a frame_a Hm Hfa) as Ha.
  split; [|split; [exact Hb|split; [exact Ha|]]].
  - rewrite (on_client_frame_served self _ writer request b Hreq Hc Hdone).
    f_equal. f_equal. exact Hb.
  - destruct (create_tcp_frame_inv _ _ Hfb) as (_ & -> & _).
    destruct (create_tcp_frame_inv _ _ Hfa) as (_ & -> & _).
    rewrite !FromRadio_parse_serialize.
    by rewrite (set_config_complete_id_same m a Hv).
Qed.


End Replay.

(** ** Duplicate suppression and reconnection *)

Section Session.

Context {pb : Protobuf} {laws : ProtobufLaws pb} {py : PyHash}.

Lemma sleeps_Sleep d evs : sleeps (Sleep d :: evs) = d :: sleeps evs.
Proof. reflexivity. Qed.

Lemma sleeps_ConnectBle ok evs : sleeps (ConnectBle ok :: evs) = sleeps evs.
Proof. reflexivity. Qed.

Lemma connects_Sleep d evs : connects (Sleep d :: evs) = connects evs.
Proof. reflexivity. Qed.

Lemma connects_ConnectBle ok evs :
  connects (ConnectBle ok :: evs) = ok :: connects evs.
Proof. reflexivity. Qed.


Lemma exits_ConnectBle ok evs : exits (ConnectBle ok :: evs) = exits evs.
Proof. reflexivity. Qed.

Lemma connects_app evs1 evs2 :
  connects (evs1 ++ evs2) = connects evs1 ++ connects evs2.
Proof. apply omap_app. Qed.




Lemma cache_packet_session self p f now :
  session_of (cache_packet self p f now) = session_of self.
Proof.
  unfold cache_packet.
  destruct (config_cache self) as [cache|]; [|done].
  destruct (FromRadio_ParseFromString p) as [m|]; [|done].
  cbn [mbind result_bind try_except]. unfold on_config_complete.
  repeat case_match; done.
Qed.



(** A packet that passes the duplicate check and fits a frame is broadcast
    to every client and becomes the last delivered packet. *)
Lemma on_ble_packet_delivered self p t now frame :
  is_duplicate self (hash p) t = false ->
  Frame.create_tcp_frame p = Ok frame ->
  (on_ble_packet self p t now).2 = broadcast_to_tcp self frame
  /\ session_of (on_ble_packet self p t now).1
     = session_of (set_last_packet self (Some (hash p)) t).
Proof.
  intros Hdup Hf. unfold on_ble_packet. rewrite Hdup, Hf. cbn [fst snd].
  pose proof (cache_packet_session (set_last_packet self (Some (hash p)) t)
                p frame now) as Hs.
  split; [|exact Hs].
  unfold broadcast_to_tcp. f_equal.
  unfold session_of in Hs. by injection Hs.
Qed.

Lemma on_ble_packet_session self p t now :
  let self' := (on_ble_packet self p t now).1 in
  cache_nodes self' = cache_nodes self
  /\ reconnect_attempts self' = reconnect_attempts self
  /\ is_reconnecting self' = is_reconnecting self
  /\ running self' = running self
  /\ ble_connected self' = ble_connected self.
Proof.
  unfold on_ble_packet.
  destruct (is_duplicate self (hash p) t); [done|].
  destruct (Frame.create_tcp_frame p) as [frame|]; [|done].
  cbn [fst].
  pose proof (cache_packet_session (set_last_packet self (Some (hash p)) t)
                p frame now) as Hs.
  unfold session_of in Hs. by injection Hs.
Qed.




(** *** Reconnection *)

Lemma deliver_session self packets :
  let self' := (deliver self packets).1 in
  cache_nodes self' = cache_nodes self
  /\ reconnect_attempts self' = reconnect_attempts self
  /\ is_reconnecting self' = is_reconnecting self
  /\ running self' = running self
  /\ ble_connected self' = ble_connected self.
Proof.
  revert self. induction packets as [|[[p t] now] rest IH]; intros self; [done|].
  cbn [deliver].
  pose proof (on_ble_packet_session self p t now) as Hstep.
  destruct (on_ble_packet self p t now) as [self1 ev]. cbn [fst] in Hstep.
  specialize (IH self1). destruct (deliver self1 rest) as [self2 evs].
  cbn [fst] in *. destruct Hstep as (<- & <- & <- & <- & <-). exact IH.
Qed.




Lemma reconnect_loop_step env self :
  reconnect_loop env self =
  if (reconnect_attempts self <? MAX_RECONNECT_ATTEMPTS) && running self then
    match make_attempt env (begin_attempt self).1 with
    | (Some r, self', evs) => (r, self', (begin_attempt self).2 ++ evs)
    | (None, self', evs) =>
        let '(r, self'', evs') := reconnect_loop env self' in
        (r, self'', (begin_attempt self).2 ++ evs ++ evs')
    end
  else (false, set_is_reconnecting self false, []).
Proof.
  funelim (reconnect_loop env self).
  - match goal with Hc : _ = false |- _ => rewrite Hc end. reflexivity.
  - rewrite Hloop.
    match goal with Hm : make_attempt _ _ = _ |- _ => rewrite Hm end.
    reflexivity.
  - rewrite Hloop, Hnext. reflexivity.
Qed.

(** An attempt that is refused. *)
Lemma make_attempt_refused env self :
  connect_ok (env (reconnect_attempts self)) = false ->
  make_attempt env self
  = if reconnect_attempts self >=? MAX_RECONNECT_ATTEMPTS
    then (Some false,
          set_is_reconnecting (set_ble_connected self false) false,
          [ConnectBle false])
    else (None, set_ble_connected self false, [ConnectBle false]).
Proof. intros Hok. unfold make_attempt. rewrite Hok. reflexivity. Qed.

(** An attempt that succeeds: the new poll task, then the prewarm when
    caching is on. *)
Lemma make_attempt_accepted env self :
  connect_ok (env (reconnect_attempts self)) = true ->
  make_attempt env self
  = let '(self', evs) :=
      if cache_nodes self
      then prewarm_cache (connected_again self) (env (reconnect_attempts self))
      else (connected_again self, []) in
    (Some true, set_is_reconnecting self' false,
     ConnectBle true :: PollTaskStarted :: evs).
Proof.
  intros Hok. unfold make_attempt. rewrite Hok. cbn [connect_ble].
  replace (set_is_reconnecting
             (set_reconnect_attempts
                (set_ble_connected (set_ble_connected self false) true) 0)
             false)
    with (connected_again self) by by destruct self.
  change (cache_nodes (connected_again self)) with (cache_nodes self).
  by destruct (if cache_nodes self then _ else _).
Qed.

Lemma failed_attempts_S a k :
  failed_attempts a (S k)
  = Sleep (backoff_delay (a + 1)) :: ConnectBle false
    :: failed_attempts (a + 1) k.
Proof.
  unfold failed_attempts. rewrite Nat2Z.inj_succ, seqZ_cons by lia.
  cbn [flat_map app]. by rewrite Z.pred_succ.
Qed.

Lemma refused_at_again self j k :
  refused_at (refused_at self j) k = refused_at self k.
Proof. by destruct self. Qed.

(** The cache stays well formed through [on_ble_packet] and through a
    whole [prewarm_cache], whatever the device sends. *)
Lemma on_ble_packet_well_formed self p t now :
  cache_well_formed self -> cache_well_formed (on_ble_packet self p t now).1.
Proof.
  intros Hwf. unfold on_ble_packet.
  destruct (is_duplicate self (hash p) t); [done|].
  destruct (Frame.create_tcp_frame p) as [frame|]; [|done].
  cbn [fst]. by apply cache_packet_well_formed.
Qed.

Lemma deliver_well_formed self packets :
  cache_well_formed self -> cache_well_formed (deliver self packets).1.
Proof.
  revert self. induction packets as [|[[p t] now] rest IH]; intros self Hwf;
    [done|].
  cbn [deliver].
  pose proof (on_ble_packet_well_formed self p t now Hwf) as Hstep.
  destruct (on_ble_packet self p t now) as [self1 ev]. cbn [fst] in Hstep.
  specialize (IH self1 Hstep). by destruct (deliver self1 rest).
Qed.

Lemma prewarm_wait_well_formed self arrivals waits :
  cache_well_formed self ->
  cache_well_formed (prewarm_wait self arrivals waits).1.
Proof.
  revert self arrivals. induction waits as [|waits IH];
    intros self arrivals Hwf; [done|].
  cbn [prewarm_wait].
  pose proof (deliver_well_formed self (default [] (head arrivals)) Hwf) as Hd.
  destruct (deliver self _) as [self1 evs]. cbn [fst] in Hd.
  destruct (config_cache_complete self1); [exact Hd|].
  specialize (IH self1 (tail arrivals) Hd).
  by destruct (prewarm_wait self1 _ waits).
Qed.

Lemma prewarm_cache_well_formed self e :
  cache_well_formed self -> cache_well_formed (prewarm_cache self e).1.
Proof.
  intros Hwf. unfold prewarm_cache.
  destruct (config_cache self) eqn:Hcache.
  2:{ intros Hdone. destruct (Hwf Hdone) as (_ & body & t & a & Hc & _).
      by rewrite Hcache in Hc. }
  destruct (send_to_ble _ _) as [sent|]; [|intros Hdone; discriminate].
  pose proof (prewarm_wait_well_formed
                (begin_recording self (drawn_config_id e))
                (arrivals e) 60 (begin_recording_well_formed _ _)) as Hd.
  destruct (prewarm_wait _ _ _) as [self1 evs]. cbn [fst] in *.
  intros Hdone. destruct (Hd Hdone) as (_ & Hshape). by split.
Qed.

(** When every remaining attempt is refused the loop uses all of them:
    each sleeps its delay and connects, and the loop returns [False]. *)
Lemma reconnect_loop_all_fail env (k : nat) self :
  Z.to_nat (MAX_RECONNECT_ATTEMPTS - reconnect_attempts self) = S k ->
  running self = true ->
  (forall j, reconnect_attempts self < j <= MAX_RECONNECT_ATTEMPTS ->
             connect_ok (env j) = false) ->
  reconnect_loop env self
  = (false,
     set_is_reconnecting (refused_at self MAX_RECONNECT_ATTEMPTS) false,
     failed_attempts (reconnect_attempts self) (S k)).
Proof.
  revert self. induction k as [|k IH]; intros self Hk Hrun Hfail;
    rewrite reconnect_loop_step; unfold MAX_RECONNECT_ATTEMPTS in *;
    (destruct (Z.ltb_spec (reconnect_attempts self) 5) as [Hlt|Hge]; [|lia]);
    rewrite Hrun; cbn [andb begin_attempt fst snd];
    rewrite make_attempt_refused
      by (cbn [reconnect_attempts set_reconnect_attempts]; apply Hfail; lia);
    cbn [reconnect_attempts set_reconnect_attempts];
    unfold MAX_RECONNECT_ATTEMPTS; rewrite failed_attempts_S.
  - destruct (Z.geb_spec (reconnect_attempts self + 1) 5) as [_|Hmore]; [|lia].
    replace (reconnect_attempts self + 1) with 5 by lia. reflexivity.
  - destruct (Z.geb_spec (reconnect_attempts self + 1) 5) as [Hmax|_]; [lia|].
    fold (refused_at self (reconnect_attempts self + 1)).
    rewrite (IH (refused_at self (reconnect_attempts self + 1)));
      [|cbn; lia|done|cbn; intros j Hj; apply Hfail; lia].
    by rewrite refused_at_again.
Qed.

(** When attempt [j] is the first to be accepted the loop stops there:
    the refused attempts, then the sleep, the connection, the new poll
    task and the prewarm. *)
Lemma reconnect_loop_first_success env (k : nat) self j :
  Z.to_nat (j - reconnect_attempts self - 1) = k ->
  running self = true ->
  reconnect_attempts self < j <= MAX_RECONNECT_ATTEMPTS ->
  connect_ok (env j) = true ->
  (forall i, reconnect_attempts self < i < j -> connect_ok (env i) = false) ->
  reconnect_loop env self
  = let '(self', evs) :=
      if cache_nodes self
      then prewarm_cache (connected_again (set_reconnect_attempts self j))
             (env j)
      else (connected_again (set_reconnect_attempts self j), []) in
    (true, set_is_reconnecting self' false,
     failed_attempts (reconnect_attempts self) k
     ++ Sleep (backoff_delay j) :: ConnectBle true :: PollTaskStarted :: evs).
Proof.
  revert self. induction k as [|k IH]; intros self Hk Hrun Hj Hok Hfail;
    rewrite reconnect_loop_step; unfold MAX_RECONNECT_ATTEMPTS in *;
    (destruct (Z.ltb_spec (reconnect_attempts self) 5) as [Hlt|Hge]; [|lia]);
    rewrite Hrun; cbn [andb begin_attempt fst snd].
  - replace (reconnect_attempts self + 1) with j by lia.
    rewrite make_attempt_accepted by done.
    cbn [reconnect_attempts set_reconnect_attempts cache_nodes].
    change (cache_nodes (set_reconnect_attempts self j))
      with (cache_nodes self).
    by destruct (if cache_nodes self then _ else _).
  - rewrite make_attempt_refused
      by (cbn [reconnect_attempts set_reconnect_attempts]; apply Hfail; lia).
    cbn [reconnect_attempts set_reconnect_attempts].
    unfold MAX_RECONNECT_ATTEMPTS.
    destruct (Z.geb_spec (reconnect_attempts self + 1) 5) as [Hmax|_]; [lia|].
    fold (refused_at self (reconnect_attempts self + 1)).
    rewrite (IH (refused_at self (reconnect_attempts self + 1)));
      [|cbn; lia|done|cbn; lia|done|cbn; intros i Hi; apply Hfail; lia].
    rewrite failed_attempts_S.
    change (cache_nodes (refused_at self (reconnect_attempts self + 1)))
      with (cache_nodes self).
    replace (connected_again
               (set_reconnect_attempts
                  (refused_at self (reconnect_attempts self + 1)) j))
      with (connected_again (set_reconnect_attempts self j))
      by by destruct self.
    cbn [reconnect_attempts refused_at set_ble_connected
         set_reconnect_attempts].
    by destruct (if cache_nodes self then _ else _).
Qed.

Lemma sleeps_failed_attempts a k :
  sleeps (failed_attempts a k) = backoff_delay <$> seqZ (a + 1) (Z.of_nat k).
Proof.
  revert a. induction k as [|k IH]; intros a; [done|].
  rewrite failed_attempts_S, sleeps_Sleep, sleeps_ConnectBle, IH.
  rewrite Nat2Z.inj_succ, (seqZ_cons (a + 1)) by lia.
  by rewrite Z.pred_succ.
Qed.

(** C7: the delay before reconnection attempt [k] is
    [min(2.0 * 2.0 ** (k - 1), 60.0)] seconds, which for [k] from 1 to 7
    is 2, 4, 8, 16, 32, 60, 60.  The reconnection loop, entered with the
    attempt counter at zero, sleeps exactly these delays, each before the
    attempt it belongs to: when every attempt is refused it sleeps 2, 4,
    8, 16 and 32 seconds and connects after each, five times in all (the
    loop ends there, so the values for 6 and 7 are never slept); when
    attempt [j] is the first to be accepted it has slept the delays of
    attempts 1 to [j], and what follows the connection is the new poll
    task and the prewarm request with its own half-second waits. *)
Theorem backoff_sequence :
  (forall k : Z, backoff_delay k = Qmin (2 * Qpower 2 (k - 1)) 60)
  /\ backoff_delay <$> [1; 2; 3; 4; 5; 6; 7]
     = [2%Q; 4%Q; 8%Q; 16%Q; 32%Q; 60%Q; 60%Q]
  /\ (forall env self,
        running self = true ->
        reconnect_attempts self = 0 ->
        ((forall j, 1 <= j <= 5 -> connect_ok (env j) = false) ->
         (reconnect_loop env self).2
         = [Sleep 2; ConnectBle false; Sleep 4; ConnectBle false;
            Sleep 8; ConnectBle false; Sleep 16; ConnectBle false;
            Sleep 32; ConnectBle false])
        /\ (forall j,
              1 <= j <= 5 ->
              connect_ok (env j) = true ->
              (forall i, 1 <= i < j -> connect_ok (env i) = false) ->
              (reconnect_loop env self).2
              = failed_attempts 0 (Z.to_nat (j - 1))
                ++ Sleep (backoff_delay j) :: ConnectBle true
                   :: PollTaskStarted
                   :: (if cache_nodes self
                       then (prewarm_cache
                               (connected_again (set_reconnect_attempts self j))
                               (env j)).2
                       else [])
              /\ sleeps (failed_attempts 0 (Z.to_nat (j - 1)))
                 = backoff_delay <$> seqZ 1 (j - 1))).
Proof.
  split; [reflexivity|]. split; [reflexivity|].
  intros env self Hrun Hatt. split.
  - intros Hfail.
    rewrite (reconnect_loop_all_fail env 4 self);
      [|by rewrite Hatt|done|rewrite Hatt; unfold MAX_RECONNECT_ATTEMPTS;
         intros j Hj; apply Hfail; lia].
    rewrite Hatt. reflexivity.
  - intros j Hj Hok Hbefore.
    rewrite (reconnect_loop_first_success env (Z.to_nat (j - 1)) self j);
      [|rewrite Hatt; lia|done|rewrite Hatt; unfold MAX_RECONNECT_ATTEMPTS; lia
       |done|rewrite Hatt; intros i Hi; apply Hbefore; lia].
    rewrite Hatt. split.
    + by destruct (cache_nodes self); [destruct (prewarm_cache _ _)|].
    + rewrite sleeps_failed_attempts. f_equal. f_equal. lia.
Qed.










Lemma run_exited fuel env prog happenings s :
  exit_status prog = Some s -> run fuel env prog happenings = Some (prog, []).
Proof. intros Hex. destruct happenings; [done|]. cbn [run]. by rewrite Hex. Qed.





End Session.

(** ** Concrete runs on the reference codec *)

Lemma eviction_bound_witness :
  exists cache',
    config_cache (record_all (recording 500 7)
                    ((entry_of my_info_msg :: six_hundred_nodes)
                     ++ [entry_of (complete_msg 7)]) 0) = Some cache'
    /\ config_cache_complete
         (record_all (recording 500 7)
            ((entry_of my_info_msg :: six_hundred_nodes)
             ++ [entry_of (complete_msg 7)]) 0) = true
    /\ length (node_entries cache') = 500%nat
    /\ node_entries cache'
       = drop 100 (node_entries (entry_of my_info_msg :: six_hundred_nodes))
    /\ other_entries cache'
       = other_entries (entry_of my_info_msg :: six_hundred_nodes)
         ++ [entry_of (complete_msg 7)]
    /\ list.last cache' = Some (entry_of (complete_msg 7)).
Proof.
  apply (eviction_bound (recording 500 7)
           (entry_of my_info_msg :: six_hundred_nodes)
           (entry_of (complete_msg 7)) 7 0);
    vm_compute; reflexivity.
Defined.

(** C3, as stated, fails for node updates that arrive after completion:
    600 distinct NodeInfo messages handled by a complete cache with cap 500
    leave 600 node entries, none evicted. *)
Lemma eviction_bound_counterexample :
  config_cache_complete (completed 500 []) = true
  /\ max_cache_nodes (completed 500 []) = 500
  /\ length (node_entries
               (default [] (config_cache
                              (record_all (completed 500 [])
                                 six_hundred_nodes 0)))) = 600%nat
  /\ ~ length (node_entries
                 (default [] (config_cache
                                (record_all (completed 500 [])
                                   six_hundred_nodes 0)))) = 500%nat.
Proof.
  assert (Hcount :
    length (node_entries
              (default [] (config_cache
                             (record_all (completed 500 [])
                                six_hundred_nodes 0)))) = 600%nat)
    by (vm_compute; reflexivity).
  split; [reflexivity|]. split; [reflexivity|]. split; [exact Hcount|].
  rewrite Hcount. discriminate.
Qed.

Lemma replay_substitution_witness :
  on_client_frame Scenario.bridge 4 Scenario.request
  = (Scenario.bridge,
     TcpWrite 4 <$> (Scenario.body.*2
                     ++ [frame_of (FromRadio_SerializeToString (complete_msg 9))]))
  /\ replay (Scenario.body ++ [Scenario.terminal]) 9
     = Scenario.body.*2
       ++ [frame_of (FromRadio_SerializeToString (complete_msg 9))]
  /\ replay (Scenario.body ++ [Scenario.terminal]) 7
     = Scenario.body.*2
       ++ [frame_of (FromRadio_SerializeToString (complete_msg 7))]
  /\ FromRadio_ParseFromString
       (Frame.frame_payload
          (frame_of (FromRadio_SerializeToString (complete_msg 9))))
     = Ok (set_config_complete_id (complete_msg 7) 9)
  /\ get_config_complete_id (set_config_complete_id (complete_msg 7) 9) = 9
  /\ FromRadio_ParseFromString
       (Frame.frame_payload
          (frame_of (FromRadio_SerializeToString (complete_msg 7))))
     = Ok (complete_msg 7).
Proof.
  apply (replay_substitution Scenario.bridge Scenario.body
           Scenario.terminal.1 Scenario.terminal.2 (complete_msg 7) 7 9 4
           Scenario.request);
    vm_compute; reflexivity.
Defined.




(** C5, as stated, fails when recording left two entries for one node
    (recording appends whatever arrives): the update replaces the first of
    them only, so the cache ends with two entries for that node. *)
Lemma node_merge_counterexample :
  config_cache_complete
    (completed 500 [node_msg 5 [x61] 0; node_msg 5 [x62] 0]) = true
  /\ config_cache
       (record_all (completed 500 [node_msg 5 [x61] 0; node_msg 5 [x62] 0])
          [entry_of (node_msg 5 [x63] 0); entry_of (node_msg 5 [x63] 0)] 1)
     = Some [entry_of (node_msg 5 [x63] 0); entry_of (node_msg 5 [x62] 0);
             entry_of (complete_msg 7)]
  /\ length (List.filter (is_node_for 5)
               [entry_of (node_msg 5 [x63] 0); entry_of (node_msg 5 [x62] 0);
                entry_of (complete_msg 7)]) = 2%nat.
Proof.
  split; [reflexivity|]. split; by vm_compute.
Qed.

Lemma node_merge_idempotent_witness :
  cache_packet
    (cache_packet Scenario.bridge (entry_of (node_msg 1 [x42] 0)).1
       (entry_of (node_msg 1 [x42] 0)).2 5)
    (entry_of (node_msg 1 [x42] 0)).1 (entry_of (node_msg 1 [x42] 0)).2 6
  = cache_packet Scenario.bridge (entry_of (node_msg 1 [x42] 0)).1
      (entry_of (node_msg 1 [x42] 0)).2 5.
Proof.
  destruct (node_merge_idempotent Scenario.bridge Scenario.body
              Scenario.terminal (entry_of (node_msg 1 [x42] 0)).1
              (entry_of (node_msg 1 [x42] 0)).2 (node_msg 1 [x42] 0) 5 6)
    as [Hsame _]; [by vm_compute..|].
  exact Hsame.
Defined.

Lemma packet_without_entry_ignored_witness :
  cache_packet Scenario.bridge (entry_of (position_msg 5)).1
    (entry_of (position_msg 5)).2 999 = Scenario.bridge
  /\ cache_packet Scenario.bridge (entry_of (position_msg 0)).1
       (entry_of (position_msg 0)).2 999 = Scenario.bridge.
Proof.
  split.
  - destruct (packet_without_entry_ignored Scenario.bridge
                (Scenario.body ++ [Scenario.terminal])
                (entry_of (position_msg 5)).1
                (entry_of (position_msg 5)).2 (position_msg 5) 999)
      as [Hignored _]; [by vm_compute..|].
    apply Hignored; [by vm_compute|]. right. by vm_compute.
  - destruct (packet_without_entry_ignored Scenario.bridge
                (Scenario.body ++ [Scenario.terminal])
                (entry_of (position_msg 0)).1
                (entry_of (position_msg 0)).2 (position_msg 0) 999)
      as [Hignored _]; [by vm_compute..|].
    apply Hignored; [by vm_compute|]. left. by vm_compute.
Defined.


(** C6, as stated, fails when a packet too large for a frame arrives in
    between: it is not delivered, but it is the packet the next one is
    compared with.  A payload is delivered to both clients at 10 s, a
    packet of 513 bytes is refused 10 ms later, and the first payload,
    arriving 20 ms after its own delivery, is delivered again. *)
Lemma dedup_window_counterexample :
  let first := on_ble_packet MoreScenarios.two_clients [x01; x02] 10 0 in
  let second :=
    on_ble_packet first.1 (replicate 513 x2a) (10 + (10 # 1000)) 0 in
  let third := on_ble_packet second.1 [x01; x02] (10 + (20 # 1000)) 0 in
  first.2 = [TcpWrite 1 [x94; xc3; x00; x02; x01; x02];
             TcpWrite 2 [x94; xc3; x00; x02; x01; x02]]
  /\ second.2 = []
  /\ third.2 = [TcpWrite 1 [x94; xc3; x00; x02; x01; x02];
                TcpWrite 2 [x94; xc3; x00; x02; x01; x02]]
  /\ (10 + (20 # 1000) - 10 < 1 # 10)%Q.
Proof.
  cbn zeta. split; [by vm_compute|]. split; [by vm_compute|].
  split; by vm_compute.
Qed.

Lemma backoff_sequence_witness :
  (reconnect_loop Scenario.never
     (set_is_reconnecting Scenario.lost_bridge true)).2
  = [Sleep 2; ConnectBle false; Sleep 4; ConnectBle false;
     Sleep 8; ConnectBle false; Sleep 16; ConnectBle false;
     Sleep 32; ConnectBle false]
  /\ take 7 (reconnect_loop Scenario.third
               (set_is_reconnecting Scenario.lost_bridge true)).2
     = [Sleep 2; ConnectBle false; Sleep 4; ConnectBle false;
        Sleep 8; ConnectBle true; PollTaskStarted].
Proof.
  destruct backoff_sequence as (_ & _ & Hloop).
  split.
  - destruct (Hloop Scenario.never
                (set_is_reconnecting Scenario.lost_bridge true)
                ltac:(by vm_compute) ltac:(by vm_compute)) as [Hfail _].
    by apply Hfail.
  - destruct (Hloop Scenario.third
                (set_is_reconnecting Scenario.lost_bridge true)
                ltac:(by vm_compute) ltac:(by vm_compute)) as [_ Hok].
    destruct (Hok 3) as [-> _]; [lia|done| |done].
    intros i Hi. unfold Scenario.third. cbn.
    destruct (Z.eqb_spec i 3); [lia|done].
Defined.


(** * Further properties *)

(** ** The BLE bridge: forwarding and the cache *)

Section Forwarding.

Context {pb : Protobuf} {laws : ProtobufLaws pb} {py : PyHash}.

Lemma cache_of_set_last_packet self h t :
  cache_of (set_last_packet self h t) = cache_of self.
Proof. reflexivity. Qed.

(** X1: a packet from the device that passes the duplicate check is
    written to every client, in client order, as the four header bytes
    followed by the payload, whatever the cache holds and whether or not
    the payload decodes; a payload of more than 512 bytes is written to
    nobody and leaves the cache as it is, but still counts as the last
    packet seen by the duplicate check. *)
Theorem packet_forwarding (self : Bridge) (p : bytes) (t : Q) (now : Z) :
  is_duplicate self (hash p) t = false ->
  (on_ble_packet self p t now).2
  = (if len p <=? 512
     then map (fun writer =>
                 TcpWrite writer
                   ([x94; xc3; byte_of_Z (Z.shiftr (len p) 8);
                     byte_of_Z (Z.land (len p) 255)] ++ p))
              (tcp_clients self)
     else [])
  /\ (512 < len p ->
      (on_ble_packet self p t now).1 = set_last_packet self (Some (hash p)) t).
Proof.
  intros Hdup. destruct (Z.leb_spec (len p) 512) as [Hle|Hgt].
  - pose proof (create_tcp_frame_fits p Hle) as Hf.
    destruct (on_ble_packet_delivered self p t now _ Hdup Hf) as [Hev _].
    split; [exact Hev | lia].
  - pose proof (create_tcp_frame_too_large p Hgt) as Hf.
    unfold on_ble_packet. rewrite Hdup, Hf. done.
Qed.

(** X2: a cache that is switched off, or that is neither complete nor
    being recorded (a prewarm that timed out), is left as it is by every
    run of packets from the device; every client request is then passed
    on to the device and none is answered from the cache. *)
Theorem cache_stays_off (self : Bridge) (packets : list (bytes * Q * Z)) :
  config_cache self = None
  \/ (config_cache_complete self = false /\ recording_config self = false) ->
  let self' := (deliver self packets).1 in
  cache_of self' = cache_of self
  /\ forall writer request,
       (on_client_frame self' writer request).2
       = try_except
           (to_radio ← ToRadio_ParseFromString request;
            send_to_ble self to_radio)
           [].
Proof.
  intros Hoff. cbn zeta.
  assert (Hcache : cache_of (deliver self packets).1 = cache_of self).
  { revert self Hoff.
    induction packets as [|[[p t] now] rest IH]; intros self Hoff; [done|].
    cbn [deliver].
    assert (Hstep : cache_of (on_ble_packet self p t now).1 = cache_of self).
    { unfold on_ble_packet.
      destruct (is_duplicate self (hash p) t); [done|].
      destruct (Frame.create_tcp_frame p) as [f|]; [|done]. cbn [fst].
      destruct Hoff as [Hnone|[Hdone Hrec]].
      - unfold cache_packet. cbn [config_cache set_last_packet].
        by rewrite Hnone.
      - by rewrite cache_packet_idle. }
    destruct (on_ble_packet self p t now) as [self1 ev]. cbn [fst] in Hstep.
    assert (Hoff1 : config_cache self1 = None
                    \/ (config_cache_complete self1 = false
                        /\ recording_config self1 = false)).
    { unfold cache_of in Hstep. injection Hstep as -> -> -> _. exact Hoff. }
    specialize (IH self1 Hoff1). destruct (deliver self1 rest) as [self2 evs].
    cbn [fst] in *. by rewrite IH. }
  split; [exact Hcache|]. intros writer request.
  pose proof (deliver_session self packets) as (_ & _ & _ & _ & Hconn).
  unfold on_client_frame. cbn [snd].
  destruct (ToRadio_ParseFromString request) as [to_radio|]; [|done].
  cbn [mbind result_bind].
  assert (Hsend : send_to_ble (deliver self packets).1 to_radio
                  = send_to_ble self to_radio).
  { unfold send_to_ble. by rewrite Hconn. }
  unfold cache_of in Hcache. injection Hcache as Hc Hdone _ _.
  rewrite Hc, Hdone, Hsend.
  destruct Hoff as [->|[-> _]]; [done|].
  by destruct (config_cache self).
Qed.

(** X3: eviction for any cap and any number of nodes.  Recording a run of
    configuration items and then the completion marker of the request
    leaves a complete cache whose node entries are the recorded ones
    without the oldest (count - cap), in order: all of them when the
    count does not exceed the cap, none when the cap is zero or
    negative.  The other entries and the marker are all kept. *)
Theorem eviction_any_cap (self : Bridge) (recorded : list entry)
    (terminal : entry) (a now : Z) :
  config_cache self = Some [] ->
  recording_config self = true ->
  current_config_id self = Some a ->
  forallb is_config_item recorded = true ->
  is_completion_of a terminal = true ->
  let n := len (node_entries recorded) in
  let self' := record_all self (recorded ++ [terminal]) now in
  exists cache',
    config_cache self' = Some cache'
    /\ config_cache_complete self' = true
    /\ recording_config self' = false
    /\ node_entries cache'
       = drop (Z.to_nat (n - max_cache_nodes self)) (node_entries recorded)
    /\ len (node_entries cache') = Z.min n (Z.max 0 (max_cache_nodes self))
    /\ other_entries cache' = other_entries recorded ++ [terminal]
    /\ list.last cache' = Some terminal.
Proof.
  intros Hc Hr Ha Hitems Hterm. cbn zeta.
  rewrite record_all_app, record_all_cons.
  change (record_all ?s [] now) with s.
  rewrite (record_all_recording self [] recorded now Hc Hr Hitems).
  cbn [app].
  destruct (cache_packet_completion (set_config_cache self (Some recorded))
              recorded terminal a now eq_refl Hr Ha Hterm)
    as (Hc' & Hdone & Hrec').
  cbn [max_cache_nodes set_config_cache] in Hc'.
  eexists. split; [exact Hc'|]. split; [exact Hdone|]. split; [exact Hrec'|].
  pose proof (is_completion_not_node a terminal Hterm) as Hnn.
  set (k := Z.to_nat (len (node_entries recorded) - max_cache_nodes self)).
  assert (Hnodes : node_entries (drop_oldest_nodes k recorded ++ [terminal])
                   = drop k (node_entries recorded)).
  { unfold node_entries at 1. rewrite List.filter_app. cbn [List.filter].
    rewrite Hnn, app_nil_r. apply node_entries_drop_oldest. }
  split; [exact Hnodes|]. split; [|split].
  - rewrite Hnodes. unfold len. rewrite length_drop. subst k. unfold len. lia.
  - unfold other_entries at 1. rewrite List.filter_app. cbn [List.filter].
    rewrite Hnn. cbn [negb]. f_equal. apply other_entries_drop_oldest.
  - apply last_snoc.
Qed.

End Forwarding.

(** ** The BLE bridge: reconnection and the states it reaches *)

Section Lifecycle.

Context {pb : Protobuf} {laws : ProtobufLaws pb} {py : PyHash}.

(** X4: [prewarm_cache] starts from nothing.  With caching on, its
    outcome does not depend on what the cache held before, on whether it
    was complete or being recorded, or on the previous request id; it
    always ends with recording switched off; and when the device is not
    connected it sends nothing and leaves the cache empty and
    incomplete. *)
Theorem prewarm_cache_fresh (self : Bridge) (cache : list entry)
    (env : attempt_env) :
  config_cache self = Some cache ->
  recording_config (prewarm_cache self env).1 = false
  /\ (forall other cache',
        config_cache other = Some cache' ->
        session_of other = session_of self ->
        prewarm_cache other env = prewarm_cache self env)
  /\ (ble_connected self = false ->
      (prewarm_cache self env).2 = []
      /\ config_cache (prewarm_cache self env).1 = Some []
      /\ config_cache_complete (prewarm_cache self env).1 = false).
Proof.
  intros Hcache. split; [|split].
  - unfold prewarm_cache. rewrite Hcache.
    destruct (send_to_ble _ _); [|done].
    by destruct (prewarm_wait _ _ _).
  - intros other cache' Hcache' Hs.
    assert (Hbegin : begin_recording other (drawn_config_id env)
                     = begin_recording self (drawn_config_id env)).
    { unfold begin_recording, session_of in *.
      destruct self, other; cbn in *.
      injection Hs as -> -> -> -> -> -> -> -> ->.
      by rewrite Hcache, Hcache'. }
    unfold prewarm_cache. by rewrite Hcache, Hcache', Hbegin.
  - intros Hconn. unfold prewarm_cache, send_to_ble. rewrite Hcache.
    cbn [ble_connected begin_recording set_recording_config
         set_current_config_id set_config_cache set_config_cache_complete].
    rewrite Hconn. cbn. by rewrite Hcache.
Qed.

Lemma cache_invariant_ext self self' :
  cache_of self' = cache_of self ->
  cache_nodes self' = cache_nodes self ->
  cache_invariant self -> cache_invariant self'.
Proof.
  unfold cache_of. intros Hc Hn (Hwf & Hnone & Hall).
  injection Hc as Hc Hdone Hrec _. unfold cache_invariant, cache_well_formed.
  rewrite Hc, Hdone, Hrec, Hn. done.
Qed.

Lemma drop_oldest_nodes_Forall (P : entry -> Prop) k cache :
  Forall P cache -> Forall P (drop_oldest_nodes k cache).
Proof.
  intros Hall. revert k. induction Hall as [|e rest He Hrest IH]; intros k.
  - by destruct k.
  - destruct k as [|k]; cbn; [by constructor|].
    destruct (is_node_entry e); [apply IH|constructor; [done|apply IH]].
Qed.

Lemma node_update_loop_Forall (P : entry -> Prop) n new i slice cache :
  Forall P cache -> P new ->
  Forall P (node_update_loop n new i slice cache).1.
Proof.
  intros Hall Hnew. revert i.
  induction slice as [|[proto frame] rest IH]; intros i; cbn; [done|].
  destruct (FromRadio_ParseFromString proto) as [m|]; [|apply IH].
  destruct (_ && _); [|apply IH]. cbn. by apply Forall_insert.
Qed.

Lemma insert_before_last_Forall {A} (P : A -> Prop) x l :
  Forall P l -> P x -> Forall P (insert_before_last x l).
Proof.
  intros Hall Hx. unfold insert_before_last.
  apply Forall_app. split; [by apply Forall_take|].
  constructor; [done|by apply Forall_drop].
Qed.

Lemma refresh_entry_consistent ut n payload now proto e :
  refresh_entry ut n payload now proto = Ok (Some e) -> entry_consistent e.
Proof.
  unfold refresh_entry.
  destruct (FromRadio_ParseFromString proto) as [m|]; [|done].
  cbn [mbind result_bind]. destruct (_ && _); [|done].
  destruct (apply_update _ _ _) as [n'|]; [|done]. cbn [mbind result_bind].
  destruct (assign_last_heard _ _) as [n''|]; [|done].
  cbn [mbind result_bind].
  destruct (Frame.create_tcp_frame _) as [f|] eqn:Hf; [|done].
  cbn [mbind result_bind]. intros [= <-]. split; [exact Hf|].
  eexists. apply FromRadio_parse_serialize.
Qed.

Lemma packet_update_loop_Forall ut n payload now i slice cache :
  Forall entry_consistent cache ->
  Forall entry_consistent (packet_update_loop ut n payload now i slice cache).
Proof.
  intros Hall. revert i.
  induction slice as [|[proto frame] rest IH]; intros i; cbn; [done|].
  destruct (refresh_entry ut n payload now proto) as [[e|]|] eqn:He;
    try apply IH.
  apply Forall_insert; [done|]. by eapply refresh_entry_consistent.
Qed.

Lemma cache_packet_consistent self p f now :
  Frame.create_tcp_frame p = Ok f ->
  (forall cache, config_cache self = Some cache ->
     Forall entry_consistent cache) ->
  forall cache, config_cache (cache_packet self p f now) = Some cache ->
    Forall entry_consistent cache.
Proof.
  intros Hf Hall. unfold cache_packet.
  destruct (config_cache self) as [cache|] eqn:Hc; [|by rewrite Hc].
  specialize (Hall cache eq_refl).
  destruct (FromRadio_ParseFromString p) as [m|] eqn:Hm;
    cbn [mbind result_bind try_except]; [|by rewrite Hc; intros ? [= <-]].
  assert (Hnew : entry_consistent (p, f)) by (split; [done|by exists m]).
  assert (Happ : Forall entry_consistent (cache ++ [(p, f)])).
  { apply Forall_app. split; [done|by constructor]. }
  destruct (HasField_config_complete_id m).
  { unfold on_config_complete.
    destruct (_ && _); [|by rewrite Hc; intros ? [= <-]].
    cbn [max_cache_nodes set_recording_config set_config_cache_complete
         set_config_cache].
    destruct (_ >? _); [|by intros ? [= <-]].
    destruct (evict_loop _ _ _ _) as [new_cache removed] eqn:Hev.
    pose proof (evict_loop_spec (cache ++ [(p, f)])
      (count_node_info (cache ++ [(p, f)]) 0 - max_cache_nodes self) [] 0)
      as Hspec.
    rewrite Hev in Hspec. cbn [fst app] in Hspec.
    cbn [config_cache set_config_cache]. intros ? [= <-]. rewrite Hspec.
    by apply drop_oldest_nodes_Forall. }
  destruct (recording_config self); [by intros ? [= <-]|].
  destruct (config_cache_complete self); cbn [andb];
    [|by rewrite Hc; intros ? [= <-]].
  destruct (HasField_node_info m).
  { intros ? [= <-]. unfold update_node_info.
    pose proof (node_update_loop_Forall entry_consistent
      (num (get_node_info m)) (p, f) 0 (but_last cache) cache Hall Hnew) as Hl.
    destruct (node_update_loop _ _ _ _ _) as [cache' found]. cbn [fst] in Hl.
    destruct found; cbn [negb]; [done|by apply insert_before_last_Forall]. }
  destruct (HasField_packet m); [|by rewrite Hc; intros ? [= <-]].
  intros ? [= <-]. unfold update_from_packet.
  destruct (decoded _); [|done]. destruct (update_type_of _); [|done].
  destruct (negb _); [|done]. by apply packet_update_loop_Forall.
Qed.

Lemma cache_packet_is_None self p f now :
  config_cache (cache_packet self p f now) = None <-> config_cache self = None.
Proof.
  unfold cache_packet.
  destruct (config_cache self) as [cache|] eqn:Hc; [|by rewrite Hc].
  destruct (FromRadio_ParseFromString p) as [m|];
    cbn [mbind result_bind try_except]; [|by rewrite Hc].
  unfold on_config_complete.
  repeat (case_match; cbn [config_cache set_config_cache
    set_config_cache_complete set_recording_config]; try by rewrite ?Hc).
Qed.

Lemma on_ble_packet_invariant self p t now :
  cache_invariant self -> cache_invariant (on_ble_packet self p t now).1.
Proof.
  intros Hinv. pose proof Hinv as (Hwf & Hnone & Hall).
  split; [by apply on_ble_packet_well_formed|].
  unfold on_ble_packet.
  destruct (is_duplicate self (hash p) t); [by destruct Hinv as (_ & ? & ?)|].
  destruct (Frame.create_tcp_frame p) as [f|] eqn:Hf; [|done]. cbn [fst].
  split.
  - rewrite cache_packet_is_None.
    pose proof (cache_packet_session (set_last_packet self (Some (hash p)) t)
                  p f now) as Hs.
    unfold session_of in Hs. injection Hs as -> _. exact Hnone.
  - by apply cache_packet_consistent.
Qed.

Lemma deliver_invariant self packets :
  cache_invariant self -> cache_invariant (deliver self packets).1.
Proof.
  revert self. induction packets as [|[[p t] now] rest IH]; intros self Hinv;
    [done|].
  cbn [deliver].
  pose proof (on_ble_packet_invariant self p t now Hinv) as Hstep.
  destruct (on_ble_packet self p t now) as [self1 ev]. cbn [fst] in Hstep.
  specialize (IH self1 Hstep). by destruct (deliver self1 rest).
Qed.

Lemma prewarm_wait_invariant self arrivals waits :
  cache_invariant self -> cache_invariant (prewarm_wait self arrivals waits).1.
Proof.
  revert self arrivals. induction waits as [|waits IH];
    intros self arrivals Hinv; [done|].
  cbn [prewarm_wait].
  pose proof (deliver_invariant self (default [] (head arrivals)) Hinv) as Hd.
  destruct (deliver self _) as [self1 evs]. cbn [fst] in Hd.
  destruct (config_cache_complete self1); [exact Hd|].
  specialize (IH self1 (tail arrivals) Hd).
  by destruct (prewarm_wait self1 _ waits).
Qed.

Lemma prewarm_cache_invariant self e :
  cache_invariant self -> cache_invariant (prewarm_cache self e).1.
Proof.
  intros (Hwf & Hnone & Hall).
  assert (Hbegin : cache_invariant (begin_recording self (drawn_config_id e))).
  { split; [apply begin_recording_well_formed|]. split.
    - cbn. rewrite <- Hnone. by destruct (config_cache self).
    - cbn. destruct (config_cache self); [|done]. by intros ? [= <-]. }
  split; [by apply prewarm_cache_well_formed|].
  unfold prewarm_cache.
  destruct (config_cache self) eqn:Hcache;
    [|by cbn [fst config_cache cache_nodes set_recording_config
              set_current_config_id]; rewrite Hcache].
  destruct (send_to_ble _ _) as [sent|]; [|by destruct Hbegin as (_ & ? & ?)].
  pose proof (prewarm_wait_invariant _ (arrivals e) 60 Hbegin) as (_ & Hn & Ha).
  by destruct (prewarm_wait _ _ _).
Qed.

Lemma reconnect_loop_invariant env (k : nat) self :
  Z.to_nat (MAX_RECONNECT_ATTEMPTS - reconnect_attempts self) = k ->
  cache_invariant self -> cache_invariant (reconnect_loop env self).1.2.
Proof.
  revert self. induction k as [|k IH]; intros self Hk Hinv;
    rewrite reconnect_loop_step; unfold MAX_RECONNECT_ATTEMPTS in *.
  - destruct (Z.ltb_spec (reconnect_attempts self) 5) as [Hlt|_]; [lia|].
    cbn [andb fst snd]. by apply (cache_invariant_ext self).
  - destruct (_ && _); [|by apply (cache_invariant_ext self)].
    cbn [begin_attempt fst snd].
    set (self1 := set_reconnect_attempts self (reconnect_attempts self + 1)).
    assert (Hinv1 : cache_invariant self1)
      by by apply (cache_invariant_ext self).
    destruct (connect_ok (env (reconnect_attempts self1))) eqn:Hok.
    + rewrite (make_attempt_accepted env self1 Hok).
      assert (Hinv3 : cache_invariant (connected_again self1))
        by by apply (cache_invariant_ext self1).
      destruct (cache_nodes self1).
      * pose proof (prewarm_cache_invariant (connected_again self1)
                      (env (reconnect_attempts self1)) Hinv3) as H4.
        destruct (prewarm_cache _ _) as [self4 evs]. cbn [fst snd] in *.
        by apply (cache_invariant_ext self4).
      * cbn [fst snd]. by apply (cache_invariant_ext (connected_again self1)).
    + rewrite (make_attempt_refused env self1 Hok).
      set (self2 := set_ble_connected self1 false).
      assert (Hinv2 : cache_invariant self2)
        by by apply (cache_invariant_ext self1).
      destruct (_ >=? _) eqn:Hmax;
        [cbn [fst snd]; by apply (cache_invariant_ext self2)|].
      specialize (IH self2). cbn in IH.
      assert (Hk2 : Z.to_nat (5 - (reconnect_attempts self + 1)) = k) by lia.
      specialize (IH Hk2 Hinv2).
      by destruct (reconnect_loop env self2) as [[r self'] evs].
Qed.

(** X6: in every state the BLE bridge reaches, the cache exists exactly
    when caching is switched on, a complete cache is not being recorded
    and ends with a completion marker, and every cached entry holds a
    payload that decodes together with the frame of exactly that
    payload. *)
Theorem reachable_cache_invariant (self : Bridge) :
  reachable self ->
  cache_well_formed self
  /\ (config_cache self = None <-> cache_nodes self = false)
  /\ forall cache, config_cache self = Some cache ->
       Forall entry_consistent cache.
Proof.
  change (reachable self -> cache_invariant self).
  induction 1 as [cache_nodes cap | self _ IH | self self' started _ IH Hconn
                 | self _ IH | self env _ IH Hon | self p t now _ IH
                 | env self data _ IH | self fails frame _ IH
                 | self writer _ IH | self writer _ IH].
  - split; [apply init_well_formed|]. split.
    + by destruct cache_nodes.
    + destruct cache_nodes; [|done]. by intros ? [= <-].
  - by apply (cache_invariant_ext self).
  - injection Hconn as <-. by apply (cache_invariant_ext self).
  - by apply (cache_invariant_ext self).
  - by apply prewarm_cache_invariant.
  - by apply on_ble_packet_invariant.
  - unfold poll_from_radio_step.
    destruct (ble_connected self); cbn [negb].
    + destruct data as [[p t] now]. destruct (0 <? len p); [|done].
      pose proof (on_ble_packet_invariant self p t now IH) as Hstep.
      by destruct (on_ble_packet self p t now).
    + unfold attempt_reconnection.
      destruct (is_reconnecting self); [done|].
      pose proof (reconnect_loop_invariant env _
                    (set_is_reconnecting self true) eq_refl) as Hloop.
      specialize (Hloop ltac:(by apply (cache_invariant_ext self))).
      destruct (reconnect_loop env _) as [[r self'] evs]. cbn [fst snd] in *.
      destruct r; cbn [negb fst]; [done|].
      by apply (cache_invariant_ext self').
  - unfold broadcast_to_tcp_failing. destruct (tcp_clients self); [done|].
    destruct (broadcast_loop _ _ _ _). by apply (cache_invariant_ext self).
  - by apply (cache_invariant_ext self).
  - unfold close_client. destruct (list_in _ _); [|done].
    by apply (cache_invariant_ext self).
Qed.

(** X5: [attempt_reconnection] does nothing when there is nothing to do.
    While another reconnection is running it reports success at once;
    when the bridge is shutting down, or the attempts are used up, it
    reports failure; in each case without sleeping, connecting or
    changing the state. *)
Theorem attempt_reconnection_idle (env : Z -> attempt_env) (self : Bridge) :
  (is_reconnecting self = true ->
   attempt_reconnection env self = (true, self, []))
  /\ (is_reconnecting self = false ->
      running self = false \/ MAX_RECONNECT_ATTEMPTS <= reconnect_attempts self ->
      attempt_reconnection env self = (false, self, [])).
Proof.
  unfold attempt_reconnection. split.
  - by intros ->.
  - intros Hidle Hstop. rewrite Hidle, reconnect_loop_step.
    cbn [reconnect_attempts running set_is_reconnecting].
    replace ((reconnect_attempts self <? MAX_RECONNECT_ATTEMPTS) && running self)
      with false.
    + destruct self; cbn in *; by subst.
    + symmetry. apply andb_false_iff.
      destruct Hstop as [->|Hmax]; [by right|left].
      apply Z.ltb_ge. exact Hmax.
Qed.

End Lifecycle.

(** ** The BLE bridge: client connections *)

Section ClientConnections.

Context {pb : Protobuf} {py : PyHash}.

Lemma broadcast_loop_spec fails frame clients disconnected :
  broadcast_loop fails frame clients disconnected
  = (map (fun writer => TcpWrite writer frame)
       (List.filter (fun writer => negb (fails writer)) clients),
     disconnected ++ List.filter fails clients).
Proof.
  revert disconnected.
  induction clients as [|w rest IH]; intros disconnected; cbn.
  - by rewrite app_nil_r.
  - destruct (fails w); cbn.
    + by rewrite IH, <- app_assoc.
    + by rewrite IH.
Qed.

Lemma list_remove_app_notin x pre l :
  list_in x pre = false ->
  list_remove x (pre ++ l) = pre ++ list_remove x l.
Proof.
  induction pre as [|y pre IH]; cbn; [done|].
  intros [Hxy Hpre]%orb_false_iff. rewrite Hxy. by rewrite IH.
Qed.

Lemma list_in_app x l1 l2 : list_in x (l1 ++ l2) = list_in x l1 || list_in x l2.
Proof. unfold list_in. apply existsb_app. Qed.

Lemma remove_failed fails pre l :
  (forall x, fails x = true -> list_in x pre = false) ->
  fold_left (fun clients writer => list_remove writer clients)
    (List.filter fails l) (pre ++ l)
  = pre ++ List.filter (fun writer => negb (fails writer)) l.
Proof.
  revert pre. induction l as [|y l IH]; intros pre Hpre; cbn; [done|].
  destruct (fails y) eqn:Hy; cbn.
  - rewrite list_remove_app_notin by by apply Hpre.
    cbn. rewrite Nat.eqb_refl. by apply IH.
  - replace (pre ++ y :: l) with ((pre ++ [y]) ++ l) by by rewrite <- app_assoc.
    rewrite IH; [by rewrite <- app_assoc|].
    intros x Hx. rewrite list_in_app, (Hpre x Hx). cbn.
    rewrite orb_false_r. apply Nat.eqb_neq. intros ->. congruence.
Qed.

Lemma set_tcp_clients_same self : set_tcp_clients self (tcp_clients self) = self.
Proof. by destruct self. Qed.

(** X7: a broadcast reaches every client whose write succeeds, once and
    in client order, and removes from the client list exactly the
    clients whose write raised, keeping the others in their order;
    nothing else of the bridge changes.  When no write fails the client
    list is unchanged. *)
Theorem broadcast_drops_failed_clients (self : Bridge) (fails : nat -> bool)
    (frame : bytes) :
  let alive := List.filter (fun writer => negb (fails writer)) (tcp_clients self) in
  broadcast_to_tcp_failing self fails frame
  = (set_tcp_clients self alive,
     map (fun writer => TcpWrite writer frame) alive)
  /\ ((forall writer, fails writer = false) ->
      broadcast_to_tcp_failing self fails frame
      = (self, broadcast_to_tcp self frame)).
Proof.
  cbn zeta.
  assert (Hgen : broadcast_to_tcp_failing self fails frame
    = (set_tcp_clients self
         (List.filter (fun writer => negb (fails writer)) (tcp_clients self)),
       map (fun writer => TcpWrite writer frame)
         (List.filter (fun writer => negb (fails writer)) (tcp_clients self)))).
  { unfold broadcast_to_tcp_failing.
    destruct (tcp_clients self) as [|w ws] eqn:Hc.
    - cbn. by rewrite <- Hc, set_tcp_clients_same.
    - rewrite broadcast_loop_spec. cbn [app].
      pose proof (remove_failed fails [] (w :: ws) ltac:(done)) as Hrm.
      cbn [app] in Hrm. by rewrite Hrm. }
  split; [exact Hgen|].
  intros Hok. rewrite Hgen.
  assert (Hall : forall l : list nat,
            List.filter (fun writer => negb (fails writer)) l = l).
  { intros l. induction l as [|w ws IH]; cbn; [done|].
    rewrite Hok. cbn. by rewrite IH. }
  by rewrite Hall, set_tcp_clients_same.
Qed.

Lemma handle_tcp_client_loop_step self writer stream :
  handle_tcp_client_loop self writer stream
  = if running self then
      match handle_tcp_client_step self writer stream with
      | Ok (self', evs, rest) => evs ++ handle_tcp_client_loop self' writer rest
      | Raise _ => []
      end
    else [].
Proof.
  funelim (handle_tcp_client_loop self writer stream).
  - match goal with H : running _ = false |- _ => by rewrite H end.
  - match goal with H : running _ = true |- _ => rewrite H end.
    by rewrite Hstep.
  - match goal with H : running _ = true |- _ => rewrite H end.
    match goal with H : handle_tcp_client_step _ _ _ = Raise _ |- _ =>
      by rewrite H end.
Qed.

Lemma handle_tcp_client_loop_frames self writer payloads frames tail :
  running self = true ->
  Forall2 (fun p f => Frame.create_tcp_frame p = Ok f) payloads frames ->
  len tail < 4 ->
  handle_tcp_client_loop self writer (concat frames ++ tail)
  = concat (map (fun p => (on_client_frame self writer p).2) payloads).
Proof.
  intros Hrun Hframes Htail.
  induction Hframes as [|p f payloads frames Hf _ IH].
  - cbn. rewrite handle_tcp_client_loop_step, Hrun.
    unfold handle_tcp_client_step, Frame.read_tcp_frame, Frame.readexactly.
    destruct (Z.leb_spec 4 (len tail)); [lia|done].
  - cbn [concat map]. rewrite <- app_assoc.
    rewrite handle_tcp_client_loop_step, Hrun.
    rewrite (handle_tcp_client_step_frame self writer p f _ Hf).
    unfold on_client_frame at 1. cbn [fst snd]. by rewrite IH.
Qed.

(** X8: a whole client connection.  A client that sends well-formed
    frames and then goes away (with, at most, a truncated header left
    over) has each of its payloads handled, in order, exactly as a single
    frame is; while connected it is the last entry of the client list,
    and when the connection ends the bridge is what it was before the
    client came. *)
Theorem client_connection (self : Bridge) (writer : nat)
    (payloads frames : list bytes) (tail : bytes) :
  running self = true ->
  list_in writer (tcp_clients self) = false ->
  Forall2 (fun p f => Frame.create_tcp_frame p = Ok f) payloads frames ->
  len tail < 4 ->
  handle_tcp_client self writer (concat frames ++ tail)
  = (self, concat (map (fun p => (on_client_frame self writer p).2) payloads))
  /\ tcp_clients (accept_client self writer) = tcp_clients self ++ [writer].
Proof.
  intros Hrun Hnew Hframes Htail. split; [|done].
  unfold handle_tcp_client.
  rewrite (handle_tcp_client_loop_frames (accept_client self writer) writer
             payloads frames tail Hrun Hframes Htail).
  f_equal. unfold close_client, accept_client.
  cbn [tcp_clients set_tcp_clients].
  rewrite list_in_app. cbn. rewrite Nat.eqb_refl, orb_true_r.
  rewrite list_remove_app_notin by done. cbn. rewrite Nat.eqb_refl, app_nil_r.
  by destruct self.
Qed.

End ClientConnections.

(** ** The serial bridge: varints and the want_config frame *)

Section Varint.

Import Frame Serial.

Lemma encode_varint_loop_step value result :
  encode_varint_loop value result
  = if value >? 0x7f
    then encode_varint_loop (Z.shiftr value 7)
           (result ++ [Z.lor (Z.land value 0x7f) 0x80])
    else result ++ [Z.land value 0x7f].
Proof.
  funelim (encode_varint_loop value result).
  - by rewrite Hgt.
  - match goal with H : (_ >? _) = false |- _ => by rewrite H end.
Qed.

Lemma land_127 v : Z.land v 0x7f = v mod 128.
Proof. change 0x7f with (Z.ones 7). by rewrite Z.land_ones. Qed.

Lemma lor_128 x : 0 <= x < 128 -> Z.lor x 0x80 = x + 128.
Proof.
  intros Hx.
  assert (Hdisj : Z.land x 128 = 0).
  { apply Z.bits_inj'. intros i Hi.
    rewrite Z.land_spec, Z.bits_0. change 128 with (2 ^ 7).
    rewrite Z.pow2_bits_eqb by lia.
    destruct (Z.eqb_spec 7 i) as [<-|]; [|apply andb_false_r].
    replace x with (x mod 2 ^ 7) by (apply Z.mod_small; lia).
    by rewrite Z.mod_pow2_bits_high. }
  by rewrite <- Z.lxor_lor, <- Z.add_nocarry_lxor.
Qed.

(** The digits of a varint, as the loop appends them. *)
Lemma encode_varint_loop_digits (n : nat) value result :
  Z.to_nat value = n ->
  encode_varint_loop value result
  = result ++
    (if value >? 0x7f
     then value mod 128 + 128 :: encode_varint_loop (Z.shiftr value 7) []
     else [value mod 128]).
Proof.
  revert value result. induction n as [n IH] using lt_wf_ind.
  intros value result Hn. rewrite encode_varint_loop_step.
  destruct (Z.gtb_spec value 0x7f) as [Hgt|Hle]; [|by rewrite land_127].
  rewrite land_127, lor_128 by (apply Z.mod_pos_bound; lia).
  assert (Hlt : (Z.to_nat (Z.shiftr value 7) < n)%nat).
  { rewrite Z.shiftr_div_pow2 by lia. change (2 ^ 7) with 128.
    assert (0 <= value / 128 < value); [|lia].
    split; [apply Z.div_pos; lia | apply Z.div_lt; lia]. }
  rewrite (IH _ Hlt (Z.shiftr value 7) (result ++ _) eq_refl).
  rewrite (IH _ Hlt (Z.shiftr value 7) [] eq_refl).
  by rewrite <- app_assoc.
Qed.

Lemma encode_varint_loop_unfold_nil value :
  encode_varint_loop value []
  = if value >? 0x7f
    then value mod 128 + 128 :: encode_varint_loop (Z.shiftr value 7) []
    else [value mod 128].
Proof. by rewrite (encode_varint_loop_digits _ value [] eq_refl). Qed.

Lemma py_bytes_in_range l :
  Forall (fun x => 0 <= x < 256) l -> py_bytes l = Ok (byte_of_Z <$> l).
Proof.
  induction 1 as [|x l Hx _ IH]; [done|]. cbn [py_bytes].
  replace ((0 <=? x) && (x <? 256)) with true.
  - by rewrite IH.
  - symmetry. apply andb_true_iff. split; [apply Z.leb_le|apply Z.ltb_lt]; lia.
Qed.

Lemma encode_varint_loop_range (n : nat) value :
  Z.to_nat value = n ->
  Forall (fun x => 0 <= x < 256) (encode_varint_loop value []).
Proof.
  revert value. induction n as [n IH] using lt_wf_ind. intros value Hn.
  rewrite encode_varint_loop_unfold_nil.
  pose proof (Z.mod_pos_bound value 128 ltac:(lia)) as Hm.
  destruct (Z.gtb_spec value 0x7f) as [Hgt|Hle].
  - constructor; [lia|].
    apply (IH (Z.to_nat (Z.shiftr value 7))); [|done].
    rewrite Z.shiftr_div_pow2 by lia. change (2 ^ 7) with 128.
    assert (0 <= value / 128 < value); [|lia].
    split; [apply Z.div_pos; lia | apply Z.div_lt; lia].
  - constructor; [lia|constructor].
Qed.

Lemma encode_varint_bytes value :
  encode_varint value = Ok (byte_of_Z <$> encode_varint_loop value []).
Proof.
  unfold encode_varint. apply py_bytes_in_range.
  by apply (encode_varint_loop_range (Z.to_nat value)).
Qed.

Lemma Z_of_byte_small x : 0 <= x < 256 -> Z_of_byte (byte_of_Z x) = x.
Proof. intros Hx. rewrite Z_of_byte_of_Z. by apply Z.mod_small. Qed.

Lemma varint_facts (n : nat) value :
  Z.to_nat value = n ->
  let bs := byte_of_Z <$> encode_varint_loop value [] in
  varint_terminated bs = true
  /\ (0 <= value -> varint_value bs = value)
  /\ (forall k : nat, (0 < k)%nat -> value < 128 ^ Z.of_nat k -> (length bs <= k)%nat).
Proof.
  revert value. induction n as [n IH] using lt_wf_ind. intros value Hn.
  cbn zeta. rewrite encode_varint_loop_unfold_nil.
  pose proof (Z.mod_pos_bound value 128 ltac:(lia)) as Hm.
  destruct (Z.gtb_spec value 0x7f) as [Hgt|Hle].
  - assert (Hdiv : 0 <= value / 128 < value).
    { split; [apply Z.div_pos; lia | apply Z.div_lt; lia]. }
    assert (Hsh : Z.shiftr value 7 = value / 128).
    { by rewrite Z.shiftr_div_pow2 by lia. }
    destruct (IH (Z.to_nat (Z.shiftr value 7)) ltac:(lia) _ eq_refl)
      as (Hterm & Hval & Hlen).
    rewrite fmap_cons.
    set (rest := byte_of_Z <$> encode_varint_loop (Z.shiftr value 7) []) in *.
    split; [|split].
    + cbn [varint_terminated]. rewrite Z_of_byte_small by lia.
      replace (128 <=? value mod 128 + 128) with true
        by (symmetry; apply Z.leb_le; lia).
      destruct rest; [done|]. by rewrite Hterm.
    + intros Hnn. cbn [varint_value]. rewrite Z_of_byte_small by lia.
      rewrite Hval by lia. rewrite land_127, Hsh.
      replace (value mod 128 + 128) with (value mod 128 + 1 * 128) by lia.
      rewrite Z.mod_add, Z.mod_mod by lia.
      pose proof (Z.div_mod value 128). lia.
    + intros k Hk Hbound. destruct k as [|k]; [lia|]. cbn [length].
      destruct k as [|k]; [cbn in Hbound; lia|].
      apply le_n_S, Hlen; [lia|]. rewrite Hsh.
      apply Z.div_lt_upper_bound; [lia|].
      replace (Z.of_nat (S (S k))) with (Z.of_nat (S k) + 1) in Hbound by lia.
      rewrite Z.pow_add_r in Hbound by lia. lia.
  - split; [|split].
    + cbn. rewrite Z_of_byte_small by lia. apply Z.ltb_lt. lia.
    + intros Hnn. cbn. rewrite Z_of_byte_small by lia.
      rewrite land_127, Z.mod_mod by lia. rewrite Z.mod_small by lia. lia.
    + intros k Hk _. cbn. lia.
Qed.

(** X9: [encode_varint] never raises.  Every byte of its result but the
    last has the continuation bit set and the last has not; for a value
    that is not negative the result stands for that value, so different
    values have different encodings; a value up to [0x7f] takes one byte
    and a 32-bit value at most five.  A negative value comes out as the
    single byte of its low seven bits. *)
Theorem encode_varint_correct (value : Z) :
  exists bs,
    encode_varint value = Ok bs
    /\ varint_terminated bs = true
    /\ (0 <= value -> varint_value bs = value)
    /\ (value <= 0x7f -> bs = [byte_of_Z (value mod 128)])
    /\ (value <= 0xFFFFFFFF -> len bs <= 5).
Proof.
  exists (byte_of_Z <$> encode_varint_loop value []).
  destruct (varint_facts _ value eq_refl) as (Hterm & Hval & Hlen).
  split; [apply encode_varint_bytes|]. split; [exact Hterm|].
  split; [exact Hval|]. split.
  - intros Hle. rewrite encode_varint_loop_unfold_nil.
    by destruct (Z.gtb_spec value 0x7f) as [Hgt|_]; [lia|].
  - intros Hle. specialize (Hlen 5%nat ltac:(lia)).
    unfold len. change (128 ^ Z.of_nat 5) with 34359738368 in Hlen. lia.
Qed.

End Varint.

(** ** The wire format of a configuration request *)

Lemma dec_enc_varint (n : nat) value :
  Z.to_nat value = n ->
  0 <= value ->
  WireCodec.dec_varint (WireCodec.enc_varint value) = Some (value, []).
Proof.
  revert value. induction n as [n IH] using lt_wf_ind. intros value Hn Hnn.
  unfold WireCodec.enc_varint. rewrite encode_varint_loop_unfold_nil.
  pose proof (Z.mod_pos_bound value 128 ltac:(lia)) as Hm.
  destruct (Z.gtb_spec value 0x7f) as [Hgt|Hle].
  - assert (Hdiv : 0 <= value / 128 < value).
    { split; [apply Z.div_pos; lia | apply Z.div_lt; lia]. }
    assert (Hsh : Z.shiftr value 7 = value / 128).
    { by rewrite Z.shiftr_div_pow2 by lia. }
    pose proof (IH (Z.to_nat (Z.shiftr value 7)) ltac:(lia) _ eq_refl
                  ltac:(lia)) as Hrest.
    unfold WireCodec.enc_varint in Hrest.
    rewrite fmap_cons. cbn [WireCodec.dec_varint].
    rewrite Z_of_byte_small by lia.
    destruct (Z.ltb_spec (value mod 128 + 128) 128) as [|_]; [lia|].
    rewrite Hrest. cbn [mbind option_bind]. rewrite Hsh.
    pose proof (Z.div_mod value 128). do 2 f_equal. lia.
  - cbn [fmap list_fmap WireCodec.dec_varint].
    rewrite Z_of_byte_small by lia.
    destruct (Z.ltb_spec (value mod 128) 128) as [_|]; [|lia].
    by rewrite Z.mod_small by lia.
Qed.

(** The wire codec is a codec: what it serialises it parses back. *)
Lemma wire_protobuf_laws : ProtobufLaws wire_protobuf.
Proof.
  split; intros m.
  - apply (RefCodecLaws.parse_all_enc _ _ m RefCodecLaws.dec_enc_FromRadio).
  - pose proof (RefCodecLaws.parse_all_enc _ _ m RefCodecLaws.dec_enc_ToRadio)
      as Href.
    cbn [ToRadio_ParseFromString ToRadio_SerializeToString wire_protobuf].
    destruct m as [|i|field raw]; try exact Href.
    unfold WireCodec.enc_ToRadio.
    destruct (Z.leb_spec 0 i) as [Hi|_]; [|exact Href].
    unfold WireCodec.dec_ToRadio.
    rewrite (dec_enc_varint _ i eq_refl Hi). reflexivity.
Qed.

(** C2, as stated, fails for a request that is not in the serialiser's
    encoding: the bridge writes the decoded request serialised again, not
    the bytes it read.  The request [18 87 00] is a [want_config_id] of 7
    whose varint carries a padding digit, which a protobuf parser
    accepts; with no complete cache the bridge writes [18 07] to the
    device.  And while the device is not connected a request that finds
    no complete cache is not forwarded at all. *)
Lemma config_request_counterexample :
  ToRadio_ParseFromString (Protobuf := wire_protobuf) [x18; x87; x00]
  = Ok (want_config_id 7)
  /\ config_cache_complete Scenario.cold_bridge = false
  /\ on_client_frame (pb := wire_protobuf) Scenario.cold_bridge 4
       [x18; x87; x00]
     = (Scenario.cold_bridge, [BleWrite [x18; x07]])
  /\ [x18; x07] <> [x18; x87; x00]
  /\ on_client_frame (set_ble_connected Scenario.cold_bridge false) 4
       Scenario.request
     = (set_ble_connected Scenario.cold_bridge false, []).
Proof.
  assert (Henc : WireCodec.enc_varint 7 = [x07]).
  { unfold WireCodec.enc_varint. by rewrite encode_varint_loop_unfold_nil. }
  split; [reflexivity|]. split; [reflexivity|].
  split; [|split; [discriminate|by vm_compute]].
  unfold on_client_frame, send_to_ble.
  cbn [ToRadio_ParseFromString ToRadio_SerializeToString wire_protobuf].
  change (WireCodec.dec_ToRadio [x18; x87; x00])
    with (Ok (want_config_id 7) : result ToRadio).
  change (config_cache_complete Scenario.cold_bridge) with false.
  change (config_cache Scenario.cold_bridge)
    with (Some [] : option (list entry)).
  change (ble_connected Scenario.cold_bridge) with true.
  cbn [mbind result_bind get_want_config_id negb WireCodec.enc_ToRadio].
  change (0 <=? 7) with true. cbn iota. rewrite Henc. reflexivity.
Qed.

(** ** The serial bridge: frames read from the port *)

Section SerialFrames.

Import Frame Serial.

Lemma byte_of_Z_of_byte b : byte_of_Z (Z_of_byte b) = b.
Proof.
  unfold byte_of_Z, Z_of_byte.
  pose proof (Byte.to_N_bounded b) as Hb.
  rewrite Z.mod_small by lia. rewrite N2Z.id, Byte.of_to_N. done.
Qed.

Lemma Z_of_byte_inj a b : Z_of_byte a = Z_of_byte b -> a = b.
Proof.
  intros H. by rewrite <- (byte_of_Z_of_byte a), <- (byte_of_Z_of_byte b), H.
Qed.

Lemma Z_of_byte_range b : 0 <= Z_of_byte b < 256.
Proof. unfold Z_of_byte. pose proof (Byte.to_N_bounded b). lia. Qed.

(** The two bytes read by [struct.unpack('>H')] are written back by
    [struct.pack('>H')]. *)
Lemma unpack_H_bytes hi lo :
  let n := Z.lor (Z.shiftl (Z_of_byte hi) 8) (Z_of_byte lo) in
  n = 256 * Z_of_byte hi + Z_of_byte lo
  /\ byte_of_Z (Z.shiftr n 8) = hi
  /\ byte_of_Z (Z.land n 255) = lo.
Proof.
  pose proof (Z_of_byte_range hi) as Hhi.
  pose proof (Z_of_byte_range lo) as Hlo. cbn zeta.
  assert (Hn : Z.lor (Z.shiftl (Z_of_byte hi) 8) (Z_of_byte lo)
               = 256 * Z_of_byte hi + Z_of_byte lo).
  { assert (Hdisj : Z.land (Z.shiftl (Z_of_byte hi) 8) (Z_of_byte lo) = 0).
    { apply Z.bits_inj'. intros i Hi. rewrite Z.land_spec, Z.bits_0.
      destruct (Z.ltb_spec i 8) as [Hlt|Hge].
      - by rewrite Z.shiftl_spec_low.
      - replace (Z_of_byte lo) with (Z_of_byte lo mod 2 ^ 8)
          by (apply Z.mod_small; lia).
        rewrite Z.mod_pow2_bits_high by lia. apply andb_false_r. }
    rewrite <- Z.lxor_lor, <- Z.add_nocarry_lxor by done.
    rewrite Z.shiftl_mul_pow2 by lia. lia. }
  rewrite Hn. split; [done|]. split.
  - rewrite Z.shiftr_div_pow2 by lia. change (2 ^ 8) with 256.
    replace ((256 * Z_of_byte hi + Z_of_byte lo) / 256) with (Z_of_byte hi).
    + apply byte_of_Z_of_byte.
    + symmetry. rewrite Z.add_comm, Z.mul_comm, Z.div_add by lia.
      rewrite Z.div_small by lia. lia.
  - change 255 with (Z.ones 8). rewrite Z.land_ones by lia.
    change (2 ^ 8) with 256.
    replace ((256 * Z_of_byte hi + Z_of_byte lo) mod 256) with (Z_of_byte lo).
    + apply byte_of_Z_of_byte.
    + symmetry. rewrite Z.add_comm, Z.mul_comm, Z.mod_add by lia.
      apply Z.mod_small. lia.
Qed.

(** X10: whatever is on the serial line, a frame returned by
    [_read_one_frame_blocking] is a prefix of the bytes read, starts with
    the two marker bytes, and is exactly the frame [create_tcp_frame]
    builds for its payload, so its payload has at most 512 bytes and its
    length field is right; the bytes after it are left for the next
    read.  When no frame is returned, the four header bytes are consumed,
    or (on a truncated frame) everything that was there. *)
Theorem read_one_frame_blocking_sound (stream : bytes) :
  match _read_one_frame_blocking stream with
  | (Some frame, rest) =>
      stream = frame ++ rest
      /\ create_tcp_frame (frame_payload frame) = Ok frame
      /\ take 2 frame = [x94; xc3]
      /\ len frame <= 516
  | (None, rest) => rest = drop 4 stream \/ rest = []
  end.
Proof.
  unfold _read_one_frame_blocking, serial_read, HEADER_SIZE.
  change (Z.to_nat 4) with 4%nat.
  destruct (Z.eqb_spec (len (take 4 stream)) 4) as [H4|_]; cbn [negb];
    [|by left].
  destruct stream as [|a [|b [|hi [|lo rest]]]];
    try (unfold len in H4; cbn in H4; lia).
  cbn [take drop]. rewrite take_0, !drop_0.
  cbn -[unpack_H Z.gtb Z.to_nat byte_at].
  change (byte_at [a; b; hi; lo] 0) with (Z_of_byte a).
  change (byte_at [a; b; hi; lo] 1) with (Z_of_byte b).
  destruct (Z.eqb_spec (Z_of_byte a) START1) as [Ha|_]; cbn [negb orb];
    [|by left].
  destruct (Z.eqb_spec (Z_of_byte b) START2) as [Hb|_]; cbn [negb];
    [|by left].
  cbn [unpack_H].
  destruct (unpack_H_bytes hi lo) as (Hn & Hhi & Hlo).
  set (n := Z.lor _ _) in *.
  destruct (Z.gtb_spec n MAX_PACKET_SIZE) as [Hgt|Hle]; [by left|].
  pose proof (Z_of_byte_range hi). pose proof (Z_of_byte_range lo).
  destruct (Z.eqb_spec (len (take (Z.to_nat n) rest)) n) as [Hlen|Hlen];
    cbn [negb].
  - assert (Ha' : a = x94) by (apply Z_of_byte_inj; exact Ha).
    assert (Hb' : b = xc3) by (apply Z_of_byte_inj; exact Hb).
    subst a b. split; [|split; [|split]].
    + cbn. by rewrite take_drop.
    + unfold frame_payload. cbn [drop app]. rewrite drop_0.
      rewrite create_tcp_frame_fits by (rewrite Hlen; exact Hle).
      by rewrite Hlen, Hhi, Hlo.
    + done.
    + unfold len in *. cbn [length app]. unfold MAX_PACKET_SIZE in Hle. lia.
  - right. apply nil_length_inv. rewrite length_drop.
    unfold len in Hlen. rewrite length_take in Hlen. lia.
Qed.

(** X11: for every 32-bit id, [build_want_config_packet] returns the
    frame [create_tcp_frame] builds for the payload made of the tag bytes
    [a0 06] (field 100, varint) and the varint of the id; the frame has
    at most eleven bytes, the id can be read back from it, and the frame
    reader accepts it whole. *)
Theorem build_want_config_packet_frame (config_id : Z) (rest : bytes) :
  0 <= config_id <= 0xFFFFFFFF ->
  exists value_bytes frame,
    encode_varint config_id = Ok value_bytes
    /\ build_want_config_packet config_id = Ok frame
    /\ create_tcp_frame ([xa0; x06] ++ value_bytes) = Ok frame
    /\ varint_value value_bytes = config_id
    /\ len frame <= 11
    /\ _read_one_frame_blocking (frame ++ rest) = (Some frame, rest).
Proof.
  intros Hid.
  pose proof (encode_varint_bytes config_id) as Henc.
  destruct (varint_facts _ config_id eq_refl) as (_ & Hval & Hlen).
  set (value_bytes := byte_of_Z <$> encode_varint_loop config_id []) in *.
  specialize (Hlen 5%nat ltac:(lia)).
  change (128 ^ Z.of_nat 5) with 34359738368 in Hlen.
  specialize (Hlen ltac:(lia)).
  assert (Htag : encode_varint (Z.lor (Z.shiftl 100 3) 0) = Ok [xa0; x06]).
  { rewrite encode_varint_bytes.
    change (Z.lor (Z.shiftl 100 3) 0) with 800.
    rewrite encode_varint_loop_unfold_nil.
    change (800 >? 127) with true. change (Z.shiftr 800 7) with 6.
    by rewrite encode_varint_loop_unfold_nil. }
  assert (Hfit : len ([xa0; x06] ++ value_bytes) <= MAX_PACKET_SIZE).
  { unfold len, MAX_PACKET_SIZE. cbn [length app]. lia. }
  pose proof (create_tcp_frame_fits _ Hfit) as Hframe.
  exists value_bytes. eexists. split; [exact Henc|].
  split; [|split; [exact Hframe|split; [by apply Hval; lia|split]]].
  - unfold build_want_config_packet. rewrite Htag, Henc.
    cbn [mbind result_bind].
    unfold create_tcp_frame in Hframe.
    destruct (_ >? _); [discriminate|].
    destruct (pack_BBH _ _ _) as [header|]; [|discriminate].
    exact Hframe.
  - unfold len. cbn [length app]. lia.
  - by apply (read_one_frame_blocking_frame ([xa0; x06] ++ value_bytes)).
Qed.

End SerialFrames.

(** ** The serial bridge: the ten-second config cache *)

Section SerialCache.

Import Serial.

Lemma broadcast_to_tcp_cache self fails frame clock1 clock2 :
  let self' := (Serial.broadcast_to_tcp self fails frame clock1 clock2).1 in
  let cached := cache_config_packet self frame clock1 clock2 in
  config_cache self' = config_cache cached
  /\ config_complete self' = config_complete cached
  /\ config_start_time self' = config_start_time cached.
Proof.
  unfold Serial.broadcast_to_tcp. cbn zeta.
  destruct (tcp_clients _); [done|].
  by destruct (broadcast_loop _ _ _ _).
Qed.

Lemma broadcast_all_frozen self fails arrivals :
  config_complete self = true ->
  let self' := (broadcast_all self fails arrivals).1 in
  config_cache self' = config_cache self
  /\ config_complete self' = true.
Proof.
  revert self.
  induction arrivals as [|[[frame clock1] clock2] rest IH]; intros self Hdone;
    [done|].
  cbn [broadcast_all].
  pose proof (broadcast_to_tcp_cache self fails frame clock1 clock2)
    as (Hc & Hd & _).
  unfold cache_config_packet in Hc, Hd. rewrite Hdone in Hc, Hd.
  cbn [negb] in Hc, Hd.
  destruct (Serial.broadcast_to_tcp self fails frame clock1 clock2)
    as [self1 evs]. cbn [fst] in *.
  assert (Hd1 : config_complete self1 = true) by (rewrite Hd; exact Hdone).
  specialize (IH self1 Hd1).
  destruct (broadcast_all self1 fails rest). cbn [fst] in *.
  by rewrite <- Hc.
Qed.

Lemma broadcast_all_window self fails start arrivals :
  config_complete self = false ->
  config_start_time self = Some start ->
  let inside :=
    take_while (fun a => Qltb (a.2 - start) CONFIG_CACHE_DURATION) arrivals in
  let self' := (broadcast_all self fails arrivals).1 in
  config_cache self' = config_cache self ++ ((fun a => a.1.1) <$> inside)
  /\ config_complete self' = negb (length inside =? length arrivals)%nat.
Proof.
  revert self.
  induction arrivals as [|[[frame clock1] clock2] rest IH];
    intros self Hdone Hstart.
  - cbn. by rewrite app_nil_r.
  - cbn [broadcast_all take_while snd fst].
    pose proof (broadcast_to_tcp_cache self fails frame clock1 clock2)
      as (Hc & Hd & Hs).
    unfold cache_config_packet in Hc, Hd, Hs.
    rewrite Hdone, Hstart in Hc, Hd, Hs.
    cbn [negb config_start_time default] in Hc, Hd, Hs.
    rewrite Hstart in Hc, Hd, Hs. cbn [from_option] in Hc, Hd, Hs.
    change (Datatypes.id start) with start in Hc, Hd, Hs.
    destruct (Serial.broadcast_to_tcp self fails frame clock1 clock2)
      as [self1 evs]. cbn [fst] in *.
    destruct (Qltb (clock2 - start) CONFIG_CACHE_DURATION).
    + cbn in Hc, Hd, Hs.
      assert (Hd1 : config_complete self1 = false) by (rewrite Hd; exact Hdone).
      assert (Hs1 : config_start_time self1 = Some start)
        by (rewrite Hs; exact Hstart).
      destruct (IH self1 Hd1 Hs1) as (IHc & IHd).
      destruct (broadcast_all self1 fails rest). cbn [fst] in *.
      rewrite IHc, Hc, <- app_assoc. by rewrite IHd.
    + cbn in Hc, Hd.
      destruct (broadcast_all_frozen self1 fails rest Hd) as (Fc & Fd).
      destruct (broadcast_all self1 fails rest). cbn [fst] in *.
      rewrite Fc, Hc, Fd. cbn. by rewrite app_nil_r.
Qed.

(** X12: the serial bridge caches by the clock.  From the first frame the
    device sends, every frame that arrives less than ten seconds after it
    is cached, in order; the first frame that arrives ten seconds or more
    after it closes the cache and is not cached, and after that nothing
    is added, whatever arrives and whenever.  A client that connects once
    the cache is closed is sent exactly the cached frames, in order,
    however the rest of its connection goes. *)
Theorem config_window (self : SerialBridge) (fails : nat -> bool)
    (frame : bytes) (start clock : Q) (rest : list (bytes * Q * Q)) :
  config_complete self = false ->
  config_start_time self = None ->
  let arrivals := (frame, start, clock) :: rest in
  let inside :=
    take_while (fun a => Qltb (a.2 - start) CONFIG_CACHE_DURATION) arrivals in
  let self' := (broadcast_all self fails arrivals).1 in
  config_cache self' = config_cache self ++ ((fun a => a.1.1) <$> inside)
  /\ config_complete self' = negb (length inside =? length arrivals)%nat
  /\ (config_complete self' = true ->
      (forall later,
         config_cache (broadcast_all self' fails later).1 = config_cache self')
      /\ forall writer stream,
           (Serial.handle_tcp_client self' writer stream).1.2
           = map (TcpWrite writer) (config_cache self')).
Proof.
  intros Hdone Hstart. cbn zeta.
  set (self0 := set_config_requested
                  (set_config_start_time self (Some start)) true).
  assert (Hsame : broadcast_all self fails ((frame, start, clock) :: rest)
                  = broadcast_all self0 fails ((frame, start, clock) :: rest)).
  { cbn [broadcast_all]. unfold Serial.broadcast_to_tcp, cache_config_packet.
    rewrite Hdone, Hstart. subst self0.
    cbn [negb config_complete config_start_time set_config_requested
         set_config_start_time default].
    by rewrite Hdone. }
  rewrite Hsame.
  destruct (broadcast_all_window self0 fails start
              ((frame, start, clock) :: rest) Hdone eq_refl) as (Hc & Hd).
  split; [exact Hc|]. split; [exact Hd|].
  intros Hclosed. split.
  - intros later.
    by destruct (broadcast_all_frozen _ fails later Hclosed) as (-> & _).
  - intros writer stream. unfold Serial.handle_tcp_client, replay_cached.
    cbn [fst snd config_complete config_cache Serial.set_tcp_clients].
    rewrite Hclosed. cbn [andb].
    by destruct (config_cache _).
Qed.

End SerialCache.

(** ** The serial bridge: bytes from a client *)

Section SerialClient.

Import Frame Serial.

Lemma client_loop_step self outer wake_buffer stream :
  client_loop self outer wake_buffer stream
  = match client_step self outer wake_buffer stream with
    | Stop writes => writes
    | Continue writes outer' wake_buffer' stream' =>
        writes ++ client_loop self outer' wake_buffer' stream'
    end.
Proof.
  funelim (client_loop self outer wake_buffer stream).
  - match goal with H : client_step _ _ _ _ = Stop _ |- _ => by rewrite H end.
  - by rewrite Hstep.
Qed.

Lemma client_loop_outer self outer wake_buffer stream :
  running self = true ->
  client_loop self outer wake_buffer stream
  = client_loop self true wake_buffer stream.
Proof.
  intros Hrun. rewrite (client_loop_step self outer), (client_loop_step self true).
  unfold client_step. rewrite Hrun. cbn [negb]. by rewrite !andb_false_r.
Qed.

Lemma client_step_noise self wake_buffer b stream :
  running self = true -> serial_open self = true ->
  Z_of_byte b <> START1 ->
  client_step self true wake_buffer (b :: stream)
  = if 32 <=? len (wake_buffer ++ [b])
    then Continue [wake_buffer ++ [b]] false [] stream
    else Continue [] false (wake_buffer ++ [b]) stream.
Proof.
  intros Hrun Hopen Hb. unfold client_step, readexactly.
  rewrite Hrun, Hopen. cbn [negb andb].
  replace (1 <=? len (b :: stream)) with true
    by (symmetry; apply Z.leb_le; unfold len; cbn [length]; lia).
  change (Z.to_nat 1) with 1%nat. cbn [take drop]. rewrite take_0, drop_0.
  change (byte_at [b] 0) with (Z_of_byte b).
  destruct (Z.eqb_spec (Z_of_byte b) START1) as [|_]; [done|].
  by rewrite andb_true_r.
Qed.

Lemma client_step_frame self wake_buffer p frame rest :
  running self = true -> serial_open self = true ->
  create_tcp_frame p = Ok frame ->
  client_step self true wake_buffer (frame ++ rest)
  = Continue ((if 0 =? len wake_buffer then [] else [wake_buffer]) ++ [frame])
      true [] rest.
Proof.
  intros Hrun Hopen Hf.
  destruct (create_tcp_frame_inv p frame Hf) as (Hle & _ & _).
  rewrite create_tcp_frame_fits in Hf by done. injection Hf as <-.
  assert (Hnn : 0 <= len p) by (unfold len; lia).
  unfold MAX_PACKET_SIZE in Hle.
  assert (Hunpack := length_bytes_roundtrip (len p) ltac:(lia)).
  unfold client_step, readexactly. rewrite Hrun, Hopen. cbn [negb andb].
  change (Z.to_nat 1) with 1%nat. change (Z.to_nat 2) with 2%nat.
  set (hi := byte_of_Z (Z.shiftr (len p) 8)) in *.
  set (lo := byte_of_Z (Z.land (len p) 255)) in *.
  assert (H1 : forall (x : byte) l, (1 <=? len (x :: l)) = true).
  { intros x l. apply Z.leb_le. unfold len. cbn [length]. lia. }
  assert (H2 : forall (x y : byte) l, (2 <=? len (x :: y :: l)) = true).
  { intros x y l. apply Z.leb_le. unfold len. cbn [length]. lia. }
  cbn [app]. rewrite H1. cbn [take drop].
  change (byte_at [x94] 0 =? START1) with true. cbn match.
  rewrite H1. cbn [take drop].
  change (byte_at [xc3] 0 =? START2) with true. cbn [negb].
  rewrite H2. cbn [take drop]. rewrite take_0, drop_0, Hunpack.
  destruct (Z.gtb_spec (len p) MAX_PACKET_SIZE) as [Hgt|_];
    [unfold MAX_PACKET_SIZE in Hgt; lia|].
  replace (len p <=? len (p ++ rest)) with true
    by (symmetry; apply Z.leb_le; unfold len; rewrite length_app; lia).
  rewrite take_len_app, drop_len_app.
  rewrite andb_true_r. destruct wake_buffer as [|w wb]; [reflexivity|].
  replace (0 =? len (w :: wb)) with false; [reflexivity|].
  symmetry. apply Z.eqb_neq. unfold len. cbn [length]. lia.
Qed.

Lemma client_loop_noise_frame self noise p frame rest wake_buffer :
  running self = true -> serial_open self = true ->
  Forall (fun b => Z_of_byte b <> START1) noise ->
  create_tcp_frame p = Ok frame ->
  len wake_buffer < 32 ->
  exists writes,
    client_loop self true wake_buffer (noise ++ frame ++ rest)
    = writes ++ [frame] ++ client_loop self true [] rest
    /\ concat writes = wake_buffer ++ noise
    /\ Forall (fun w => 0 < len w <= 32) writes.
Proof.
  intros Hrun Hopen Hnoise Hf. revert wake_buffer.
  induction Hnoise as [|b noise Hb _ IH]; intros wake_buffer Hwb.
  - cbn [app]. rewrite client_loop_step.
    rewrite (client_step_frame self wake_buffer p frame rest Hrun Hopen Hf).
    exists (if 0 =? len wake_buffer then [] else [wake_buffer]).
    split; [by rewrite <- app_assoc|].
    destruct (Z.eqb_spec 0 (len wake_buffer)) as [H0|H0].
    + split; [|done]. destruct wake_buffer; [done|].
      unfold len in H0. cbn in H0. lia.
    + split; [cbn; by rewrite !app_nil_r|].
      constructor; [|done]. unfold len in *. lia.
  - cbn [app]. rewrite client_loop_step.
    rewrite (client_step_noise self wake_buffer b _ Hrun Hopen Hb).
    assert (Hlen : len (wake_buffer ++ [b]) = len wake_buffer + 1).
    { unfold len. rewrite length_app. cbn. lia. }
    destruct (Z.leb_spec 32 (len (wake_buffer ++ [b]))) as [Hfull|Hroom].
    + rewrite (client_loop_outer self false) by done.
      destruct (IH [] ltac:(done)) as (writes & -> & Hcat & Hall).
      exists ((wake_buffer ++ [b]) :: writes).
      split; [done|]. split.
      * cbn [concat]. cbn [app] in Hcat. by rewrite Hcat, <- app_assoc.
      * constructor; [lia|done].
    + rewrite (client_loop_outer self false) by done.
      destruct (IH (wake_buffer ++ [b]) ltac:(lia)) as (writes & -> & Hcat & Hall).
      exists writes. split; [done|]. split; [|done].
      by rewrite Hcat, <- app_assoc.
Qed.

(** X13: what a client sends reaches the serial port unchanged.  With the
    port open, any bytes that hold no [0x94], followed by a well-formed
    frame, are written to the port as those bytes, in order, in writes of
    at most 32 bytes, and then the frame in one write of its own, byte
    for byte; the loop then goes on with what follows the frame, with
    nothing left buffered. *)
Theorem client_bytes_forwarded (self : SerialBridge) (noise p frame rest : bytes) :
  running self = true ->
  serial_open self = true ->
  Forall (fun b => Z_of_byte b <> START1) noise ->
  create_tcp_frame p = Ok frame ->
  exists writes,
    client_loop self true [] (noise ++ frame ++ rest)
    = writes ++ [frame] ++ client_loop self true [] rest
    /\ concat writes = noise
    /\ Forall (fun w => 0 < len w <= 32) writes.
Proof.
  intros Hrun Hopen Hnoise Hf.
  by apply (client_loop_noise_frame self noise p frame rest []).
Qed.

Lemma leb_len_cons1 (x : byte) l : (1 <=? len (x :: l)) = true.
Proof. apply Z.leb_le. unfold len. cbn [length]. lia. Qed.

Lemma leb_len_cons2 (x y : byte) l : (2 <=? len (x :: y :: l)) = true.
Proof. apply Z.leb_le. unfold len. cbn [length]. lia. Qed.

(** X14: what the client loop of the serial bridge throws away.  After a
    [0x94], a byte that is not [0xC3] is dropped together with the
    [0x94]; a header that announces more than 512 bytes is dropped, and
    what follows it is read as new input; a frame cut short by the end of
    the connection is not written at all, not even in part.  When the
    serial port is closed, a complete frame from the client ends the
    loop with nothing written. *)
Theorem client_malformed_dropped (self : SerialBridge) :
  running self = true ->
  (forall b rest,
     Z_of_byte b <> START2 ->
     client_loop self true [] (x94 :: b :: rest) = client_loop self true [] rest)
  /\ (forall hi lo rest,
        512 < 256 * Z_of_byte hi + Z_of_byte lo ->
        client_loop self true [] (x94 :: xc3 :: hi :: lo :: rest)
        = client_loop self true [] rest)
  /\ (forall p frame (k : nat),
        create_tcp_frame p = Ok frame ->
        (k < length frame)%nat ->
        client_loop self true [] (take k frame) = [])
  /\ (serial_open self = false ->
      forall p frame rest,
        create_tcp_frame p = Ok frame ->
        client_loop self true [] (frame ++ rest) = []).
Proof.
  intros Hrun.
  assert (Hhead : forall stream,
    client_step self true [] (x94 :: stream)
    = match readexactly 1 stream with
      | Raise _ => Stop []
      | Ok (b, stream) =>
          if negb (byte_at b 0 =? START2) then Continue [] true [] stream
          else
            match readexactly 2 stream with
            | Raise _ => Stop []
            | Ok (length_bytes, stream) =>
                match unpack_H length_bytes with
                | Raise _ => Stop []
                | Ok length =>
                    if length >? MAX_PACKET_SIZE
                    then Continue [] true [] stream
                    else
                      match readexactly length stream with
                      | Raise _ => Stop []
                      | Ok (payload, stream) =>
                          if serial_open self
                          then Continue
                                 [[byte_of_Z START1; byte_of_Z START2]
                                  ++ length_bytes ++ payload] true [] stream
                          else Stop []
                      end
                end
            end
      end).
  { intros stream. unfold client_step. rewrite Hrun. cbn [negb andb].
    unfold readexactly at 1. rewrite leb_len_cons1.
    change (Z.to_nat 1) with 1%nat. cbn [take drop]. rewrite ?take_0, ?drop_0.
    change (byte_at [x94] 0 =? START1) with true.
    change (0 =? len []) with true. cbn [negb andb]. reflexivity. }
  split; [|split; [|split]].
  - intros b rest Hb. rewrite client_loop_step, Hhead.
    unfold readexactly. rewrite leb_len_cons1.
    change (Z.to_nat 1) with 1%nat. cbn [take drop]. rewrite ?take_0, ?drop_0.
    change (byte_at [b] 0) with (Z_of_byte b).
    by destruct (Z.eqb_spec (Z_of_byte b) START2).
  - intros hi lo rest Hlen. rewrite client_loop_step, Hhead.
    unfold readexactly at 1. rewrite leb_len_cons1.
    change (Z.to_nat 1) with 1%nat. cbn [take drop]. rewrite ?take_0, ?drop_0.
    change (byte_at [xc3] 0 =? START2) with true. cbn [negb].
    unfold readexactly at 1. rewrite leb_len_cons2.
    change (Z.to_nat 2) with 2%nat. cbn [take drop]. rewrite ?take_0, ?drop_0.
    cbn [unpack_H]. destruct (unpack_H_bytes hi lo) as (-> & _ & _).
    by destruct (Z.gtb_spec (256 * Z_of_byte hi + Z_of_byte lo) MAX_PACKET_SIZE)
      as [_|Hle]; [|unfold MAX_PACKET_SIZE in Hle; lia].
  - intros p frame k Hf Hk.
    destruct (create_tcp_frame_inv p frame Hf) as (Hle & _ & _).
    rewrite create_tcp_frame_fits in Hf by done. injection Hf as <-.
    assert (Hnn : 0 <= len p) by (unfold len; lia).
    unfold MAX_PACKET_SIZE in Hle.
    assert (Hunpack := length_bytes_roundtrip (len p) ltac:(lia)).
    set (hi := byte_of_Z (Z.shiftr (len p) 8)) in *.
    set (lo := byte_of_Z (Z.land (len p) 255)) in *.
    cbn [app length] in Hk |- *.
    destruct k as [|[|[|[|k]]]]; cbn [take].
    + rewrite client_loop_step. unfold client_step. by rewrite Hrun.
    + rewrite ?take_0, client_loop_step, Hhead. done.
    + rewrite ?take_0, client_loop_step, Hhead.
      unfold readexactly at 1. rewrite leb_len_cons1.
      change (Z.to_nat 1) with 1%nat. cbn [take drop]. rewrite ?take_0, ?drop_0.
      change (byte_at [xc3] 0 =? START2) with true. done.
    + rewrite ?take_0, client_loop_step, Hhead.
      unfold readexactly at 1. rewrite leb_len_cons1.
      change (Z.to_nat 1) with 1%nat. cbn [take drop]. rewrite ?take_0, ?drop_0.
      change (byte_at [xc3] 0 =? START2) with true. done.
    + rewrite client_loop_step, Hhead.
      unfold readexactly at 1. rewrite leb_len_cons1.
      change (Z.to_nat 1) with 1%nat. cbn [take drop]. rewrite ?take_0, ?drop_0.
      change (byte_at [xc3] 0 =? START2) with true. cbn [negb].
      unfold readexactly at 1. rewrite leb_len_cons2.
      change (Z.to_nat 2) with 2%nat. cbn [take drop]. rewrite ?take_0, ?drop_0.
      rewrite Hunpack.
      destruct (Z.gtb_spec (len p) MAX_PACKET_SIZE) as [Hgt|_];
        [unfold MAX_PACKET_SIZE in Hgt; lia|].
      unfold readexactly.
      destruct (Z.leb_spec (len p) (len (take k p))) as [Hbad|_]; [|done].
      unfold len in Hbad. rewrite length_take in Hbad. lia.
  - intros Hclosed p frame rest Hf.
    destruct (create_tcp_frame_inv p frame Hf) as (Hle & _ & _).
    rewrite create_tcp_frame_fits in Hf by done. injection Hf as <-.
    assert (Hnn : 0 <= len p) by (unfold len; lia).
    unfold MAX_PACKET_SIZE in Hle.
    assert (Hunpack := length_bytes_roundtrip (len p) ltac:(lia)).
    set (hi := byte_of_Z (Z.shiftr (len p) 8)) in *.
    set (lo := byte_of_Z (Z.land (len p) 255)) in *.
    cbn [app]. rewrite client_loop_step, Hhead.
    unfold readexactly at 1. rewrite leb_len_cons1.
    change (Z.to_nat 1) with 1%nat. cbn [take drop]. rewrite ?take_0, ?drop_0.
    change (byte_at [xc3] 0 =? START2) with true. cbn [negb].
    unfold readexactly at 1. rewrite leb_len_cons2.
    change (Z.to_nat 2) with 2%nat. cbn [take drop]. rewrite ?take_0, ?drop_0.
    rewrite Hunpack.
    destruct (Z.gtb_spec (len p) MAX_PACKET_SIZE) as [Hgt|_];
      [unfold MAX_PACKET_SIZE in Hgt; lia|].
    unfold readexactly. rewrite Hclosed.
    by destruct (len p <=? len (p ++ rest)).
Qed.

End SerialClient.

(** ** The serial bridge: the frame queue *)

Section SerialQueue.

Import Serial.

Lemma set_frame_queue_rest self self' q q' :
  set_frame_queue self' q = set_frame_queue self q ->
  set_frame_queue self' q' = set_frame_queue self q'.
Proof.
  destruct self, self'. unfold set_frame_queue. cbn.
  by intros [= -> -> -> -> -> -> ->].
Qed.

Lemma set_frame_queue_same self : set_frame_queue self (frame_queue self) = self.
Proof. by destruct self. Qed.

Lemma run_queue_spec self schedule :
  len (frame_queue self) <= FRAME_QUEUE_MAXSIZE ->
  let puts :=
    omap (fun a => match a with Put f => Some f | Get => None end) schedule in
  let '(self', delivered) := run_queue self schedule in
  len (frame_queue self') <= FRAME_QUEUE_MAXSIZE
  /\ sublist (delivered ++ frame_queue self') (frame_queue self ++ puts)
  /\ (len (frame_queue self) + len puts <= FRAME_QUEUE_MAXSIZE ->
      delivered ++ frame_queue self' = frame_queue self ++ puts)
  /\ set_frame_queue self' (frame_queue self) = self.
Proof.
  cbn zeta. revert self.
  induction schedule as [|[frame|] schedule IH]; intros self Hcap.
  - cbn. rewrite app_nil_r. split; [done|]. split; [done|]. split; [done|].
    by destruct self.
  - cbn [run_queue omap list_omap]. unfold queue_put.
    destruct (Z.ltb_spec (len (frame_queue self)) FRAME_QUEUE_MAXSIZE)
      as [Hroom|Hfull].
    + specialize (IH (set_frame_queue self (frame_queue self ++ [frame]))).
      cbn [frame_queue set_frame_queue] in IH.
      assert (Hlen : len (frame_queue self ++ [frame])
                     = len (frame_queue self) + 1).
      { unfold len. rewrite length_app. cbn. lia. }
      specialize (IH ltac:(lia)).
      destruct (run_queue _ schedule) as [self' delivered].
      destruct IH as (Hcap' & Hsub & Hall & Hrest).
      rewrite <- app_assoc in Hsub, Hall. cbn [app] in Hsub, Hall.
      split; [done|]. split; [done|]. split.
      * intros Hfit. apply Hall. unfold len in *. cbn [length] in Hfit. lia.
      * rewrite (set_frame_queue_rest self self' _ (frame_queue self) Hrest).
        apply set_frame_queue_same.
    + specialize (IH self Hcap).
      destruct (run_queue self schedule) as [self' delivered].
      destruct IH as (Hcap' & Hsub & Hall & Hrest).
      split; [done|]. split; [|split; [|done]].
      * etrans; [exact Hsub|]. apply sublist_app; [done|].
        by apply sublist_cons.
      * intros Hfit. unfold len in *. cbn [length] in Hfit. lia.
  - cbn [run_queue omap list_omap]. unfold queue_get.
    destruct (frame_queue self) as [|f q] eqn:Hq.
    + specialize (IH self ltac:(by rewrite Hq)). rewrite Hq in IH.
      by destruct (run_queue self schedule) as [self' delivered].
    + specialize (IH (set_frame_queue self q)).
      cbn [frame_queue set_frame_queue] in IH.
      assert (Hlen : len (f :: q) = len q + 1).
      { unfold len. cbn [length]. lia. }
      specialize (IH ltac:(lia)).
      destruct (run_queue _ schedule) as [self' delivered].
      destruct IH as (Hcap' & Hsub & Hall & Hrest).
      split; [done|]. split; [|split].
      * cbn [app]. by apply sublist_skip.
      * intros Hfit. cbn [app]. f_equal. apply Hall. lia.
      * rewrite (set_frame_queue_rest self self' _ (f :: q) Hrest).
        rewrite <- Hq. apply set_frame_queue_same.
Qed.

(** X15: the queue between the serial reader thread and the broadcaster.
    However the two are interleaved, the queue never holds more than 200
    frames; the frames handed to the broadcaster, followed by those still
    queued, are frames that were queued or put, in the order they came,
    none of them twice; nothing is lost as long as the frames put, with
    those queued at the start, do not exceed 200; and nothing of the
    bridge but the queue is touched. *)
Theorem frame_queue_bounded_fifo (self : SerialBridge)
    (schedule : list queue_action) :
  len (frame_queue self) <= FRAME_QUEUE_MAXSIZE ->
  let puts :=
    omap (fun a => match a with Put f => Some f | Get => None end) schedule in
  let self' := (run_queue self schedule).1 in
  let delivered := (run_queue self schedule).2 in
  len (frame_queue self') <= 200
  /\ sublist (delivered ++ frame_queue self') (frame_queue self ++ puts)
  /\ (len (frame_queue self) + len puts <= 200 ->
      delivered ++ frame_queue self' = frame_queue self ++ puts)
  /\ set_frame_queue self' (frame_queue self) = self.
Proof.
  intros Hcap. cbn zeta.
  pose proof (run_queue_spec self schedule Hcap) as Hspec. cbn zeta in Hspec.
  by destruct (run_queue self schedule) as [self' delivered].
Qed.

End SerialQueue.

(** ** The BLE bridge: what a client request can do *)

Section ClientRequests.

Context {pb : Protobuf} {py : PyHash}.

Import Frame.

Lemma replay_events_to_writer writer frames :
  Forall (fun e => exists data, e = TcpWrite writer data)
    (map (TcpWrite writer) frames).
Proof. induction frames; constructor; [by eexists|done]. Qed.

(** X16: a client request never changes the bridge, and what it causes
    is one of three things: frames written to the requesting client and
    to no other (the replay of a complete cache), one write to the
    device (only when the device is connected), or nothing.  A request
    that does not decode causes nothing, and so does any request that
    would go to the device while the device is not connected. *)
Theorem client_request_isolated (self : Bridge) (writer : nat)
    (protobuf_bytes : bytes) :
  let evs := (on_client_frame self writer protobuf_bytes).2 in
  (on_client_frame self writer protobuf_bytes).1 = self
  /\ (Forall (fun e => exists data, e = TcpWrite writer data) evs
      \/ (ble_connected self = true /\ exists data, evs = [BleWrite data]))
  /\ ((forall e, ToRadio_ParseFromString protobuf_bytes = Raise e -> evs = [])
      /\ (ble_connected self = false ->
          config_cache_complete self = false -> evs = [])).
Proof.
  cbn zeta. unfold on_client_frame. cbn [fst snd].
  split; [done|].
  destruct (ToRadio_ParseFromString protobuf_bytes) as [to_radio|x];
    cbn [mbind result_bind try_except].
  2:{ split; [by left|]. done. }
  assert (Hsend :
    Forall (fun e => exists data, e = TcpWrite writer data)
      (try_except (send_to_ble self to_radio) [])
    \/ (ble_connected self = true
        /\ exists data, try_except (send_to_ble self to_radio) [] = [BleWrite data])).
  { unfold send_to_ble. destruct (ble_connected self); cbn.
    - right. split; [done|]. by eexists.
    - by left. }
  assert (Hoff : ble_connected self = false ->
                 try_except (send_to_ble self to_radio) [] = []).
  { unfold send_to_ble. by intros ->. }
  split; [|split; [done|]].
  - destruct (config_cache self) as [cache|]; [|exact Hsend].
    destruct (config_cache_complete self); [|exact Hsend].
    destruct (get_want_config_id to_radio); [|exact Hsend].
    left. cbn. apply replay_events_to_writer.
  - intros Hconn Hdone. rewrite Hdone.
    destruct (config_cache self); by apply Hoff.
Qed.

(** X17: the client reader of the BLE bridge takes the length field at
    its word.  A header with the two marker bytes and any 16-bit length
    is followed by reading that many bytes, which are handled as one
    request, also when they are more than the 512 bytes a frame may
    carry towards the client; a header whose first two bytes are not the
    markers costs exactly its four bytes and nothing more. *)
Theorem client_frame_length_unchecked (self : Bridge) (writer : nat)
    (p rest : bytes) :
  len p < 65536 ->
  handle_tcp_client_step self writer
    ([x94; xc3; byte_of_Z (Z.shiftr (len p) 8); byte_of_Z (Z.land (len p) 255)]
     ++ p ++ rest)
  = Ok (on_client_frame self writer p, rest)
  /\ (512 < len p -> create_tcp_frame p = Raise ValueError)
  /\ forall a b c d,
       Z_of_byte a <> START1 \/ Z_of_byte b <> START2 ->
       handle_tcp_client_step self writer (a :: b :: c :: d :: rest)
       = Ok (self, [], rest).
Proof.
  intros Hlen. assert (Hnn : 0 <= len p) by (unfold len; lia).
  assert (Hunpack := length_bytes_roundtrip (len p) ltac:(lia)).
  assert (H4 : forall (a b c d : byte) l,
            (4 <=? len (a :: b :: c :: d :: l)) = true).
  { intros. apply Z.leb_le. unfold len. cbn [length]. lia. }
  split; [|split].
  - unfold handle_tcp_client_step, read_tcp_frame, readexactly.
    cbn [app]. rewrite H4. change (Z.to_nat 4) with 4%nat.
    cbn [take drop mbind result_bind]. rewrite !take_0, drop_0.
    change (byte_at [x94; xc3; _; _] 0 =? START1) with true.
    change (byte_at [x94; xc3; _; _] 1 =? START2) with true.
    cbn [negb orb]. rewrite Hunpack. cbn [mbind result_bind].
    replace (len p <=? len (p ++ rest)) with true
      by (symmetry; apply Z.leb_le; unfold len; rewrite length_app; lia).
    cbn [mbind result_bind]. rewrite take_len_app, drop_len_app.
    by destruct (on_client_frame self writer p).
  - apply create_tcp_frame_too_large.
  - intros a b c d Hbad.
    unfold handle_tcp_client_step, read_tcp_frame, readexactly.
    rewrite H4. change (Z.to_nat 4) with 4%nat.
    cbn [take drop mbind result_bind]. rewrite ?take_0, ?drop_0.
    change (byte_at [a; b; c; d] 0) with (Z_of_byte a).
    change (byte_at [a; b; c; d] 1) with (Z_of_byte b).
    destruct (Z.eqb_spec (Z_of_byte a) START1) as [Ha|_]; [|done].
    destruct (Z.eqb_spec (Z_of_byte b) START2) as [Hb|_]; [|done].
    by destruct Hbad.
Qed.

End ClientRequests.

(** ** Concrete runs for the further properties *)

Lemma packet_forwarding_witness :
  (on_ble_packet MoreScenarios.two_clients [x01; x02] 10 0).2
  = [TcpWrite 1 [x94; xc3; x00; x02; x01; x02];
     TcpWrite 2 [x94; xc3; x00; x02; x01; x02]]
  /\ (on_ble_packet MoreScenarios.two_clients (replicate 513 x2a) 10 0).2 = [].
Proof.
  split.
  - exact (proj1 (packet_forwarding MoreScenarios.two_clients [x01; x02] 10 0
                    ltac:(by vm_compute))).
  - exact (proj1 (packet_forwarding MoreScenarios.two_clients
                    (replicate 513 x2a) 10 0 ltac:(by vm_compute))).
Defined.

Lemma cache_stays_off_witness :
  cache_of (deliver MoreScenarios.uncached MoreScenarios.three_packets).1
  = cache_of MoreScenarios.uncached
  /\ forall writer request,
       (on_client_frame
          (deliver MoreScenarios.uncached MoreScenarios.three_packets).1
          writer request).2
       = try_except
           (to_radio ← ToRadio_ParseFromString request;
            send_to_ble MoreScenarios.uncached to_radio)
           [].
Proof.
  apply (cache_stays_off MoreScenarios.uncached MoreScenarios.three_packets).
  left. reflexivity.
Defined.

Lemma eviction_any_cap_witness :
  exists cache',
    config_cache
      (record_all (recording 0 7)
         (MoreScenarios.three_entries ++ [entry_of (complete_msg 7)]) 0)
    = Some cache'
    /\ config_cache_complete
         (record_all (recording 0 7)
            (MoreScenarios.three_entries ++ [entry_of (complete_msg 7)]) 0)
       = true
    /\ recording_config
         (record_all (recording 0 7)
            (MoreScenarios.three_entries ++ [entry_of (complete_msg 7)]) 0)
       = false
    /\ node_entries cache' = drop 2 (node_entries MoreScenarios.three_entries)
    /\ len (node_entries cache') = 0
    /\ other_entries cache'
       = other_entries MoreScenarios.three_entries ++ [entry_of (complete_msg 7)]
    /\ list.last cache' = Some (entry_of (complete_msg 7)).
Proof.
  exact (eviction_any_cap (recording 0 7) MoreScenarios.three_entries
           (entry_of (complete_msg 7)) 7 0
           ltac:(by vm_compute) ltac:(by vm_compute) ltac:(by vm_compute)
           ltac:(by vm_compute) ltac:(by vm_compute)).
Defined.

Lemma reachable_cache_invariant_witness :
  cache_well_formed
    (prewarm_cache MoreScenarios.connected MoreScenarios.answering).1
  /\ (config_cache
        (prewarm_cache MoreScenarios.connected MoreScenarios.answering).1 = None
      <-> cache_nodes
            (prewarm_cache MoreScenarios.connected MoreScenarios.answering).1
          = false)
  /\ forall cache,
       config_cache
         (prewarm_cache MoreScenarios.connected MoreScenarios.answering).1
       = Some cache ->
       Forall entry_consistent cache.
Proof.
  apply reachable_cache_invariant.
  apply reachable_prewarm_cache; [|reflexivity].
  apply (reachable_connect_ble (init true 500) _ [PollTaskStarted]);
    [|reflexivity].
  apply reachable_init.
Defined.

Lemma client_connection_witness :
  handle_tcp_client Scenario.bridge 5
    (concat [frame_of Scenario.request; frame_of Scenario.request] ++ [x94])
  = (Scenario.bridge,
     concat (map (fun p => (on_client_frame Scenario.bridge 5 p).2)
               [Scenario.request; Scenario.request]))
  /\ tcp_clients (accept_client Scenario.bridge 5)
     = tcp_clients Scenario.bridge ++ [5%nat].
Proof.
  apply (client_connection Scenario.bridge 5
           [Scenario.request; Scenario.request]
           [frame_of Scenario.request; frame_of Scenario.request] [x94]).
  - by vm_compute.
  - by vm_compute.
  - repeat constructor.
  - by vm_compute.
Defined.

Lemma build_want_config_packet_frame_witness :
  exists value_bytes frame,
    Serial.encode_varint 0xFFFFFFFF = Ok value_bytes
    /\ Serial.build_want_config_packet 0xFFFFFFFF = Ok frame
    /\ Frame.create_tcp_frame ([xa0; x06] ++ value_bytes) = Ok frame
    /\ varint_value value_bytes = 0xFFFFFFFF
    /\ len frame <= 11
    /\ Frame._read_one_frame_blocking (frame ++ [x94]) = (Some frame, [x94]).
Proof.
  apply (build_want_config_packet_frame 0xFFFFFFFF [x94]). lia.
Defined.

Lemma config_window_witness :
  Serial.config_cache
    (broadcast_all Serial.init (fun _ => false)
       ((frame_of [x01], 100%Q, 100%Q) :: MoreScenarios.four_arrivals)).1
  = [frame_of [x01]; frame_of [x02]]
  /\ Serial.config_complete
       (broadcast_all Serial.init (fun _ => false)
          ((frame_of [x01], 100%Q, 100%Q) :: MoreScenarios.four_arrivals)).1
     = true
  /\ (Serial.config_complete
        (broadcast_all Serial.init (fun _ => false)
           ((frame_of [x01], 100%Q, 100%Q) :: MoreScenarios.four_arrivals)).1
      = true ->
      (forall later,
         Serial.config_cache
           (broadcast_all
              (broadcast_all Serial.init (fun _ => false)
                 ((frame_of [x01], 100%Q, 100%Q)
                  :: MoreScenarios.four_arrivals)).1
              (fun _ => false) later).1
         = Serial.config_cache
             (broadcast_all Serial.init (fun _ => false)
                ((frame_of [x01], 100%Q, 100%Q)
                 :: MoreScenarios.four_arrivals)).1)
      /\ forall writer stream,
           (Serial.handle_tcp_client
              (broadcast_all Serial.init (fun _ => false)
                 ((frame_of [x01], 100%Q, 100%Q)
                  :: MoreScenarios.four_arrivals)).1
              writer stream).1.2
           = map (TcpWrite writer)
               (Serial.config_cache
                  (broadcast_all Serial.init (fun _ => false)
                     ((frame_of [x01], 100%Q, 100%Q)
                      :: MoreScenarios.four_arrivals)).1)).
Proof.
  exact (config_window Serial.init (fun _ => false) (frame_of [x01])
           100%Q 100%Q MoreScenarios.four_arrivals eq_refl eq_refl).
Defined.

Lemma client_bytes_forwarded_witness :
  exists writes,
    Serial.client_loop MoreScenarios.serial_open_bridge true []
      ([xc3; xc3; xc3; xc3] ++ frame_of [x01] ++ [])
    = writes ++ [frame_of [x01]]
      ++ Serial.client_loop MoreScenarios.serial_open_bridge true [] []
    /\ concat writes = [xc3; xc3; xc3; xc3]
    /\ Forall (fun w => 0 < len w <= 32) writes.
Proof.
  apply (client_bytes_forwarded MoreScenarios.serial_open_bridge
           [xc3; xc3; xc3; xc3] [x01] (frame_of [x01]) []).
  - reflexivity.
  - reflexivity.
  - repeat constructor; by vm_compute.
  - by vm_compute.
Defined.

Lemma client_malformed_dropped_witness :
  Serial.client_loop MoreScenarios.serial_open_bridge true []
    (x94 :: x00 :: frame_of [x01])
  = [[x94; xc3; x00; x01; x01]]
  /\ Serial.client_loop MoreScenarios.serial_open_bridge true []
       (x94 :: xc3 :: x02 :: x01 :: frame_of [x01])
     = [[x94; xc3; x00; x01; x01]]
  /\ Serial.client_loop MoreScenarios.serial_open_bridge true []
       (frame_of [x01])
     = [[x94; xc3; x00; x01; x01]]
  /\ Serial.client_loop MoreScenarios.serial_open_bridge true []
       (take 4 (frame_of [x01])) = []
  /\ Serial.client_loop MoreScenarios.serial_closed_bridge true []
       (frame_of [x01] ++ frame_of [x02]) = [].
Proof.
  destruct (client_malformed_dropped MoreScenarios.serial_open_bridge eq_refl)
    as (Hmarker & Hlong & Hshort & _).
  destruct (client_malformed_dropped MoreScenarios.serial_closed_bridge eq_refl)
    as (_ & _ & _ & Hclosed).
  assert (Hframe :
    Serial.client_loop MoreScenarios.serial_open_bridge true [] (frame_of [x01])
    = [[x94; xc3; x00; x01; x01]]) by by vm_compute.
  split; [|split; [|split; [|split]]].
  - rewrite (Hmarker x00 (frame_of [x01])) by by vm_compute. exact Hframe.
  - rewrite (Hlong x02 x01 (frame_of [x01])) by by vm_compute. exact Hframe.
  - exact Hframe.
  - apply (Hshort [x01] (frame_of [x01]) 4%nat); by vm_compute.
  - apply (Hclosed eq_refl [x01] (frame_of [x01]) (frame_of [x02])).
    by vm_compute.
Defined.

Lemma frame_queue_bounded_fifo_witness :
  len (Serial.frame_queue
         (Serial.run_queue MoreScenarios.serial_open_bridge
            [Serial.Put [x01]; Serial.Put [x02]; Serial.Get;
             Serial.Put [x03]; Serial.Get]).1) <= 200
  /\ sublist
       ((Serial.run_queue MoreScenarios.serial_open_bridge
           [Serial.Put [x01]; Serial.Put [x02]; Serial.Get;
            Serial.Put [x03]; Serial.Get]).2
        ++ Serial.frame_queue
             (Serial.run_queue MoreScenarios.serial_open_bridge
                [Serial.Put [x01]; Serial.Put [x02]; Serial.Get;
                 Serial.Put [x03]; Serial.Get]).1)
       ([] ++ [[x01]; [x02]; [x03]])
  /\ (len (Serial.frame_queue MoreScenarios.serial_open_bridge)
      + len [[x01]; [x02]; [x03]] <= 200 ->
      (Serial.run_queue MoreScenarios.serial_open_bridge
         [Serial.Put [x01]; Serial.Put [x02]; Serial.Get;
          Serial.Put [x03]; Serial.Get]).2
      ++ Serial.frame_queue
           (Serial.run_queue MoreScenarios.serial_open_bridge
              [Serial.Put [x01]; Serial.Put [x02]; Serial.Get;
               Serial.Put [x03]; Serial.Get]).1
      = [] ++ [[x01]; [x02]; [x03]])
  /\ Serial.set_frame_queue
       (Serial.run_queue MoreScenarios.serial_open_bridge
          [Serial.Put [x01]; Serial.Put [x02]; Serial.Get;
           Serial.Put [x03]; Serial.Get]).1
       (Serial.frame_queue MoreScenarios.serial_open_bridge)
     = MoreScenarios.serial_open_bridge.
Proof.
  apply (frame_queue_bounded_fifo MoreScenarios.serial_open_bridge
           [Serial.Put [x01]; Serial.Put [x02]; Serial.Get;
            Serial.Put [x03]; Serial.Get]).
  by vm_compute.
Defined.

Lemma client_frame_length_unchecked_witness :
  handle_tcp_client_step Scenario.bridge 5
    ([x94; xc3; byte_of_Z (Z.shiftr (len (replicate 600 x2a)) 8);
      byte_of_Z (Z.land (len (replicate 600 x2a)) 255)]
     ++ replicate 600 x2a ++ [x94])
  = Ok (on_client_frame Scenario.bridge 5 (replicate 600 x2a), [x94])
  /\ (512 < len (replicate 600 x2a) ->
      Frame.create_tcp_frame (replicate 600 x2a) = Raise ValueError)
  /\ forall a b c d,
       Z_of_byte a <> Frame.START1 \/ Z_of_byte b <> Frame.START2 ->
       handle_tcp_client_step Scenario.bridge 5 (a :: b :: c :: d :: [x94])
       = Ok (Scenario.bridge, [], [x94]).
Proof.
  apply (client_frame_length_unchecked Scenario.bridge 5
           (replicate 600 x2a) [x94]).
  by vm_compute.
Defined.

Lemma prewarm_cache_fresh_witness :
  recording_config (prewarm_cache Scenario.lost_bridge MoreScenarios.answering).1
  = false
  /\ (forall other cache',
        config_cache other = Some cache' ->
        session_of other = session_of Scenario.lost_bridge ->
        prewarm_cache other MoreScenarios.answering
        = prewarm_cache Scenario.lost_bridge MoreScenarios.answering)
  /\ (ble_connected Scenario.lost_bridge = false ->
      (prewarm_cache Scenario.lost_bridge MoreScenarios.answering).2 = []
      /\ config_cache
           (prewarm_cache Scenario.lost_bridge MoreScenarios.answering).1
         = Some []
      /\ config_cache_complete
           (prewarm_cache Scenario.lost_bridge MoreScenarios.answering).1
         = false).
Proof.
  apply (prewarm_cache_fresh Scenario.lost_bridge
           (Scenario.body ++ [Scenario.terminal]) MoreScenarios.answering).
  by vm_compute.
Defined.
